(** * clipper-glyco: ring conformation, bonding and sanity checks of sugars

    A shallow embedding of [src/clipper-glyco.cpp] (class [MSugar]).

    The C++ code computes in [clipper::ftype] (double precision).  Every
    finite double is a rational number, so the parts of the code that only
    compare and branch are embedded over [Q], where they stay executable.
    The Cremer-Pople analysis calls [sqrt], [sin], [cos] and [acos]; it is
    embedded over the real numbers [R] at the end of the file. *)

From Stdlib Require Import QArith Bool List String Ascii ZArith Lia Lqa.
From Stdlib Require Import Reals Lra Psatz.
From Stdlib Require Import Permutation Sorted.
Import ListNotations.

Open Scope Q_scope.

(** ** Comparisons of the C++ [double] values *)

(** [a < b] and [a > b] of the C++ source, as booleans over [Q]. *)
Definition Qltb (a b : Q) : bool := negb (Qle_bool b a).
Definition Qgtb (a b : Q) : bool := negb (Qle_bool a b).
Definition Qleb (a b : Q) : bool := Qle_bool a b.
Definition Qgeb (a b : Q) : bool := Qle_bool b a.

Lemma Qltb_lt (a b : Q) : Qltb a b = true <-> a < b.
Proof.
  unfold Qltb. rewrite negb_true_iff.
  split; intro H.
  - apply Qnot_le_lt. intro Hle. apply Qle_bool_iff in Hle. congruence.
  - destruct (Qle_bool b a) eqn:E; [|reflexivity].
    apply Qle_bool_iff in E. exfalso. apply (Qlt_not_le a b); assumption.
Qed.

Lemma Qgtb_lt (a b : Q) : Qgtb a b = true <-> b < a.
Proof. unfold Qgtb. apply (Qltb_lt b a). Qed.

Lemma Qleb_le (a b : Q) : Qleb a b = true <-> a <= b.
Proof. unfold Qleb. apply Qle_bool_iff. Qed.

Lemma Qgeb_le (a b : Q) : Qgeb a b = true <-> b <= a.
Proof. unfold Qgeb. apply Qle_bool_iff. Qed.

Lemma Qltb_false (a b : Q) : Qltb a b = false <-> b <= a.
Proof.
  unfold Qltb. rewrite negb_false_iff. apply Qle_bool_iff.
Qed.

Lemma Qgtb_false (a b : Q) : Qgtb a b = false <-> a <= b.
Proof. unfold Qgtb. rewrite negb_false_iff. apply Qle_bool_iff. Qed.

Lemma Qgeb_false (a b : Q) : Qgeb a b = false <-> a < b.
Proof.
  unfold Qgeb. split; intro H.
  - apply Qnot_le_lt. intro Hle. apply Qle_bool_iff in Hle. congruence.
  - destruct (Qle_bool b a) eqn:E; [|reflexivity].
    apply Qle_bool_iff in E. exfalso. apply (Qlt_not_le a b); assumption.
Qed.

Lemma Qleb_false (a b : Q) : Qleb a b = false <-> b < a.
Proof.
  unfold Qleb. split; intro H.
  - apply Qnot_le_lt. intro Hle. apply Qle_bool_iff in Hle. congruence.
  - destruct (Qle_bool a b) eqn:E; [|reflexivity].
    apply Qle_bool_iff in E. exfalso. apply (Qlt_not_le b a); assumption.
Qed.

(** Turns every boolean comparison in the context and the goal into its
    proposition, ready for [lra]. *)
Ltac qcmp :=
  repeat match goal with
  | H : Qltb _ _ = true |- _ => apply Qltb_lt in H
  | H : Qltb _ _ = false |- _ => apply Qltb_false in H
  | H : Qgtb _ _ = true |- _ => apply Qgtb_lt in H
  | H : Qgtb _ _ = false |- _ => apply Qgtb_false in H
  | H : Qleb _ _ = true |- _ => apply Qleb_le in H
  | H : Qleb _ _ = false |- _ => apply Qleb_false in H
  | H : Qgeb _ _ = true |- _ => apply Qgeb_le in H
  | H : Qgeb _ _ = false |- _ => apply Qgeb_false in H
  end.

(** ** Conformation Classifier *)

(** Modelled from the spec: the header [clipper-glyco.h], which gives the
    [conf_pyranose_*] and [conf_furanose_*] constants their [int] values, is
    not among the sources.  Each constant named in [clipper-glyco.cpp] is a
    label of its own; [conf_unset] is the value [0] both classifiers
    initialise [confCode] with. *)
Inductive conformation : Set :=
  | conf_unset
  | conf_pyranose_4C1 | conf_pyranose_1C4
  | conf_pyranose_OH1 | conf_pyranose_E1 | conf_pyranose_2H1
  | conf_pyranose_2E | conf_pyranose_2H3 | conf_pyranose_E3
  | conf_pyranose_4H3 | conf_pyranose_4E | conf_pyranose_4H5
  | conf_pyranose_E5 | conf_pyranose_OH5 | conf_pyranose_OE
  | conf_pyranose_3S1 | conf_pyranose_B14 | conf_pyranose_5S1
  | conf_pyranose_25B | conf_pyranose_2SO | conf_pyranose_B3O
  | conf_pyranose_1S3 | conf_pyranose_14B | conf_pyranose_1S5
  | conf_pyranose_B25 | conf_pyranose_OS2 | conf_pyranose_3OB
  | conf_pyranose_3H4 | conf_pyranose_E4 | conf_pyranose_5H4
  | conf_pyranose_5E | conf_pyranose_5HO | conf_pyranose_EO
  | conf_pyranose_1HO | conf_pyranose_1E | conf_pyranose_1H2
  | conf_pyranose_E2 | conf_pyranose_3H2 | conf_pyranose_3E
  | conf_furanose_3T2 | conf_furanose_3EV | conf_furanose_3T4
  | conf_furanose_4EV | conf_furanose_OT4 | conf_furanose_OEV
  | conf_furanose_OT1 | conf_furanose_EV1 | conf_furanose_2T1
  | conf_furanose_2EV | conf_furanose_2T3 | conf_furanose_EV3
  | conf_furanose_4T3 | conf_furanose_4TO | conf_furanose_EVO
  | conf_furanose_1TO | conf_furanose_1EV | conf_furanose_1T2.


(** The twelve [phi] sectors of one [theta] band of [conformationPyranose]:
    an [if]/[else if] chain whose last test is the wraparound sector.  [c0]
    is the value [confCode] holds before the chain. *)
Definition phi_sector (phi : Q) (c0 c1 c2 c3 c4 c5 c6 c7 c8 c9 c10 c11 c12 : conformation)
  : conformation :=
  if Qgtb phi 15 && Qleb phi 45 then c1
  else if Qgtb phi 45 && Qleb phi 75 then c2
  else if Qgtb phi 75 && Qleb phi 105 then c3
  else if Qgtb phi 105 && Qleb phi 135 then c4
  else if Qgtb phi 135 && Qleb phi 165 then c5
  else if Qgtb phi 165 && Qleb phi 195 then c6
  else if Qgtb phi 195 && Qleb phi 225 then c7
  else if Qgtb phi 225 && Qleb phi 255 then c8
  else if Qgtb phi 255 && Qleb phi 285 then c9
  else if Qgtb phi 285 && Qleb phi 315 then c10
  else if Qgtb phi 315 && Qleb phi 345 then c11
  else if Qgtb phi 345 || Qleb phi 15 then c12
  else c0.

Definition conformationPyranose (phi theta : Q) : conformation :=
  let confCode := conf_unset in
  if Qleb theta 22.5 then conf_pyranose_4C1
  else if Qgtb theta 22.5 && Qleb theta 67.5 then
    phi_sector phi confCode
      conf_pyranose_OH1 conf_pyranose_E1 conf_pyranose_2H1 conf_pyranose_2E
      conf_pyranose_2H3 conf_pyranose_E3 conf_pyranose_4H3 conf_pyranose_4E
      conf_pyranose_4H5 conf_pyranose_E5 conf_pyranose_OH5 conf_pyranose_OE
  else if Qgtb theta 67.5 && Qleb theta 112.5 then
    phi_sector phi confCode
      conf_pyranose_3S1 conf_pyranose_B14 conf_pyranose_5S1 conf_pyranose_25B
      conf_pyranose_2SO conf_pyranose_B3O conf_pyranose_1S3 conf_pyranose_14B
      conf_pyranose_1S5 conf_pyranose_B25 conf_pyranose_OS2 conf_pyranose_3OB
  else if Qgtb theta 112.5 && Qleb theta 157.5 then
    phi_sector phi confCode
      conf_pyranose_3H4 conf_pyranose_E4 conf_pyranose_5H4 conf_pyranose_5E
      conf_pyranose_5HO conf_pyranose_EO conf_pyranose_1HO conf_pyranose_1E
      conf_pyranose_1H2 conf_pyranose_E2 conf_pyranose_3H2 conf_pyranose_3E
  else if Qgeb theta 157.5 then conf_pyranose_1C4
  else confCode.

(** The parameter is called [theta] in the source; the constructor passes the
    furanose phase angle.  Both bounds of every sector are strict. *)
Definition conformationFuranose (theta : Q) : conformation :=
  let confCode := conf_unset in
  if Qgtb theta 175.5 || Qltb theta 4.5 then conf_furanose_3T2
  else if Qgtb theta 4.5 && Qltb theta 13.5 then conf_furanose_3EV
  else if Qgtb theta 13.5 && Qltb theta 22.5 then conf_furanose_3T4
  else if Qgtb theta 22.5 && Qltb theta 31.5 then conf_furanose_4EV
  else if Qgtb theta 31.5 && Qltb theta 40.5 then conf_furanose_OT4
  else if Qgtb theta 40.5 && Qltb theta 49.5 then conf_furanose_OEV
  else if Qgtb theta 49.5 && Qltb theta 58.5 then conf_furanose_OT1
  else if Qgtb theta 58.5 && Qltb theta 67.5 then conf_furanose_EV1
  else if Qgtb theta 67.5 && Qltb theta 76.5 then conf_furanose_2T1
  else if Qgtb theta 76.5 && Qltb theta 85.5 then conf_furanose_2EV
  else if Qgtb theta 85.5 && Qltb theta 94.5 then conf_furanose_2T3
  else if Qgtb theta 94.5 && Qltb theta 103.5 then conf_furanose_EV3
  else if Qgtb theta 103.5 && Qltb theta 112.5 then conf_furanose_4T3
  else if Qgtb theta 112.5 && Qltb theta 121.5 then conf_furanose_4EV
  else if Qgtb theta 121.5 && Qltb theta 130.5 then conf_furanose_4TO
  else if Qgtb theta 130.5 && Qltb theta 139.5 then conf_furanose_EVO
  else if Qgtb theta 139.5 && Qltb theta 148.5 then conf_furanose_1TO
  else if Qgtb theta 148.5 && Qltb theta 157.5 then conf_furanose_1EV
  else if Qgtb theta 157.5 && Qltb theta 166.5 then conf_furanose_1T2
  else if Qgtb theta 166.5 && Qltb theta 175.5 then conf_furanose_2EV
  else confCode.





(** The sector boundaries of [conformationFuranose]: 4.5 + 9k, k = 0..19. *)
Definition furanose_boundaries : list Q :=
  [ 4.5; 13.5; 22.5; 31.5; 40.5; 49.5; 58.5; 67.5; 76.5; 85.5;
    94.5; 103.5; 112.5; 121.5; 130.5; 139.5; 148.5; 157.5; 166.5; 175.5 ].







(** *** The classifier's sectors *)

Lemma open_closed_true (a lo hi : Q) :
  Qgtb a lo && Qleb a hi = true <-> lo < a /\ a <= hi.
Proof. rewrite andb_true_iff, Qgtb_lt, Qleb_le. tauto. Qed.

Lemma open_closed_false (a lo hi : Q) :
  Qgtb a lo && Qleb a hi = false <-> a <= lo \/ hi < a.
Proof. rewrite andb_false_iff, Qgtb_false, Qleb_false. tauto. Qed.

Lemma open_open_true (a lo hi : Q) :
  Qgtb a lo && Qltb a hi = true <-> lo < a /\ a < hi.
Proof. rewrite andb_true_iff, Qgtb_lt, Qltb_lt. tauto. Qed.

Lemma open_open_false (a lo hi : Q) :
  Qgtb a lo && Qltb a hi = false <-> a <= lo \/ hi <= a.
Proof. rewrite andb_false_iff, Qgtb_false, Qltb_false. tauto. Qed.

Lemma wrap_closed_true (a lo hi : Q) :
  Qgtb a hi || Qleb a lo = true <-> hi < a \/ a <= lo.
Proof. rewrite orb_true_iff, Qgtb_lt, Qleb_le. tauto. Qed.

Lemma wrap_closed_false (a lo hi : Q) :
  Qgtb a hi || Qleb a lo = false <-> a <= hi /\ lo < a.
Proof. rewrite orb_false_iff, Qgtb_false, Qleb_false. tauto. Qed.

Lemma wrap_open_true (a lo hi : Q) :
  Qgtb a hi || Qltb a lo = true <-> hi < a \/ a < lo.
Proof. rewrite orb_true_iff, Qgtb_lt, Qltb_lt. tauto. Qed.

Lemma wrap_open_false (a lo hi : Q) :
  Qgtb a hi || Qltb a lo = false <-> a <= hi /\ lo <= a.
Proof. rewrite orb_false_iff, Qgtb_false, Qltb_false. tauto. Qed.

(** Reads the outcome [E] of one test of a sector chain as inequalities,
    without splitting the goal. *)
Ltac sector_hyp E :=
  first [ apply open_closed_true in E | apply open_closed_false in E
        | apply open_open_true in E | apply open_open_false in E
        | apply wrap_closed_true in E | apply wrap_closed_false in E
        | apply wrap_open_true in E | apply wrap_open_false in E
        | apply Qleb_le in E | apply Qleb_false in E
        | apply Qgeb_le in E | apply Qgeb_false in E
        | apply Qltb_lt in E | apply Qltb_false in E ].

(** Walks down an [if]/[else if] chain: the branch taken is closed by [tac],
    a branch excluded by the inequalities at hand by [lra]. *)
Ltac sector_chain tac :=
  repeat match goal with
  | |- context [if ?b then _ else _] =>
      let E := fresh "E" in
      destruct b eqn:E; sector_hyp E;
      [ first [ solve [tac] | exfalso; lra ] | ]
  end.







Lemma conformationPyranose_chairs (phi theta : Q) :
  (theta <= 22.5 -> conformationPyranose phi theta = conf_pyranose_4C1) /\
  (157.5 < theta -> conformationPyranose phi theta = conf_pyranose_1C4).
Proof.
  split; intros H; unfold conformationPyranose;
    sector_chain ltac:(reflexivity); exfalso; lra.
Qed.









(** Every boundary between two furanose sectors, 4.5 + 9k for
    k = 0..19, falls through the whole chain: [confCode] keeps its initial
    value 0. *)
Lemma conformationFuranose_boundary_unset :
  map conformationFuranose furanose_boundaries = repeat conf_unset 20.
Proof. vm_compute. reflexivity. Qed.

(** The same boundaries, offered to the pyranose classifier as [theta] or
    (with a band selected) as [phi], all receive a label. *)
Example conformationPyranose_boundaries :
  map (fun t => conformationPyranose 0 t) [22.5; 67.5; 112.5; 157.5]
  = [conf_pyranose_4C1; conf_pyranose_OE; conf_pyranose_3OB; conf_pyranose_3E] /\
  map (fun p => conformationPyranose p 45) [15; 45; 345]
  = [conf_pyranose_OE; conf_pyranose_OH1; conf_pyranose_OH5].
Proof. split; vm_compute; reflexivity. Qed.

(** Spec example: theta about 5 degrees classifies as 4C1 whatever phi is. *)
Example chair_regardless_of_phi (phi : Q) :
  conformationPyranose phi 5 = conf_pyranose_4C1.
Proof. apply conformationPyranose_chairs. lra. Qed.




(** ** Atoms and distances *)

(** [clipper::Coord_orth]: orthogonal coordinates in Angstrom. *)
Record Coord_orth : Set := mkCoord { cx : Q; cy : Q; cz : Q }.

(** [clipper::MAtom], as far as [MSugar] reads it: [atom_id] is [id()], with
    the alternate-conformation code at position 5 when there is one;
    [atom_name] is [name().trim()] and [atom_element] is [element().trim()]. *)
Record MAtom : Set := mkAtom {
  atom_id : string;
  atom_name : string;
  atom_element : string;
  atom_occupancy : Q;
  coord_orth : Coord_orth
}.

Definition lengthsq (a b : Coord_orth) : Q :=
  (cx a - cx b) * (cx a - cx b) + (cy a - cy b) * (cy a - cy b)
  + (cz a - cz b) * (cz a - cz b).

(** [clipper::Coord_orth::length(a,b)] is the square root of [lengthsq a b].
    The code only ever compares a length with a positive constant [c]; as a
    length is not negative, [length > c] is [lengthsq > c*c] and [length < c]
    is [lengthsq < c*c].  A distance is carried as its square. *)
Definition distance_t : Set := Q.

Definition length (a b : Coord_orth) : distance_t := lengthsq a b.

Definition dist_gt (distance : distance_t) (c : Q) : bool := Qgtb distance (c * c).
Definition dist_lt (distance : distance_t) (c : Q) : bool := Qltb distance (c * c).

Lemma length_sym (a b : Coord_orth) : length a b == length b a.
Proof. unfold length, lengthsq. ring. Qed.

Lemma dist_gt_sym (a b : Coord_orth) (c : Q) :
  dist_gt (length a b) c = dist_gt (length b a) c.
Proof.
  unfold dist_gt, Qgtb. f_equal. apply Qleb_comp; [apply length_sym | reflexivity].
Qed.

Lemma dist_lt_sym (a b : Coord_orth) (c : Q) :
  dist_lt (length a b) c = dist_lt (length b a) c.
Proof.
  unfold dist_lt, Qltb. f_equal. apply Qleb_comp; [reflexivity | apply length_sym].
Qed.

(** ** Bond Oracle *)

Open Scope string_scope.

(** [MSugar::bonded(const MAtom&, const MAtom&)].  The window for an unknown
    bond is the last [else] of the chain over the element of [ma_one]; a
    pair that enters one of the three blocks and matches none of its tests
    leaves the block and reaches the final [return false]. *)
Definition bonded (ma_one ma_two : MAtom) : bool :=
  let distance := length (coord_orth ma_one) (coord_orth ma_two) in
  if atom_element ma_one =? "C" then
    if atom_element ma_two =? "C" then
      if dist_gt distance 1.18 && dist_lt distance 1.60 then true else false
    else if atom_element ma_two =? "N" then
      if dist_gt distance 1.24 && dist_lt distance 1.52 then true else false
    else if atom_element ma_two =? "O" then
      if dist_gt distance 1.16 && dist_lt distance 1.50 then true else false
    else if atom_element ma_two =? "H" then
      if dist_gt distance 0.96 && dist_lt distance 1.14 then true else false
    else false
  else if atom_element ma_one =? "N" then
    if atom_element ma_two =? "C" then
      if dist_gt distance 1.24 && dist_lt distance 1.52 then true else false
    else if atom_element ma_two =? "H" then
      if dist_gt distance 0.90 && dist_lt distance 1.10 then true else false
    else false
  else if atom_element ma_one =? "O" then
    if atom_element ma_two =? "C" then
      if dist_gt distance 1.16 && dist_lt distance 1.50 then true else false
    else if atom_element ma_two =? "H" then
      if dist_gt distance 0.88 && dist_lt distance 1.04 then true else false
    else false
  else if dist_gt distance 1.2 && dist_lt distance 1.8 then true
  else false.

(** [MSugar::get_altconf]: the character at position 5 of the identifier, a
    blank when the identifier is too short. *)
Definition get_altconf (ma : MAtom) : ascii :=
  let identifier := atom_id ma in
  if (5 <? String.length identifier)%nat then
    match String.get 5 identifier with
    | Some c => c
    | None => " "%char
    end
  else " "%char.

(** ** Ring Finder: neighbours of an atom *)

Definition visited_arcs : Set := list (MAtom * MAtom).

(** [MSugar::lookup_visited]: an arc counts as visited in either direction;
    atoms are compared by name. *)
Fixpoint lookup_visited (va : visited_arcs) (pairs : MAtom * MAtom) : bool :=
  match va with
  | [] => false
  | arc :: rest =>
      if ((atom_name (fst pairs) =? atom_name (fst arc))
          && (atom_name (snd pairs) =? atom_name (snd arc)))
         || ((atom_name (fst pairs) =? atom_name (snd arc))
             && (atom_name (snd pairs) =? atom_name (fst arc)))
      then true
      else lookup_visited rest pairs
  end.

(** The test [findBonded] applies to the atom [mi] of the monomer. *)
Definition findBonded_keeps (ma : MAtom) (background : visited_arcs) (mi : MAtom) : bool :=
  let bond_length := length (coord_orth mi) (coord_orth ma) in
  if dist_gt bond_length 0.5 && dist_lt bond_length 1.61 then
    if negb (lookup_visited background (ma, mi)) then
      if Ascii.eqb (get_altconf ma) (get_altconf mi) then true else false
    else false
  else false.

(** [MSugar::findBonded]: the loop over the atom list of the monomer [mm]
    pushes every atom that passes the test, in order. *)
Fixpoint findBonded (mm : list MAtom) (ma : MAtom) (background : visited_arcs)
  : list MAtom :=
  match mm with
  | [] => []
  | mi :: rest =>
      if findBonded_keeps ma background mi
      then mi :: findBonded rest ma background
      else findBonded rest ma background
  end.

(** *** Sample atoms *)

Definition atom_at (nm el : string) (x : Q) : MAtom :=
  mkAtom (" " ++ nm) nm el 1 (mkCoord x 0 0).

Definition sample_C1 : MAtom := atom_at "C1" "C" 0.
Definition sample_C2 : MAtom := atom_at "C2" "C" 1.
Definition sample_H1 : MAtom := atom_at "H1" "H" 1.
Definition sample_S5 : MAtom := atom_at "S5" "S" 1.5.
Definition sample_S6 : MAtom := atom_at "S6" "S" (-0.2).

(** *** The oracle and the order of its arguments *)

(** An element with a block of its own in [bonded]. *)
Definition is_CNO (el : string) : bool :=
  (el =? "C") || (el =? "N") || (el =? "O").

(** Two elements [bonded] has a distance window for, in this order. *)
Definition dedicated_window (e1 e2 : string) : bool :=
  if e1 =? "C" then (e2 =? "C") || (e2 =? "N") || (e2 =? "O") || (e2 =? "H")
  else if e1 =? "N" then (e2 =? "C") || (e2 =? "H")
  else if e1 =? "O" then (e2 =? "C") || (e2 =? "H")
  else false.

Lemma is_CNO_cases (el : string) :
  is_CNO el = true -> el = "C" \/ el = "N" \/ el = "O".
Proof.
  unfold is_CNO. intros H.
  apply orb_true_iff in H. destruct H as [H|H].
  - apply orb_true_iff in H. destruct H as [H|H]; apply String.eqb_eq in H; auto.
  - apply String.eqb_eq in H; auto.
Qed.

(** X1.  On carbon, nitrogen and oxygen the oracle does not depend on the
    order of its arguments. *)
Lemma bonded_sym_CNO (a b : MAtom) :
  is_CNO (atom_element a) = true -> is_CNO (atom_element b) = true ->
  bonded a b = bonded b a.
Proof.
  intros Ha Hb.
  apply is_CNO_cases in Ha. apply is_CNO_cases in Hb.
  unfold bonded.
  rewrite !(dist_gt_sym (coord_orth a) (coord_orth b)).
  rewrite !(dist_lt_sym (coord_orth a) (coord_orth b)).
  destruct Ha as [Ea|[Ea|Ea]]; destruct Hb as [Eb|[Eb|Eb]];
    rewrite Ea, Eb; reflexivity.
Qed.

(** Two atoms, neither of which is carbon, nitrogen or oxygen, both reach the
    window of the unknown bond. *)
Lemma bonded_sym_unknown (a b : MAtom) :
  is_CNO (atom_element a) = false -> is_CNO (atom_element b) = false ->
  bonded a b = bonded b a.
Proof.
  unfold is_CNO, bonded. intros Ha Hb.
  apply orb_false_iff in Ha; destruct Ha as [Ha HaO].
  apply orb_false_iff in Ha; destruct Ha as [HaC HaN].
  apply orb_false_iff in Hb; destruct Hb as [Hb HbO].
  apply orb_false_iff in Hb; destruct Hb as [HbC HbN].
  rewrite HaC, HaN, HaO, HbC, HbN, HbO.
  rewrite (dist_gt_sym (coord_orth a) (coord_orth b)).
  rewrite (dist_lt_sym (coord_orth a) (coord_orth b)).
  reflexivity.
Qed.

Lemma bonded_sym_CNO_witness :
  bonded (atom_at "C1" "C" 0) (atom_at "O5" "O" 1.4)
  = bonded (atom_at "O5" "O" 1.4) (atom_at "C1" "C" 0).
Proof. apply bonded_sym_CNO; reflexivity. Defined.

(** C4.  At the carbon [sample_C1] and the hydrogen [sample_H1], 1.0 A apart,
    the oracle answers [true] in the order (C, H), through the C-H window, and
    [false] in the order (H, C), where hydrogen has no block and the pair is
    held against the window of the unknown bond.  At the carbon [sample_C1]
    and the sulphur [sample_S5], 1.5 A apart, a pair with no window of its
    own, it answers [false] in the order (C, S), which leaves the carbon block
    for the final [return false], and [true] in the order (S, C). *)
Theorem bonded_order_matters :
  bonded sample_C1 sample_H1 = true /\ bonded sample_H1 sample_C1 = false /\
  bonded sample_C1 sample_S5 = false /\ bonded sample_S5 sample_C1 = true.
Proof. repeat split; vm_compute; reflexivity. Qed.

(** *** The neighbours the ring search follows *)

Lemma findBonded_In (mm : list MAtom) (ma : MAtom) (background : visited_arcs) (a : MAtom) :
  In a (findBonded mm ma background) <->
  In a mm /\ findBonded_keeps ma background a = true.
Proof.
  induction mm as [|mi rest IH]; simpl.
  - tauto.
  - destruct (findBonded_keeps ma background mi) eqn:E; simpl; rewrite IH.
    + split.
      * intros [H|[H1 H2]]; [subst; auto | auto].
      * intros [[H|H] H2]; [left; assumption | right; auto].
    + split.
      * intros [H1 H2]; auto.
      * intros [[H|H] H2]; [subst; congruence | auto].
Qed.

Lemma findBonded_keeps_iff (ma : MAtom) (background : visited_arcs) (mi : MAtom) :
  findBonded_keeps ma background mi = true <->
  0.5 * 0.5 < lengthsq (coord_orth mi) (coord_orth ma)
  /\ lengthsq (coord_orth mi) (coord_orth ma) < 1.61 * 1.61
  /\ lookup_visited background (ma, mi) = false
  /\ get_altconf ma = get_altconf mi.
Proof.
  unfold findBonded_keeps, dist_gt, dist_lt, length.
  destruct (Qgtb _ _) eqn:E1; destruct (Qltb _ _) eqn:E2; simpl;
    destruct (lookup_visited background (ma, mi)) eqn:E3; simpl;
    destruct (Ascii.eqb_spec (get_altconf ma) (get_altconf mi)) as [E4|E4];
    qcmp; split; try discriminate; try tauto;
    intros (H1 & H2 & H3 & H4); try discriminate; try contradiction;
    exfalso; lra.
Qed.

(** A pair the oracle accepts through one of its six dedicated windows lies
    inside the single window of [findBonded]. *)
Lemma dedicated_window_inside (a b : MAtom) :
  dedicated_window (atom_element a) (atom_element b) = true ->
  bonded a b = true ->
  0.5 * 0.5 < lengthsq (coord_orth a) (coord_orth b)
  /\ lengthsq (coord_orth a) (coord_orth b) < 1.61 * 1.61.
Proof.
  unfold dedicated_window, bonded, dist_gt, dist_lt, length.
  set (d := lengthsq (coord_orth a) (coord_orth b)).
  intros Hw Hb.
  repeat match type of Hb with
  | context [String.eqb ?x ?y] =>
      let E := fresh "E" in
      destruct (String.eqb x y) eqn:E; simpl in Hw; try discriminate
  end.
  all: match type of Hb with
       | context [if ?c then true else false] => destruct c eqn:Ec; [|discriminate]
       end.
  all: apply andb_true_iff in Ec; destruct Ec as [Ec1 Ec2]; qcmp; split; lra.
Qed.

(** C5, counterexample.  [sample_C2] is a carbon 1.0 A from the carbon
    [sample_C1], with the same (blank) alternate-conformation code: the ring
    search takes it as a bonded neighbour, the oracle's C-C window
    (1.18, 1.60) rejects it.  [sample_S6] is a sulphur 1.7 A from the sulphur
    [sample_S5]: the oracle accepts the pair, the ring search does not. *)
Lemma findBonded_bonded_counterexample :
  (In sample_C2 [sample_C1; sample_C2]
   /\ get_altconf sample_C1 = get_altconf sample_C2
   /\ In sample_C2 (findBonded [sample_C1; sample_C2] sample_C1 [])
   /\ bonded sample_C1 sample_C2 = false)
  /\ (In sample_S6 [sample_S5; sample_S6]
      /\ get_altconf sample_S5 = get_altconf sample_S6
      /\ findBonded [sample_S5; sample_S6] sample_S5 [] = []
      /\ bonded sample_S5 sample_S6 = true).
Proof.
  split.
  - split; [simpl; auto|]. split; [reflexivity|]. split.
    + vm_compute. left. reflexivity.
    + vm_compute. reflexivity.
  - split; [simpl; auto|]. split; [reflexivity|]. split; vm_compute; reflexivity.
Qed.

(** C5, amended.  During the cycle search [findBonded] takes an atom of the
    monomer as a bonded neighbour of [ma] exactly when their distance lies in
    the single window (0.5, 1.61) A, whatever the two elements are, the arc
    has not been visited and both atoms carry the same alternate-conformation
    code.  Every pair the Bond Oracle accepts through one of its six dedicated
    element-pair windows lies inside that window. *)
Theorem findBonded_window (mm : list MAtom) (ma a b : MAtom) (background : visited_arcs) :
  (In a (findBonded mm ma background) <->
     In a mm
     /\ 0.5 * 0.5 < lengthsq (coord_orth a) (coord_orth ma)
     /\ lengthsq (coord_orth a) (coord_orth ma) < 1.61 * 1.61
     /\ lookup_visited background (ma, a) = false
     /\ get_altconf ma = get_altconf a)
  /\ (dedicated_window (atom_element a) (atom_element b) = true ->
      bonded a b = true ->
      0.5 * 0.5 < lengthsq (coord_orth a) (coord_orth b)
      /\ lengthsq (coord_orth a) (coord_orth b) < 1.61 * 1.61).
Proof.
  split.
  - rewrite findBonded_In, findBonded_keeps_iff. tauto.
  - apply dedicated_window_inside.
Qed.

Definition sample_O5 : MAtom := atom_at "O5" "O" 1.4.

Lemma findBonded_window_witness :
  In sample_O5 (findBonded [sample_C1; sample_O5] sample_C1 [])
  /\ 0.5 * 0.5 < lengthsq (coord_orth sample_C1) (coord_orth sample_O5)
  /\ lengthsq (coord_orth sample_C1) (coord_orth sample_O5) < 1.61 * 1.61.
Proof.
  destruct (findBonded_window [sample_C1; sample_O5] sample_C1 sample_O5 sample_O5 [])
    as [Hiff _].
  destruct (findBonded_window [] sample_C1 sample_C1 sample_O5 []) as [_ Hin].
  split.
  - apply Hiff. split; [simpl; auto|].
    split; [vm_compute; reflexivity|]. split; [vm_compute; reflexivity|].
    split; reflexivity.
  - apply Hin; vm_compute; reflexivity.
Defined.

(** ** The sugar object and its constructor *)

(** [clipper::MM::MODE], the two ways [MMonomer::lookup] compares atom ids. *)
Inductive MODE : Set := ANY | UNIQUE.

(** Modelled from the spec: an entry of [clipper::data::sugar_database],
    declared in a header that is not among the sources.  [name_short] is the
    three-letter code, [ring_atoms] the ring template after
    [.trim().split(" ")]. *)
Record sugar_database_entry : Set := mkEntry {
  name_short : string;
  db_anomer : string;
  db_handedness : string;
  ring_atoms : list string
}.

(** What a Cremer-Pople routine leaves in the object: the parameters pushed
    to [sugar_cremer_pople_params], the anomer and the handedness. *)
Record cremer_pople : Set := mkCP {
  cp_params : list Q;
  cp_anomer : string;
  cp_handedness : string
}.

(** The five diagnostic flags. *)
Record diagnostics : Set := mkDiag {
  sugar_diag_ring : bool;
  sugar_diag_chirality : bool;
  sugar_diag_anomer : bool;
  sugar_diag_bonds_rmsd : bool;
  sugar_diag_angles_rmsd : bool
}.

(** The members of [MSugar] the constructor writes.  [sugar_conformation]
    and [sugar_diag] are [None] while the constructor has not written them
    (C++ leaves such members indeterminate). *)
Record MSugar : Set := mkSugar {
  sugar_supported : bool;
  sugar_found_db : bool;
  sugar_index : option nat;
  sugar_alternate_confcode : string;
  sugar_ring_elements : list MAtom;
  sugar_cremer_pople_params : list Q;
  sugar_conformation : option conformation;
  sugar_denomination : string;
  sugar_anomer : string;
  sugar_handedness : string;
  sugar_sane : bool;
  sugar_diag : option diagnostics
}.

(** A default-constructed [clipper::MAtom()]. *)
Definition MAtom_null : MAtom := mkAtom "" "" "" 0 (mkCoord 0 0 0).

Definition entry_null : sugar_database_entry := mkEntry "" "" "" [].

(** [v[i]] for a [std::vector] of atoms; the code never checks the index. *)
Definition at_index (v : list MAtom) (i : nat) : MAtom := nth i v MAtom_null.

Definition unsupported_denomination : string := "    unsupported    ".

(** [MSugar::lookup_database]: the index of the first entry whose short name
    is [name]; [None] stands for [db_not_found] and the result [false]. *)
Fixpoint lookup_database_from (db : list sugar_database_entry) (name : string) (i : nat)
  : option nat :=
  match db with
  | [] => None
  | e :: rest =>
      if name =? name_short e then Some i
      else lookup_database_from rest name (S i)
  end.

Definition lookup_database (db : list sugar_database_entry) (name : string) : option nat :=
  lookup_database_from db name 0.

(** The ring-closure test at the end of [MSugar::examine_ring]: every atom is
    bonded to the next one, and the last one to the first. *)
Fixpoint consecutive_bonded (ring : list MAtom) : bool :=
  match ring with
  | a :: ((b :: _) as rest) => if negb (bonded a b) then false else consecutive_bonded rest
  | _ => true
  end.

Definition ring_closes (ring : list MAtom) : bool :=
  if negb (consecutive_bonded ring) then false
  else if negb (bonded (at_index ring (List.length ring - 1)) (at_index ring 0)) then false
  else true.

(** The chirality test of the constructor. *)
Definition diag_chirality (sugar_handedness ref_handedness : string) : bool :=
  if (negb (sugar_handedness =? "D") && negb (ref_handedness =? "D"))
     || (negb (sugar_handedness =? "L") && negb (ref_handedness =? "L"))
  then true else false.

(** The anomer test of the constructor. *)
Definition diag_anomer (sugar_anomer ref_anomer : string) : bool :=
  if ((sugar_anomer =? "alpha") && negb (ref_anomer =? "B"))
     || ((sugar_anomer =? "beta") && negb (ref_anomer =? "A"))
  then true else false.

Definition diag_bonds_rmsd (ring_size : nat) (sugar_ring_bond_rmsd : Q) : bool :=
  if (ring_size =? 5)%nat then
    if Qltb sugar_ring_bond_rmsd 0.040 then true else false
  else
    if Qltb sugar_ring_bond_rmsd 0.035 then true else false.

Definition diag_angles_rmsd (ring_size : nat) (sugar_ring_angle_rmsd : Q) : bool :=
  if (ring_size =? 5)%nat then
    if Qgtb sugar_ring_angle_rmsd 4.0 && Qltb sugar_ring_angle_rmsd 7.5 then true else false
  else
    if Qltb sugar_ring_angle_rmsd 4.0 then true else false.

(** The "basic sanity check" that ends the constructor: [sugar_sane] and the
    five flags, from what the earlier stages left in the object. *)
Definition sanity_check (found_db : bool) (ref : sugar_database_entry)
    (ring_size : nat) (sugar_anomer sugar_handedness : string)
    (examine_ring : bool) (sugar_ring_bond_rmsd sugar_ring_angle_rmsd : Q)
  : bool * diagnostics :=
  let sugar_sane := false in
  let d_ring := if examine_ring then true else false in
  if found_db then
    let d_chirality := diag_chirality sugar_handedness (db_handedness ref) in
    let d_anomer := diag_anomer sugar_anomer (db_anomer ref) in
    let d_bonds := diag_bonds_rmsd ring_size sugar_ring_bond_rmsd in
    let d_angles := diag_angles_rmsd ring_size sugar_ring_angle_rmsd in
    let sugar_sane :=
      if d_angles && d_bonds && d_anomer && d_chirality && d_ring then true
      else sugar_sane in
    (sugar_sane, mkDiag d_ring d_chirality d_anomer d_bonds d_angles)
  else
    (sugar_sane, mkDiag d_ring false false false false).

(** The outcome of the loop over the ring template: the ring atoms found so
    far and the alternate-conformation code, and whether the loop ran to its
    end ([true]) or hit one of its two [return]s. *)
Definition template_result : Set := (bool * string * list MAtom)%type.

Section Constructor.

(** [clipper::MMonomer::lookup]: the index of the atom of the monomer with
    the given id, [-1] when there is none. *)
Variable lookup : list MAtom -> string -> MODE -> Z.

(** [MSugar::ringMembers], the cycle search. *)
Variable ringMembers : list MAtom -> list MAtom.

(** The two Cremer-Pople routines, read as functions of the ring. *)
Variable cremerPople_furanose : list MAtom -> cremer_pople.
Variable cremerPople_pyranose : list MAtom -> cremer_pople.

(** The two root-mean-square deviations [examine_ring] stores. *)
Variable ring_bond_rmsd : list MAtom -> Q.
Variable ring_angle_rmsd : list MAtom -> Q.

Variable sugar_database : list sugar_database_entry.

(** The loop of the constructor over the names of the ring template
    ([buffer]), for the monomer [mm]. *)
Fixpoint template_ring (mm : list MAtom) (buffer : list string)
    (confcode : string) (ring : list MAtom) : template_result :=
  match buffer with
  | [] => (true, confcode, ring)
  | b :: rest =>
      let index_atom := lookup mm b ANY in
      if (index_atom =? -1)%Z then (false, confcode, ring)
      else if Qltb (atom_occupancy (at_index mm (Z.to_nat index_atom))) 1.0 then
        if negb (Ascii.eqb (get_altconf (at_index mm (Z.to_nat index_atom))) " ") then
          let index_A := lookup mm (b ++ " :A") UNIQUE in
          let index_atom := if (index_A =? -1)%Z then lookup mm (b ++ " :B") UNIQUE else index_A in
          let confcode := if (index_A =? -1)%Z then confcode else " :A" in
          if (index_atom =? -1)%Z then (false, confcode, ring)
          else
            let confcode := " :B" in
            template_ring mm rest confcode (ring ++ [at_index mm (Z.to_nat index_atom)])
        else template_ring mm rest confcode (ring ++ [at_index mm (Z.to_nat index_atom)])
      else template_ring mm rest confcode (ring ++ [at_index mm (Z.to_nat index_atom)])
  end.

(** The object at one of the two [return]s inside the template loop. *)
Definition unsupported_early (idx : option nat) (confcode : string) (ring : list MAtom)
  : MSugar :=
  mkSugar false true idx confcode ring [] None
          unsupported_denomination "X" "X" false None.

(** The constructor from the point where the ring members are known. *)
Definition analyse_ring (found_db : bool) (idx : option nat) (confcode : string)
    (ring : list MAtom) : MSugar :=
  let size := List.length ring in
  (* ring size: 5, 6, or unsupported *)
  let '(supported, params, conformation_, denomination, anomer, handedness) :=
    if (size =? 5)%nat then
      let cp := cremerPople_furanose ring in
      (true, cp_params cp, Some (conformationFuranose (nth 2 (cp_params cp) 0)),
       "", cp_anomer cp, cp_handedness cp)
    else if (size =? 6)%nat then
      let cp := cremerPople_pyranose ring in
      (true, cp_params cp,
       Some (conformationPyranose (nth 1 (cp_params cp) 0) (nth 2 (cp_params cp) 0)),
       "", cp_anomer cp, cp_handedness cp)
    else
      (false, [], None, unsupported_denomination, "X", "X") in
  (* no return here: the denomination is composed for every ring *)
  let denomination :=
    match index 0 "C1" (atom_name (at_index ring 1)) with
    | Some _ => "aldo"
    | None => "keto"
    end in
  let denomination :=
    if (size =? 5)%nat then denomination ++ "furanose"
    else denomination ++ "pyranose" in
  let denomination := anomer ++ "-" ++ handedness ++ "-" ++ denomination in
  let ref := nth (match idx with Some i => i | None => 0%nat end) sugar_database entry_null in
  let '(sane, diag) :=
    sanity_check found_db ref size anomer handedness
                 (ring_closes ring) (ring_bond_rmsd ring) (ring_angle_rmsd ring) in
  mkSugar supported found_db idx confcode ring params conformation_
          denomination anomer handedness sane (Some diag).

(** [MSugar::MSugar(ml, mm, nb)] for the monomer with atoms [mm] and
    three-letter code [type_]. *)
Definition MSugar_new (mm : list MAtom) (type_ : string) : MSugar :=
  let sugar_alternate_confcode := " " in
  match lookup_database sugar_database type_ with
  | Some i =>
      let buffer := ring_atoms (nth i sugar_database entry_null) in
      match template_ring mm buffer sugar_alternate_confcode [] with
      | (false, confcode, ring) => unsupported_early (Some i) confcode ring
      | (true, confcode, ring) => analyse_ring true (Some i) confcode ring
      end
  | None =>
      analyse_ring false None sugar_alternate_confcode (ringMembers mm)
  end.

End Constructor.

Arguments template_ring lookup mm buffer confcode ring : rename.
Arguments analyse_ring cremerPople_furanose cremerPople_pyranose
  ring_bond_rmsd ring_angle_rmsd sugar_database found_db idx confcode ring : rename.

(** *** Sample monomers *)

(** A lookup in the style of [clipper::MMonomer::lookup], for the examples:
    mode [ANY] finds the first atom with the given name, mode [UNIQUE] the
    first atom whose id is the given one behind a leading blank. *)
Fixpoint lookup_sample_from (mm : list MAtom) (str : string) (mode : MODE) (i : Z) : Z :=
  match mm with
  | [] => (-1)%Z
  | a :: rest =>
      if match mode with
         | ANY => atom_name a =? str
         | UNIQUE => atom_id a =? " " ++ str
         end
      then i
      else lookup_sample_from rest str mode (i + 1)%Z
  end.

Definition lookup_sample (mm : list MAtom) (str : string) (mode : MODE) : Z :=
  lookup_sample_from mm str mode 0%Z.

Definition atom_xy (nm el : string) (x y : Q) : MAtom :=
  mkAtom (" " ++ nm) nm el 1 (mkCoord x y 0).

(** A flat six-membered ring with sides of 1.39 and 1.40 A. *)
Definition sample_pyranose : list MAtom :=
  [ atom_xy "O5" "O" 1.4 0; atom_xy "C1" "C" 0.7 1.2; atom_xy "C2" "C" (-0.7) 1.2;
    atom_xy "C3" "C" (-1.4) 0; atom_xy "C4" "C" (-0.7) (-1.2); atom_xy "C5" "C" 0.7 (-1.2) ].

(** A four-membered ring. *)
Definition sample_four_ring : list MAtom :=
  [ atom_xy "O4" "O" 0 0; atom_xy "C1" "C" 1.4 0;
    atom_xy "C2" "C" 1.4 1.4; atom_xy "C3" "C" 0 1.4 ].

(** An atom in two alternate conformations, at partial occupancy. *)
Definition atom_alt (nm el : string) (alt : string) (x y : Q) : MAtom :=
  mkAtom (" " ++ nm ++ " :" ++ alt) nm el 0.5 (mkCoord x y 0).

(** The six-membered ring with [C1] split into conformations A and B. *)
Definition sample_pyranose_alt : list MAtom :=
  [ atom_xy "O5" "O" 1.4 0; atom_alt "C1" "C" "A" 0.7 1.2; atom_alt "C1" "C" "B" 0.7 1.3;
    atom_xy "C2" "C" (-0.7) 1.2; atom_xy "C3" "C" (-1.4) 0;
    atom_xy "C4" "C" (-0.7) (-1.2); atom_xy "C5" "C" 0.7 (-1.2) ].

Definition sample_database : list sugar_database_entry :=
  [ mkEntry "GLC" "A" "D" ["O5"; "C1"; "C2"; "C3"; "C4"; "C5"];
    mkEntry "BGC" "B" "D" ["O5"; "C1"; "C2"; "C3"; "C4"; "C5"] ].

(** Stand-ins for the geometric stages in the examples: an alpha-D chair,
    bond-length RMSD 0.03 A, angle RMSD 3.0 degrees. *)
Definition sample_cp : list MAtom -> cremer_pople :=
  fun _ => mkCP [0.55; 30; 5] "alpha" "D".

Definition sample_new (ringMembers : list MAtom -> list MAtom)
    (mm : list MAtom) (type_ : string) : MSugar :=
  MSugar_new lookup_sample ringMembers sample_cp sample_cp
             (fun _ => 0.03) (fun _ => 3.0) sample_database mm type_.

(** *** The flags of the sanity check *)

Lemma if_bool_id (b : bool) : (if b then true else false) = b.
Proof. destruct b; reflexivity. Qed.

Lemma diag_anomer_iff (sugar_anomer ref_anomer : string) :
  diag_anomer sugar_anomer ref_anomer = true <->
  (sugar_anomer = "alpha" /\ ref_anomer <> "B")
  \/ (sugar_anomer = "beta" /\ ref_anomer <> "A").
Proof.
  unfold diag_anomer. rewrite if_bool_id.
  rewrite orb_true_iff, !andb_true_iff, !negb_true_iff.
  rewrite !String.eqb_eq, !String.eqb_neq. tauto.
Qed.

Lemma diag_chirality_iff (sugar_handedness ref_handedness : string) :
  diag_chirality sugar_handedness ref_handedness = true <->
  (sugar_handedness <> "D" /\ ref_handedness <> "D")
  \/ (sugar_handedness <> "L" /\ ref_handedness <> "L").
Proof.
  unfold diag_chirality. rewrite if_bool_id.
  rewrite orb_true_iff, !andb_true_iff, !negb_true_iff.
  rewrite !String.eqb_neq. tauto.
Qed.

Lemma diag_bonds_rmsd_iff (ring_size : nat) (rmsd : Q) :
  (ring_size = 5%nat -> (diag_bonds_rmsd ring_size rmsd = true <-> rmsd < 0.040))
  /\ (ring_size <> 5%nat -> (diag_bonds_rmsd ring_size rmsd = true <-> rmsd < 0.035)).
Proof.
  unfold diag_bonds_rmsd. split; intros H.
  - subst ring_size. simpl. rewrite if_bool_id. apply Qltb_lt.
  - apply Nat.eqb_neq in H. rewrite H, if_bool_id. apply Qltb_lt.
Qed.

Lemma diag_angles_rmsd_iff (ring_size : nat) (rmsd : Q) :
  (ring_size = 5%nat ->
     (diag_angles_rmsd ring_size rmsd = true <-> 4.0 < rmsd /\ rmsd < 7.5))
  /\ (ring_size <> 5%nat -> (diag_angles_rmsd ring_size rmsd = true <-> rmsd < 4.0)).
Proof.
  unfold diag_angles_rmsd. split; intros H.
  - subst ring_size. simpl. rewrite if_bool_id. apply open_open_true.
  - apply Nat.eqb_neq in H. rewrite H, if_bool_id. apply Qltb_lt.
Qed.

(** With the sugar found in the database, every flag is the outcome of its
    test and [sugar_sane] is their conjunction. *)
Lemma sanity_check_found (ref : sugar_database_entry) (ring_size : nat)
    (anomer handedness : string) (examine_ring : bool) (bond_rmsd angle_rmsd : Q) :
  let r := sanity_check true ref ring_size anomer handedness examine_ring bond_rmsd angle_rmsd in
  sugar_diag_ring (snd r) = examine_ring
  /\ sugar_diag_chirality (snd r) = diag_chirality handedness (db_handedness ref)
  /\ sugar_diag_anomer (snd r) = diag_anomer anomer (db_anomer ref)
  /\ sugar_diag_bonds_rmsd (snd r) = diag_bonds_rmsd ring_size bond_rmsd
  /\ sugar_diag_angles_rmsd (snd r) = diag_angles_rmsd ring_size angle_rmsd
  /\ fst r = sugar_diag_angles_rmsd (snd r) && sugar_diag_bonds_rmsd (snd r)
             && sugar_diag_anomer (snd r) && sugar_diag_chirality (snd r)
             && sugar_diag_ring (snd r).
Proof.
  unfold sanity_check; simpl. rewrite !if_bool_id. repeat split; reflexivity.
Qed.

(** Without a database entry the chirality, anomer, bond-RMSD and
    angle-RMSD flags and [sugar_sane] are false, whatever the geometry; the
    ring-closure flag is still the outcome of [examine_ring]. *)
Lemma sanity_check_not_found (ref : sugar_database_entry) (ring_size : nat)
    (anomer handedness : string) (examine_ring : bool) (bond_rmsd angle_rmsd : Q) :
  let r := sanity_check false ref ring_size anomer handedness examine_ring bond_rmsd angle_rmsd in
  fst r = false
  /\ sugar_diag_chirality (snd r) = false /\ sugar_diag_anomer (snd r) = false
  /\ sugar_diag_bonds_rmsd (snd r) = false /\ sugar_diag_angles_rmsd (snd r) = false
  /\ sugar_diag_ring (snd r) = examine_ring.
Proof.
  unfold sanity_check; simpl. rewrite if_bool_id. repeat split; reflexivity.
Qed.

Section ConstructorProperties.

Variable lookup : list MAtom -> string -> MODE -> Z.
Variable ringMembers : list MAtom -> list MAtom.
Variable cremerPople_furanose : list MAtom -> cremer_pople.
Variable cremerPople_pyranose : list MAtom -> cremer_pople.
Variable ring_bond_rmsd : list MAtom -> Q.
Variable ring_angle_rmsd : list MAtom -> Q.
Variable sugar_database : list sugar_database_entry.

Let analyse := analyse_ring cremerPople_furanose cremerPople_pyranose
                 ring_bond_rmsd ring_angle_rmsd sugar_database.
Let new := MSugar_new lookup ringMembers cremerPople_furanose cremerPople_pyranose
             ring_bond_rmsd ring_angle_rmsd sugar_database.

(** What the constructor leaves in the object once the ring is known. *)
Lemma analyse_ring_fields (found_db : bool) (idx : option nat) (confcode : string)
    (ring : list MAtom) :
  let s := analyse found_db idx confcode ring in
  let ref := nth (match idx with Some i => i | None => 0%nat end)
                 sugar_database entry_null in
  let r := sanity_check found_db ref (List.length ring) (sugar_anomer s)
             (sugar_handedness s) (ring_closes ring)
             (ring_bond_rmsd ring) (ring_angle_rmsd ring) in
  sugar_found_db s = found_db /\ sugar_index s = idx
  /\ sugar_alternate_confcode s = confcode /\ sugar_ring_elements s = ring
  /\ sugar_sane s = fst r /\ sugar_diag s = Some (snd r).
Proof.
  unfold analyse, analyse_ring.
  destruct (List.length ring =? 5)%nat; [|destruct (List.length ring =? 6)%nat];
    cbv zeta;
    match goal with
    | |- context [sanity_check ?a ?b ?c ?d ?e ?f ?g ?h] =>
        destruct (sanity_check a b c d e f g h) as [sane diag] eqn:Es
    end; simpl; rewrite ?Es; simpl; repeat split; reflexivity.
Qed.

(** The constructor writes the flags unless the template loop returns. *)
Lemma MSugar_new_cases (mm : list MAtom) (type_ : string) :
  match lookup_database sugar_database type_ with
  | Some i =>
      let buffer := ring_atoms (nth i sugar_database entry_null) in
      let '(ok, confcode, ring) := template_ring lookup mm buffer " " [] in
      if ok then new mm type_ = analyse true (Some i) confcode ring
      else new mm type_ = unsupported_early (Some i) confcode ring
  | None => new mm type_ = analyse false None " " (ringMembers mm)
  end.
Proof.
  unfold new, MSugar_new, analyse.
  destruct (lookup_database sugar_database type_) as [i|]; [|reflexivity].
  cbv zeta.
  destruct (template_ring lookup mm _ " " []) as [[ok confcode] ring].
  destruct ok; reflexivity.
Qed.

(** A sugar found in the database whose flags were written went through
    the sanity check with the reference entry. *)
Lemma MSugar_new_found (mm : list MAtom) (type_ : string) (i : nat) (d : diagnostics) :
  lookup_database sugar_database type_ = Some i ->
  sugar_diag (new mm type_) = Some d ->
  let s := new mm type_ in
  let ring := sugar_ring_elements s in
  let r := sanity_check true (nth i sugar_database entry_null) (List.length ring)
             (sugar_anomer s) (sugar_handedness s) (ring_closes ring)
             (ring_bond_rmsd ring) (ring_angle_rmsd ring) in
  sugar_sane s = fst r /\ d = snd r.
Proof.
  intros Hdb Hd.
  pose proof (MSugar_new_cases mm type_) as Hc. rewrite Hdb in Hc. cbv zeta in Hc.
  destruct (template_ring lookup mm _ " " []) as [[ok confcode] ring].
  destruct ok.
  - cbv zeta. rewrite Hc in *.
    destruct (analyse_ring_fields true (Some i) confcode ring)
      as (_ & _ & _ & Hring & Hsane & Hdiag).
    fold analyse in Hring, Hsane, Hdiag.
    rewrite Hring. rewrite Hdiag in Hd. injection Hd as Hd.
    split; [exact Hsane | symmetry; exact Hd].
  - rewrite Hc in Hd. discriminate Hd.
Qed.

(** C1, amended.  For a sugar found in the reference database, the anomer
    flag is true exactly when the computed anomer is "alpha" and the
    reference code is not "B", or the computed anomer is "beta" and the
    reference code is not "A". *)
Theorem anomer_flag_found (mm : list MAtom) (type_ : string) (i : nat) (d : diagnostics) :
  lookup_database sugar_database type_ = Some i ->
  sugar_diag (new mm type_) = Some d ->
  (sugar_diag_anomer d = true <->
     (sugar_anomer (new mm type_) = "alpha"
      /\ db_anomer (nth i sugar_database entry_null) <> "B")
     \/ (sugar_anomer (new mm type_) = "beta"
         /\ db_anomer (nth i sugar_database entry_null) <> "A")).
Proof.
  intros Hdb Hd.
  destruct (MSugar_new_found mm type_ i d Hdb Hd) as [_ Hd'].
  rewrite Hd'.
  match goal with
  | |- context [sanity_check true ?b ?c ?d ?e ?f ?g ?h] =>
      destruct (sanity_check_found b c d e f g h) as (_ & _ & Ha & _)
  end.
  rewrite Ha. apply diag_anomer_iff.
Qed.

(** C7.  For a sugar found in the reference database: with a ring of 5 the
    bond flag is [bond RMSD < 0.040] and the angle flag is
    [4.0 < angle RMSD < 7.5]; with a ring of 6 they are [bond RMSD < 0.035]
    and [angle RMSD < 4.0]; [sugar_sane] is true exactly when the five flags
    (ring closure, chirality, anomer, bonds, angles) are all true. *)
Theorem sanity_flags_found (mm : list MAtom) (type_ : string) (i : nat) (d : diagnostics) :
  lookup_database sugar_database type_ = Some i ->
  sugar_diag (new mm type_) = Some d ->
  let ring := sugar_ring_elements (new mm type_) in
  (List.length ring = 5%nat ->
     (sugar_diag_bonds_rmsd d = true <-> ring_bond_rmsd ring < 0.040)
     /\ (sugar_diag_angles_rmsd d = true <->
           4.0 < ring_angle_rmsd ring /\ ring_angle_rmsd ring < 7.5))
  /\ (List.length ring = 6%nat ->
        (sugar_diag_bonds_rmsd d = true <-> ring_bond_rmsd ring < 0.035)
        /\ (sugar_diag_angles_rmsd d = true <-> ring_angle_rmsd ring < 4.0))
  /\ (sugar_sane (new mm type_) = true <->
        sugar_diag_ring d = true /\ sugar_diag_chirality d = true
        /\ sugar_diag_anomer d = true /\ sugar_diag_bonds_rmsd d = true
        /\ sugar_diag_angles_rmsd d = true).
Proof.
  intros Hdb Hd ring.
  destruct (MSugar_new_found mm type_ i d Hdb Hd) as [Hsane Hd'].
  fold ring in Hsane, Hd'.
  match type of Hd' with
  | d = snd (sanity_check true ?b ?c ?e ?f ?g ?h ?k) =>
      destruct (sanity_check_found b c e f g h k) as (_ & _ & _ & Hb & Ha & Hs)
  end.
  rewrite <- Hd' in Hb, Ha, Hs. rewrite Hs in Hsane.
  split; [|split].
  - intros H5. rewrite Hb, Ha. split.
    + apply diag_bonds_rmsd_iff; assumption.
    + apply diag_angles_rmsd_iff; assumption.
  - intros H6. rewrite Hb, Ha.
    assert (Hn : List.length ring <> 5%nat) by lia. split.
    + apply diag_bonds_rmsd_iff; assumption.
    + apply diag_angles_rmsd_iff; assumption.
  - rewrite Hsane, !andb_true_iff. tauto.
Qed.

End ConstructorProperties.

(** The flags of a sugar, all false while they have not been written. *)
Definition flags_of (s : MSugar) : diagnostics :=
  match sugar_diag s with
  | Some d => d
  | None => mkDiag false false false false false
  end.

(** C1, counterexample.  "BGC" is found in the database with reference
    anomer "B" and the computed anomer is "alpha": the claim pairs alpha with
    "B" and calls for a true flag, the code gives false.  "GLC" has reference
    anomer "A" with the same computed "alpha": the claim calls for false, the
    code gives true. *)
Lemma anomer_flag_counterexample :
  (lookup_database sample_database "BGC" = Some 1%nat
   /\ db_anomer (nth 1 sample_database entry_null) = "B"
   /\ sugar_anomer (sample_new (fun _ => []) sample_pyranose "BGC") = "alpha"
   /\ option_map sugar_diag_anomer
        (sugar_diag (sample_new (fun _ => []) sample_pyranose "BGC")) = Some false)
  /\ (lookup_database sample_database "GLC" = Some 0%nat
      /\ db_anomer (nth 0 sample_database entry_null) = "A"
      /\ sugar_anomer (sample_new (fun _ => []) sample_pyranose "GLC") = "alpha"
      /\ option_map sugar_diag_anomer
           (sugar_diag (sample_new (fun _ => []) sample_pyranose "GLC")) = Some true).
Proof. repeat split; vm_compute; reflexivity. Qed.

Lemma anomer_flag_found_witness :
  sugar_diag_anomer (flags_of (sample_new (fun _ => []) sample_pyranose "GLC")) = true <->
  (sugar_anomer (sample_new (fun _ => []) sample_pyranose "GLC") = "alpha"
   /\ db_anomer (nth 0 sample_database entry_null) <> "B")
  \/ (sugar_anomer (sample_new (fun _ => []) sample_pyranose "GLC") = "beta"
      /\ db_anomer (nth 0 sample_database entry_null) <> "A").
Proof.
  apply (anomer_flag_found lookup_sample (fun _ => []) sample_cp sample_cp
           (fun _ => 0.03) (fun _ => 3.0) sample_database sample_pyranose "GLC" 0%nat).
  - vm_compute. reflexivity.
  - vm_compute. reflexivity.
Defined.

(** Spec example: a pyranose with bond RMSD 0.03 A and angle RMSD 3.0 degrees
    whose anomer, chirality and ring closure agree with the reference is
    sane. *)
Lemma sanity_flags_found_witness :
  (sugar_diag_bonds_rmsd (flags_of (sample_new (fun _ => []) sample_pyranose "GLC")) = true
   <-> 0.03 < 0.035)
  /\ (sugar_diag_angles_rmsd (flags_of (sample_new (fun _ => []) sample_pyranose "GLC")) = true
      <-> 3.0 < 4.0)
  /\ sugar_sane (sample_new (fun _ => []) sample_pyranose "GLC") = true.
Proof.
  destruct (sanity_flags_found lookup_sample (fun _ => []) sample_cp sample_cp
              (fun _ => 0.03) (fun _ => 3.0) sample_database sample_pyranose "GLC" 0%nat
              (flags_of (sample_new (fun _ => []) sample_pyranose "GLC")))
    as (_ & H6 & Hsane).
  - vm_compute. reflexivity.
  - vm_compute. reflexivity.
  - destruct H6 as [Hb Ha]; [vm_compute; reflexivity|].
    split; [exact Hb|]. split; [exact Ha|].
    apply Hsane. repeat split; vm_compute; reflexivity.
Defined.

(** *** The alternate-conformation code *)

Section AlternateConformation.

Variable lookup : list MAtom -> string -> MODE -> Z.

(** The template atom [b] is found at partial occupancy with a non-blank
    alternate-conformation code: the loop goes through the ":A" / ":B"
    lookups for it. *)
Definition needs_altconf (mm : list MAtom) (b : string) : bool :=
  let index_atom := lookup mm b ANY in
  negb (index_atom =? -1)%Z
  && Qltb (atom_occupancy (at_index mm (Z.to_nat index_atom))) 1.0
  && negb (Ascii.eqb (get_altconf (at_index mm (Z.to_nat index_atom))) " ").

(** Along the loop the code is left alone or becomes " :B"; when the loop
    runs to its end and an atom went through the lookups, it is " :B". *)
Lemma template_ring_confcode (mm : list MAtom) (buffer : list string) :
  forall (confcode : string) (ring : list MAtom),
    let r := template_ring lookup mm buffer confcode ring in
    (snd (fst r) = confcode \/ snd (fst r) = " :B")
    /\ (fst (fst r) = true -> existsb (needs_altconf mm) buffer = true ->
        snd (fst r) = " :B").
Proof.
  induction buffer as [|b rest IH]; intros confcode ring; cbv zeta.
  - simpl. split; [left; reflexivity | intros _ H; discriminate H].
  - simpl template_ring. simpl existsb. unfold needs_altconf at 1.
    destruct (lookup mm b ANY =? -1)%Z eqn:E0; simpl negb.
    { simpl. split; [left; reflexivity | intros H; discriminate H]. }
    destruct (Qltb (atom_occupancy (at_index mm (Z.to_nat (lookup mm b ANY)))) 1.0) eqn:E1;
      simpl andb.
    2: { apply IH. }
    destruct (Ascii.eqb (get_altconf (at_index mm (Z.to_nat (lookup mm b ANY)))) " ") eqn:E2;
      simpl negb; simpl orb.
    { apply IH. }
    destruct (lookup mm (b ++ " :A") UNIQUE =? -1)%Z eqn:EA.
    + destruct (lookup mm (b ++ " :B") UNIQUE =? -1)%Z eqn:EB.
      * simpl. split; [left; reflexivity | intros H; discriminate H].
      * destruct (IH " :B" (ring ++ [at_index mm (Z.to_nat (lookup mm (b ++ " :B") UNIQUE))])%list)
          as [[H|H] _]; split; auto.
    + rewrite EA.
      destruct (IH " :B" (ring ++ [at_index mm (Z.to_nat (lookup mm (b ++ " :A") UNIQUE))])%list)
        as [[H|H] _]; split; auto.
Qed.

Variable ringMembers : list MAtom -> list MAtom.
Variable cremerPople_furanose : list MAtom -> cremer_pople.
Variable cremerPople_pyranose : list MAtom -> cremer_pople.
Variable ring_bond_rmsd : list MAtom -> Q.
Variable ring_angle_rmsd : list MAtom -> Q.
Variable sugar_database : list sugar_database_entry.

Let new := MSugar_new lookup ringMembers cremerPople_furanose cremerPople_pyranose
             ring_bond_rmsd ring_angle_rmsd sugar_database.

(** C10.  The constructor never leaves " :A" as the alternate-conformation
    code: it ends as the initial " " or as " :B".  On the template path,
    when the loop over the ring template runs to its end and some ring atom
    with occupancy below 1.0 and a non-blank code was resolved through the
    ":A" / ":B" lookups, the stored code is " :B", whichever of the two
    lookups succeeded. *)
Theorem altconf_code_ends_B (mm : list MAtom) (type_ : string) :
  (sugar_alternate_confcode (new mm type_) = " "
   \/ sugar_alternate_confcode (new mm type_) = " :B")
  /\ (forall i : nat,
        lookup_database sugar_database type_ = Some i ->
        let buffer := ring_atoms (nth i sugar_database entry_null) in
        fst (fst (template_ring lookup mm buffer " " [])) = true ->
        existsb (needs_altconf mm) buffer = true ->
        sugar_alternate_confcode (new mm type_) = " :B").
Proof.
  pose proof (MSugar_new_cases lookup ringMembers cremerPople_furanose
                cremerPople_pyranose ring_bond_rmsd ring_angle_rmsd
                sugar_database mm type_) as Hc.
  fold new in Hc.
  destruct (lookup_database sugar_database type_) as [j|].
  - cbv zeta in Hc.
    pose proof (template_ring_confcode mm
                  (ring_atoms (nth j sugar_database entry_null)) " " []) as Ht.
    cbv zeta in Ht.
    assert (Hcc : sugar_alternate_confcode (new mm type_)
                  = snd (fst (template_ring lookup mm
                                (ring_atoms (nth j sugar_database entry_null)) " " []))).
    { destruct (template_ring lookup mm _ " " []) as [[ok confcode] ring].
      destruct ok; rewrite Hc.
      - apply (analyse_ring_fields cremerPople_furanose cremerPople_pyranose
                 ring_bond_rmsd ring_angle_rmsd sugar_database).
      - reflexivity. }
    rewrite Hcc. destruct Ht as [Hor Hb]. split; [exact Hor|].
    intros i Hi. injection Hi as Hi. subst i. cbv zeta.
    exact Hb.
  - rewrite Hc. split.
    + left.
      apply (analyse_ring_fields cremerPople_furanose cremerPople_pyranose
               ring_bond_rmsd ring_angle_rmsd sugar_database).
    + intros i Hi. discriminate Hi.
Qed.

End AlternateConformation.

(** In [sample_pyranose_alt] the atom C1 has occupancy 0.5 and code A; the
    ":A" lookup succeeds (index 1), and the recorded code is " :B". *)
Lemma altconf_code_ends_B_witness :
  lookup_sample sample_pyranose_alt "C1 :A" UNIQUE = 1%Z
  /\ sugar_alternate_confcode (sample_new (fun _ => []) sample_pyranose_alt "GLC") = " :B".
Proof.
  split; [vm_compute; reflexivity|].
  destruct (altconf_code_ends_B lookup_sample (fun _ => []) sample_cp sample_cp
              (fun _ => 0.03) (fun _ => 3.0) sample_database sample_pyranose_alt "GLC")
    as [_ H].
  apply (H 0%nat); vm_compute; reflexivity.
Defined.

(** ** Ring Finder: the cycle search *)

(** [MSugar::closes_ring]: some arc of [background] starts at an atom with
    the name of [ma]. *)
Fixpoint closes_ring (ma : MAtom) (background : visited_arcs) : bool :=
  match background with
  | [] => false
  | arc :: rest =>
      if atom_name (fst arc) =? atom_name ma then true else closes_ring ma rest
  end.

Definition is_empty (v : list MAtom) : bool :=
  match v with [] => true | _ => false end.

(** [std::vector::resize(n, MAtom())]. *)
Definition resize (n : nat) (v : list MAtom) : list MAtom :=
  (firstn n v ++ repeat MAtom_null (n - List.length v))%list.

(** [v.insert(v.begin() + k, a)]. *)
Definition insert_at (k : nat) (a : MAtom) (v : list MAtom) : list MAtom :=
  (firstn k v ++ a :: skipn k v)%list.

(** [clipper::String::split("C")[0]]: the characters from the first one that
    is not a [C] up to the next [C]. *)
Fixpoint skip_C (s : string) : string :=
  match s with
  | String c rest => if Ascii.eqb c "C" then skip_C rest else s
  | EmptyString => EmptyString
  end.

Fixpoint until_C (s : string) : string :=
  match s with
  | String c rest => if Ascii.eqb c "C" then EmptyString else String c (until_C rest)
  | EmptyString => EmptyString
  end.

(** [stream >> n] for an [int]: the leading decimal digits; 0 when there
    are none. *)
Fixpoint read_digits (s : string) (acc : Z) : Z :=
  match s with
  | String c rest =>
      let d := Z.of_nat (nat_of_ascii c) in
      if ((48 <=? d) && (d <=? 57))%Z then read_digits rest (10 * acc + (d - 48))%Z
      else acc
  | EmptyString => acc
  end.

(** The rank of a carbon, read from its name: 1 for "C1". *)
Definition carbon_rank (name : string) : Z := read_digits (until_C (skip_C name)) 0.

(** The [while] loop of [ringMembers] that looks for the position at which
    a new carbon is inserted; [fuel] bounds its iterations. *)
Fixpoint insert_position (origin destination : Z) (subindex : nat)
    (result : list MAtom) (fuel : nat) : nat :=
  match fuel with
  | O => subindex
  | S fuel' =>
      if ((origin >? destination)%Z && (subindex <? List.length result)%nat) then
        let subindex := S subindex in
        let destination :=
          if (subindex <? List.length result)%nat
          then carbon_rank (atom_name (at_index result subindex))
          else destination in
        insert_position origin destination subindex result fuel'
      else subindex
  end.

(** One turn of the second loop of [ringMembers]. *)
Definition place_carbon (result : list MAtom) (a : MAtom) : list MAtom :=
  if atom_element a =? "C" then
    if (1 <? List.length result)%nat then
      let origin := carbon_rank (atom_name a) in
      let destination := carbon_rank (atom_name (at_index result 1)) in
      let subindex := insert_position origin destination 1 result (List.length result) in
      insert_at subindex a result
    else (result ++ [a])%list
  else result.

(** The first [while] loop of [ringMembers]: the first position from [index]
    on whose atom has the name of [buffer[0]], the size of [buffer] when
    there is none. *)
Fixpoint first_repeat (buffer : list MAtom) (index : nat) (fuel : nat) : nat :=
  match fuel with
  | O => index
  | S fuel' =>
      if negb (atom_name (at_index buffer 0) =? atom_name (at_index buffer index))
         && (index <? List.length buffer)%nat
      then first_repeat buffer (S index) fuel'
      else index
  end.

Section RingSearch.

Variable lookup : list MAtom -> string -> MODE -> Z.

(** [MSugar::findPath].  [background] is passed by reference in the source:
    the function returns it next to the path.  [fuel] bounds the depth of
    the recursion; every call is preceded by a new arc in [background], and
    [findBonded] never returns a visited arc, so the depth is at most the
    number of pairs of atoms. *)
Fixpoint findPath (fuel : nat) (mm : list MAtom) (current_atom : Z)
    (background : visited_arcs) : list MAtom * visited_arcs :=
  match fuel with
  | O => ([], background)
  | S fuel' =>
      let here := at_index mm (Z.to_nat current_atom) in
      let available_paths := findBonded mm here background in
      match available_paths with
      | [] => ([], background)
      | _ :: _ =>
          (fix walk (paths result : list MAtom) (background : visited_arcs)
             {struct paths} : list MAtom * visited_arcs :=
             match paths with
             | [] =>
                 (if negb (is_empty result) then (result ++ [here])%list else result,
                  background)
             | p :: rest =>
                 let background := (background ++ [(here, p)])%list in
                 if closes_ring p background && is_empty result then
                   ([p; here], background)
                 else if negb (is_empty result) then
                   ((result ++ [here])%list, background)
                 else
                   let '(tmpResult, background) :=
                     findPath fuel' mm (lookup mm (atom_name p) ANY) background in
                   walk rest (result ++ tmpResult)%list background
             end) available_paths [] background
      end
  end.

(** [MSugar::ringMembers]: the path is cut down to the cycle, then rebuilt
    with the oxygen first and the carbons by ascending rank. *)
Definition ringMembers (mm : list MAtom) : list MAtom :=
  let fuel := S (List.length mm * List.length mm) in
  let buffer := fst (findPath fuel mm 0 []) in
  let index :=
    if (2 <? List.length buffer)%nat
    then first_repeat buffer 1 (List.length buffer)
    else 1%nat in
  let buffer := tl buffer in
  let buffer := resize index buffer in
  let result := filter (fun a => atom_element a =? "O") buffer in
  fold_left place_carbon buffer result.

End RingSearch.

(** The cycle search on the sample rings: the six ring atoms of
    [sample_pyranose], the four atoms of [sample_four_ring], oxygen first. *)
Example ringMembers_samples :
  ringMembers lookup_sample sample_pyranose = sample_pyranose
  /\ ringMembers lookup_sample sample_four_ring = sample_four_ring
  /\ map atom_name (fst (findPath lookup_sample 17 sample_four_ring 0 []))
     = ["O4"; "C3"; "C2"; "C1"; "O4"].
Proof. repeat split; vm_compute; reflexivity. Qed.

(** *** Rings of an unsupported size *)

Section UnsupportedRing.

Variable cremerPople_furanose : list MAtom -> cremer_pople.
Variable cremerPople_pyranose : list MAtom -> cremer_pople.
Variable ring_bond_rmsd : list MAtom -> Q.
Variable ring_angle_rmsd : list MAtom -> Q.
Variable sugar_database : list sugar_database_entry.

(** A ring of a size other than 5 or 6 is marked unsupported, with anomer
    and handedness "X"; the constructor then goes on: the denomination is
    composed over the sentinel and the flags are written. *)
Lemma analyse_ring_unsupported (found_db : bool) (idx : option nat)
    (confcode : string) (ring : list MAtom) :
  List.length ring <> 5%nat -> List.length ring <> 6%nat ->
  let s := analyse_ring cremerPople_furanose cremerPople_pyranose
             ring_bond_rmsd ring_angle_rmsd sugar_database
             found_db idx confcode ring in
  sugar_supported s = false /\ sugar_anomer s = "X" /\ sugar_handedness s = "X"
  /\ (sugar_denomination s = "X-X-aldopyranose"
      \/ sugar_denomination s = "X-X-ketopyranose")
  /\ sugar_diag s <> None.
Proof.
  intros H5 H6. unfold analyse_ring.
  apply Nat.eqb_neq in H5. apply Nat.eqb_neq in H6. rewrite H5, H6.
  cbv zeta.
  match goal with
  | |- context [sanity_check ?a ?b ?c ?d ?e ?f ?g ?h] =>
      destruct (sanity_check a b c d e f g h) as [sane diag]
  end.
  simpl.
  repeat split; try discriminate.
  destruct (index 0 "C1" (atom_name (at_index ring 1))); [left | right]; reflexivity.
Qed.

End UnsupportedRing.

(** The sibling path: when a template atom is missing the constructor
    returns at once and the sentinel stays. *)
Example unsupported_template_keeps_sentinel :
  sugar_denomination (sample_new (fun _ => []) sample_four_ring "GLC")
  = unsupported_denomination
  /\ sugar_diag (sample_new (fun _ => []) sample_four_ring "GLC") = None.
Proof. split; vm_compute; reflexivity. Qed.

(** C2.  The monomer [sample_four_ring] has no database entry and the cycle
    search yields its four atoms O4, C1, C2, C3.  The constructor marks the
    sugar unsupported with anomer and handedness "X", and then, with no
    [return] in that branch, replaces the sentinel denomination by
    "X-X-aldopyranose" and runs the ring examination and the sanity check. *)
Theorem unsupported_ring_denomination_overwritten :
  lookup_database sample_database "OXT" = None
  /\ List.length (sugar_ring_elements
                    (sample_new (ringMembers lookup_sample) sample_four_ring "OXT")) = 4%nat
  /\ sugar_supported (sample_new (ringMembers lookup_sample) sample_four_ring "OXT") = false
  /\ sugar_anomer (sample_new (ringMembers lookup_sample) sample_four_ring "OXT") = "X"
  /\ sugar_handedness (sample_new (ringMembers lookup_sample) sample_four_ring "OXT") = "X"
  /\ sugar_denomination (sample_new (ringMembers lookup_sample) sample_four_ring "OXT")
     = "X-X-aldopyranose"
  /\ sugar_denomination (sample_new (ringMembers lookup_sample) sample_four_ring "OXT")
     <> unsupported_denomination
  /\ sugar_diag (sample_new (ringMembers lookup_sample) sample_four_ring "OXT")
     = Some (mkDiag true false false false false).
Proof.
  repeat split; try (vm_compute; reflexivity).
  vm_compute. intros H. discriminate H.
Qed.

(** ** Further properties of the classifier, the database and the oracle *)


(** [lookup_database] finds the first entry with the given short name, and
    fails exactly when no entry has it. *)
Lemma lookup_database_from_Some (db : list sugar_database_entry) (name : string) :
  forall k i : nat,
    lookup_database_from db name k = Some i <->
    exists j : nat,
      i = (k + j)%nat /\ (j < List.length db)%nat
      /\ name_short (nth j db entry_null) = name
      /\ forall j' : nat, (j' < j)%nat -> name_short (nth j' db entry_null) <> name.
Proof.
  induction db as [|e rest IH]; intros k i; simpl.
  - split; [intros H; discriminate H | intros (j & _ & Hj & _); lia].
  - destruct (String.eqb_spec name (name_short e)) as [E|E].
    + split.
      * intros H. injection H as H. exists 0%nat.
        repeat split; [lia | lia | auto | intros j' Hj'; lia].
      * intros (j & Hi & Hj & Hn & Hfirst).
        destruct j as [|j]; [f_equal; lia|].
        exfalso. apply (Hfirst 0%nat); [lia | auto].
    + rewrite IH. split.
      * intros (j & Hi & Hj & Hn & Hfirst). exists (S j).
        repeat split; [lia | lia | exact Hn |].
        intros [|j'] Hj'; [simpl; auto | simpl; apply Hfirst; lia].
      * intros (j & Hi & Hj & Hn & Hfirst).
        destruct j as [|j]; [simpl in Hn; exfalso; auto|].
        exists j. repeat split; [lia | lia | exact Hn |].
        intros j' Hj'. apply (Hfirst (S j')). lia.
Qed.

Lemma lookup_database_from_None (db : list sugar_database_entry) (name : string) :
  forall k : nat,
    lookup_database_from db name k = None <->
    Forall (fun e => name_short e <> name) db.
Proof.
  induction db as [|e rest IH]; intros k; simpl.
  - split; auto.
  - destruct (String.eqb_spec name (name_short e)) as [E|E].
    + split; [intros H; discriminate H|].
      intros H. inversion H; subst. exfalso; auto.
    + rewrite IH. split.
      * intros H. constructor; auto.
      * intros H. inversion H; assumption.
Qed.

(** X3.  [lookup_database] returns the position of the first entry with the
    given short name: the position is inside the database, the entry there
    has the name and no earlier entry has it; it reports "not found" exactly
    when no entry has the name. *)
Theorem lookup_database_first_match (db : list sugar_database_entry)
    (name : string) (i : nat) :
  (lookup_database db name = Some i <->
     (i < List.length db)%nat
     /\ name_short (nth i db entry_null) = name
     /\ forall j : nat, (j < i)%nat -> name_short (nth j db entry_null) <> name)
  /\ (lookup_database db name = None <->
        Forall (fun e => name_short e <> name) db).
Proof.
  unfold lookup_database. split.
  - rewrite lookup_database_from_Some. split.
    + intros (j & Hi & H). simpl in Hi. subst j. exact H.
    + intros H. exists i. split; [reflexivity | exact H].
  - apply lookup_database_from_None.
Qed.

(** X4.  Whatever the two elements are, a pair the oracle accepts lies more than
    0.88 A and less than 1.8 A apart: no atom is bonded to an atom at its
    own position. *)
Theorem bonded_distance_bounds (a b : MAtom) :
  bonded a b = true ->
  0.88 * 0.88 < lengthsq (coord_orth a) (coord_orth b)
  /\ lengthsq (coord_orth a) (coord_orth b) < 1.8 * 1.8.
Proof.
  unfold bonded, dist_gt, dist_lt, length.
  set (d := lengthsq (coord_orth a) (coord_orth b)).
  intros Hb.
  repeat match type of Hb with
  | context [String.eqb ?x ?y] => destruct (String.eqb x y)
  end; try discriminate Hb.
  all: match type of Hb with
       | (if ?c then true else false) = true => destruct c eqn:Ec; [|discriminate Hb]
       end.
  all: apply andb_true_iff in Ec; destruct Ec as [Ec1 Ec2]; qcmp; split; lra.
Qed.

Lemma bonded_distance_bounds_witness :
  0.88 * 0.88 < lengthsq (coord_orth sample_C1) (coord_orth sample_O5)
  /\ lengthsq (coord_orth sample_C1) (coord_orth sample_O5) < 1.8 * 1.8.
Proof. apply bonded_distance_bounds. vm_compute. reflexivity. Defined.

(** *** Bookkeeping of the visited arcs *)

Lemma lookup_visited_sym (va : visited_arcs) (a b : MAtom) :
  lookup_visited va (a, b) = lookup_visited va (b, a).
Proof.
  induction va as [|arc rest IH]; simpl; [reflexivity|].
  rewrite IH.
  destruct (atom_name a =? atom_name (fst arc)); destruct (atom_name b =? atom_name (snd arc));
    destruct (atom_name a =? atom_name (snd arc)); destruct (atom_name b =? atom_name (fst arc));
    reflexivity.
Qed.

Lemma lookup_visited_app (va ext : visited_arcs) (p : MAtom * MAtom) :
  lookup_visited (va ++ ext)%list p = lookup_visited va p || lookup_visited ext p.
Proof.
  induction va as [|arc rest IH]; simpl; [reflexivity|].
  rewrite IH.
  destruct ((atom_name (fst p) =? atom_name (fst arc)) && (atom_name (snd p) =? atom_name (snd arc))
            || (atom_name (fst p) =? atom_name (snd arc)) && (atom_name (snd p) =? atom_name (fst arc)));
    reflexivity.
Qed.

(** An arc pushed on the history is visited from then on, in both
    directions, whatever is pushed after it. *)
Lemma lookup_visited_push (va ext : visited_arcs) (a b : MAtom) :
  lookup_visited (va ++ (a, b) :: ext)%list (a, b) = true
  /\ lookup_visited (va ++ (a, b) :: ext)%list (b, a) = true.
Proof.
  assert (H : lookup_visited (va ++ (a, b) :: ext)%list (a, b) = true).
  { rewrite lookup_visited_app. simpl. rewrite !String.eqb_refl. simpl.
    apply orb_true_r. }
  split; [exact H | rewrite lookup_visited_sym; exact H].
Qed.

(** X5.  Once the arc between [ma] and [x] is in the history, the neighbour
    search no longer offers [x] from [ma], nor [ma] from [x]. *)
Theorem findBonded_skips_visited (mm : list MAtom) (ma x : MAtom)
    (background : visited_arcs) :
  ~ In x (findBonded mm ma (background ++ [(ma, x)])%list)
  /\ ~ In ma (findBonded mm x (background ++ [(ma, x)])%list).
Proof.
  destruct (lookup_visited_push background [] ma x) as [H1 H2].
  split; intros H; apply findBonded_In in H; destruct H as [_ H];
    apply findBonded_keeps_iff in H; destruct H as (_ & _ & Hv & _); congruence.
Qed.

(** X6.  The neighbour search returns atoms of the monomer only, never the atom
    it starts from (nor any atom within 0.5 A of it), and never across a
    visited arc. *)
Theorem findBonded_sound (mm : list MAtom) (ma a : MAtom) (background : visited_arcs) :
  In a (findBonded mm ma background) ->
  In a mm /\ ~ coord_orth a = coord_orth ma
  /\ lookup_visited background (ma, a) = false
  /\ lookup_visited background (a, ma) = false.
Proof.
  intros H. apply findBonded_In in H. destruct H as [Hin H].
  apply findBonded_keeps_iff in H. destruct H as (Hlo & _ & Hv & _).
  split; [exact Hin|]. split.
  - intros Heq. rewrite Heq in Hlo. unfold lengthsq in Hlo.
    assert (Hz : (cx (coord_orth ma) - cx (coord_orth ma)) * (cx (coord_orth ma) - cx (coord_orth ma))
                 + (cy (coord_orth ma) - cy (coord_orth ma)) * (cy (coord_orth ma) - cy (coord_orth ma))
                 + (cz (coord_orth ma) - cz (coord_orth ma)) * (cz (coord_orth ma) - cz (coord_orth ma))
                 == 0) by ring.
    rewrite Hz in Hlo. lra.
  - split; [exact Hv | rewrite lookup_visited_sym; exact Hv].
Qed.

Lemma findBonded_sound_witness :
  In sample_O5 [sample_C1; sample_O5]
  /\ ~ coord_orth sample_O5 = coord_orth sample_C1
  /\ lookup_visited [] (sample_C1, sample_O5) = false
  /\ lookup_visited [] (sample_O5, sample_C1) = false.
Proof.
  apply (findBonded_sound [sample_C1; sample_O5] sample_C1 sample_O5 []).
  vm_compute. left. reflexivity.
Defined.

(** ** Further properties of the cycle search *)

(** The loop of [findPath] over the available paths, with the recursive call
    as a parameter. *)
Fixpoint findPath_walk (rec : Z -> visited_arcs -> list MAtom * visited_arcs)
    (lookup : list MAtom -> string -> MODE -> Z) (mm : list MAtom) (here : MAtom)
    (paths result : list MAtom) (background : visited_arcs)
  : list MAtom * visited_arcs :=
  match paths with
  | [] =>
      (if negb (is_empty result) then (result ++ [here])%list else result, background)
  | p :: rest =>
      let background := (background ++ [(here, p)])%list in
      if closes_ring p background && is_empty result then ([p; here], background)
      else if negb (is_empty result) then ((result ++ [here])%list, background)
      else
        let '(tmpResult, background) := rec (lookup mm (atom_name p) ANY) background in
        findPath_walk rec lookup mm here rest (result ++ tmpResult)%list background
  end.

Lemma findPath_walk_fix (rec : Z -> visited_arcs -> list MAtom * visited_arcs)
    (lookup : list MAtom -> string -> MODE -> Z) (mm : list MAtom) (here : MAtom) :
  forall (paths result : list MAtom) (background : visited_arcs),
    (fix walk (paths result : list MAtom) (background : visited_arcs)
       {struct paths} : list MAtom * visited_arcs :=
       match paths with
       | [] =>
           (if negb (is_empty result) then (result ++ [here])%list else result,
            background)
       | p :: rest =>
           let background := (background ++ [(here, p)])%list in
           if closes_ring p background && is_empty result then
             ([p; here], background)
           else if negb (is_empty result) then
             ((result ++ [here])%list, background)
           else
             let '(tmpResult, background) :=
               rec (lookup mm (atom_name p) ANY) background in
             walk rest (result ++ tmpResult)%list background
       end) paths result background
    = findPath_walk rec lookup mm here paths result background.
Proof.
  induction paths as [|q more IH]; intros result background.
  - reflexivity.
  - cbn [findPath_walk]. cbv zeta.
    destruct (closes_ring q (background ++ [(here, q)])%list && is_empty result);
      [reflexivity|].
    destruct (negb (is_empty result)); [reflexivity|].
    destruct (rec (lookup mm (atom_name q) ANY) (background ++ [(here, q)])%list)
      as [tmp bg'].
    apply IH.
Qed.

Lemma findPath_unfold (lookup : list MAtom -> string -> MODE -> Z) (fuel : nat)
    (mm : list MAtom) (current_atom : Z) (background : visited_arcs) :
  findPath lookup (S fuel) mm current_atom background
  = let here := at_index mm (Z.to_nat current_atom) in
    match findBonded mm here background with
    | [] => ([], background)
    | p :: rest =>
        findPath_walk (findPath lookup fuel mm) lookup mm here (p :: rest) [] background
    end.
Proof.
  cbv zeta.
  destruct (findBonded mm (at_index mm (Z.to_nat current_atom)) background)
    as [|p rest] eqn:E.
  - cbn [findPath]. rewrite E. reflexivity.
  - rewrite <- (findPath_walk_fix (findPath lookup fuel mm) lookup mm
                  (at_index mm (Z.to_nat current_atom))).
    cbn [findPath]. rewrite E. reflexivity.
Qed.

Lemma closes_ring_app (ma : MAtom) (bg ext : visited_arcs) :
  closes_ring ma (bg ++ ext)%list = closes_ring ma bg || closes_ring ma ext.
Proof.
  induction bg as [|arc rest IH]; simpl; [reflexivity|].
  destruct (atom_name (fst arc) =? atom_name ma); [reflexivity | exact IH].
Qed.

(** What a call of [findPath] leaves behind: the history it was given,
    extended; and a path that is empty or ends with the atom of the call and
    starts with an atom that closes a cycle (an arc of the history starts at
    an atom of that name). *)
Definition path_closes (here : MAtom) (background : visited_arcs)
    (r : list MAtom * visited_arcs) : Prop :=
  (exists ext : visited_arcs, snd r = (background ++ ext)%list)
  /\ (fst r = []
      \/ (last (fst r) MAtom_null = here
          /\ closes_ring (hd MAtom_null (fst r)) (snd r) = true
          /\ (2 <= List.length (fst r))%nat)).

Lemma findPath_walk_closes (rec : Z -> visited_arcs -> list MAtom * visited_arcs)
    (lookup : list MAtom -> string -> MODE -> Z) (mm : list MAtom) (here : MAtom) :
  (forall (i : Z) (b : visited_arcs),
      (exists ext : visited_arcs, snd (rec i b) = (b ++ ext)%list)
      /\ (fst (rec i b) = []
          \/ (closes_ring (hd MAtom_null (fst (rec i b))) (snd (rec i b)) = true
              /\ (1 <= List.length (fst (rec i b)))%nat))) ->
  forall (paths result : list MAtom) (background : visited_arcs),
    (result = []
     \/ (closes_ring (hd MAtom_null result) background = true
         /\ (1 <= List.length result)%nat)) ->
    path_closes here background
      (findPath_walk rec lookup mm here paths result background).
Proof.
  intros Hrec. induction paths as [|p rest IH]; intros result background Hres.
  - cbn [findPath_walk]. split; [exists []; simpl; rewrite app_nil_r; reflexivity|].
    destruct result as [|x xs]; simpl; [left; reflexivity|].
    right. destruct Hres as [Hres|[Hc Hl]]; [discriminate Hres|].
    split; [|split].
    + exact (last_last (x :: xs) here MAtom_null).
    + exact Hc.
    + rewrite length_app. simpl. lia.
  - cbn [findPath_walk]. cbv zeta.
    destruct (closes_ring p (background ++ [(here, p)])%list && is_empty result) eqn:E1.
    { split; [exists [(here, p)]; reflexivity|]. right.
      apply andb_true_iff in E1. destruct E1 as [E1 _].
      simpl. split; [reflexivity|]. split; [exact E1 | lia]. }
    destruct result as [|x xs]; cbn [is_empty negb].
    + destruct (Hrec (lookup mm (atom_name p) ANY) (background ++ [(here, p)])%list)
        as [[ext Hext] Htmp].
      destruct (rec (lookup mm (atom_name p) ANY) (background ++ [(here, p)])%list)
        as [tmp bg'] eqn:Er.
      simpl in Hext, Htmp. cbn [app].
      destruct (IH tmp bg' Htmp) as [[ext' Hext'] Hfin].
      split; [|exact Hfin].
      exists ([(here, p)] ++ ext ++ ext')%list.
      rewrite Hext', Hext. rewrite <- !app_assoc. reflexivity.
    + destruct Hres as [Hres|[Hc Hl]]; [discriminate Hres|].
      split; [exists [(here, p)]; reflexivity|]. right. cbn [fst snd].
      split; [|split].
      * exact (last_last (x :: xs) here MAtom_null).
      * simpl. simpl in Hc. rewrite closes_ring_app, Hc. reflexivity.
      * rewrite length_app. simpl. lia.
Qed.

(** X7.  [findPath] only ever appends to the history of visited arcs; the path
    it returns is empty, or it has at least two atoms, ends with the atom
    the call started from and begins with an atom that closes a cycle. *)
Theorem findPath_closes (lookup : list MAtom -> string -> MODE -> Z) (fuel : nat)
    (mm : list MAtom) :
  forall (current_atom : Z) (background : visited_arcs),
    path_closes (at_index mm (Z.to_nat current_atom)) background
      (findPath lookup fuel mm current_atom background).
Proof.
  induction fuel as [|fuel IH]; intros current_atom background.
  - simpl. split; [exists []; simpl; rewrite app_nil_r; reflexivity | left; reflexivity].
  - rewrite findPath_unfold. cbv zeta.
    destruct (findBonded mm (at_index mm (Z.to_nat current_atom)) background)
      as [|p rest].
    + split; [exists []; simpl; rewrite app_nil_r; reflexivity | left; reflexivity].
    + apply findPath_walk_closes; [|left; reflexivity].
      intros i b. destruct (IH i b) as [Hext Hp]. split; [exact Hext|].
      destruct Hp as [Hp|(_ & Hc & Hl)]; [left; exact Hp | right; split; [exact Hc | lia]].
Qed.

(** ** Further properties of the canonical order *)

(** The ring as [ringMembers] has it before reordering: the path of
    [findPath] without its first atom, cut at the repeated atom. *)
Definition ring_cycle (lookup : list MAtom -> string -> MODE -> Z) (mm : list MAtom)
  : list MAtom :=
  let fuel := S (List.length mm * List.length mm) in
  let buffer := fst (findPath lookup fuel mm 0 []) in
  let index :=
    if (2 <? List.length buffer)%nat
    then first_repeat buffer 1 (List.length buffer)
    else 1%nat in
  resize index (tl buffer).

(** The two reordering loops of [ringMembers]. *)
Definition canonical_order (buffer : list MAtom) : list MAtom :=
  fold_left place_carbon buffer (filter (fun a => atom_element a =? "O") buffer).

Lemma ringMembers_canonical (lookup : list MAtom -> string -> MODE -> Z) (mm : list MAtom) :
  ringMembers lookup mm = canonical_order (ring_cycle lookup mm).
Proof. reflexivity. Qed.

Definition is_C (a : MAtom) : bool := atom_element a =? "C".
Definition is_O (a : MAtom) : bool := atom_element a =? "O".
Definition rank (a : MAtom) : Z := carbon_rank (atom_name a).

(** Insertion in front of the first atom whose rank is not below the rank
    of [a]. *)
Fixpoint insert_sorted (a : MAtom) (cs : list MAtom) : list MAtom :=
  match cs with
  | [] => [a]
  | x :: rest =>
      if (rank a >? rank x)%Z then x :: insert_sorted a rest else a :: x :: rest
  end.

(** The number of leading atoms of [cs] with a rank below [origin]. *)
Fixpoint leading_below (origin : Z) (cs : list MAtom) : nat :=
  match cs with
  | [] => 0%nat
  | x :: rest => if (origin >? rank x)%Z then S (leading_below origin rest) else 0%nat
  end.

Lemma insert_position_end (origin destination : Z) (result : list MAtom) (fuel : nat) :
  forall subindex : nat,
    (List.length result <= subindex)%nat ->
    insert_position origin destination subindex result fuel = subindex.
Proof.
  destruct fuel as [|fuel]; intros subindex H; simpl; [reflexivity|].
  assert (E : (subindex <? List.length result)%nat = false) by (apply Nat.ltb_ge; lia).
  rewrite E, andb_false_r. reflexivity.
Qed.

(** The [while] loop stops at the first atom whose rank is not below
    [origin], or at the end of [result]. *)
Lemma insert_position_leading (origin : Z) (result : list MAtom) :
  forall (fuel subindex : nat),
    (subindex < List.length result)%nat ->
    (List.length result - subindex <= fuel)%nat ->
    insert_position origin (rank (at_index result subindex)) subindex result fuel
    = (subindex + leading_below origin (skipn subindex result))%nat.
Proof.
  unfold rank.
  induction fuel as [|fuel IH]; intros subindex Hlt Hfuel; [lia|].
  cbn [insert_position].
  assert (E : (subindex <? List.length result)%nat = true) by (apply Nat.ltb_lt; lia).
  rewrite E, andb_true_r.
  assert (Hskip : skipn subindex result
                  = at_index result subindex :: skipn (S subindex) result).
  { unfold at_index. clear - Hlt. revert subindex Hlt.
    induction result as [|x xs IHr]; intros [|s] H; simpl in *; try lia.
    - reflexivity.
    - apply IHr. lia. }
  rewrite Hskip. cbn [leading_below]. unfold rank.
  destruct (origin >? carbon_rank (atom_name (at_index result subindex)))%Z; [|lia].
  destruct (Nat.ltb_spec (S subindex) (List.length result)) as [H|H].
  - rewrite IH by lia. lia.
  - rewrite insert_position_end by lia.
    rewrite skipn_all2 by lia. simpl. lia.
Qed.

Lemma insert_at_leading (a : MAtom) (cs : list MAtom) :
  insert_at (leading_below (rank a) cs) a cs = insert_sorted a cs.
Proof.
  unfold insert_at. induction cs as [|x rest IH]; simpl; [reflexivity|].
  destruct (rank a >? rank x)%Z; simpl; [f_equal; exact IH | reflexivity].
Qed.

(** A carbon goes behind the atom at position 0, in front of the first
    later atom whose rank is not below its own; any other atom is dropped. *)
Lemma place_carbon_cons (x0 : MAtom) (cs : list MAtom) (a : MAtom) :
  place_carbon (x0 :: cs) a = if is_C a then x0 :: insert_sorted a cs else x0 :: cs.
Proof.
  unfold place_carbon, is_C. destruct (atom_element a =? "C"); [|reflexivity].
  destruct cs as [|c cs']; [reflexivity|].
  cbn [List.length Nat.ltb Nat.leb].
  change (carbon_rank (atom_name (at_index (x0 :: c :: cs') 1)))
    with (rank (at_index (x0 :: c :: cs') 1)).
  change (carbon_rank (atom_name a)) with (rank a).
  rewrite insert_position_leading by (simpl; lia).
  cbn [skipn Nat.add]. unfold insert_at. cbn [firstn skipn app].
  f_equal. apply insert_at_leading.
Qed.

Lemma place_carbon_nil (a : MAtom) :
  place_carbon [] a = if is_C a then [a] else [].
Proof. unfold place_carbon, is_C. destruct (atom_element a =? "C"); reflexivity. Qed.

Lemma insert_sorted_perm (a : MAtom) (cs : list MAtom) :
  Permutation (insert_sorted a cs) (a :: cs).
Proof.
  induction cs as [|x rest IH]; simpl; [apply Permutation_refl|].
  destruct (rank a >? rank x)%Z; [|apply Permutation_refl].
  apply perm_trans with (x :: a :: rest); [apply perm_skip; exact IH | apply perm_swap].
Qed.

Lemma place_carbon_perm (result : list MAtom) (a : MAtom) :
  Permutation (place_carbon result a) (if is_C a then a :: result else result).
Proof.
  destruct result as [|x0 cs].
  - rewrite place_carbon_nil. destruct (is_C a); apply Permutation_refl.
  - rewrite place_carbon_cons. destruct (is_C a); [|apply Permutation_refl].
    apply perm_trans with (x0 :: a :: cs);
      [apply perm_skip; apply insert_sorted_perm | apply perm_swap].
Qed.

Lemma fold_place_carbon_perm (buffer : list MAtom) :
  forall result : list MAtom,
    Permutation (fold_left place_carbon buffer result) (result ++ filter is_C buffer).
Proof.
  induction buffer as [|a rest IH]; intros result; simpl.
  - rewrite app_nil_r. apply Permutation_refl.
  - eapply perm_trans; [apply IH|].
    pose proof (place_carbon_perm result a) as Hp.
    destruct (is_C a).
    + apply perm_trans with ((a :: result) ++ filter is_C rest)%list.
      * apply Permutation_app_tail. exact Hp.
      * simpl. apply Permutation_middle.
    + apply Permutation_app_tail. exact Hp.
Qed.

(** X8.  The reordering keeps exactly the oxygens and the carbons of the cycle,
    each as often as it occurs; atoms of any other element are dropped. *)
Theorem ringMembers_keeps_O_and_C (lookup : list MAtom -> string -> MODE -> Z)
    (mm : list MAtom) :
  Permutation (ringMembers lookup mm)
              (filter is_O (ring_cycle lookup mm) ++ filter is_C (ring_cycle lookup mm))
  /\ Forall (fun a => atom_element a = "O" \/ atom_element a = "C")
            (ringMembers lookup mm).
Proof.
  rewrite ringMembers_canonical.
  assert (Hp : Permutation (canonical_order (ring_cycle lookup mm))
                 (filter is_O (ring_cycle lookup mm)
                  ++ filter is_C (ring_cycle lookup mm))%list).
  { unfold canonical_order. apply fold_place_carbon_perm. }
  split; [exact Hp|].
  apply Forall_forall. intros a Ha.
  apply (Permutation_in _ Hp) in Ha. apply in_app_or in Ha.
  destruct Ha as [Ha|Ha]; apply filter_In in Ha; destruct Ha as [_ Ha];
    apply String.eqb_eq in Ha; auto.
Qed.

Definition rank_le (a b : MAtom) : Prop := (rank a <= rank b)%Z.
Definition rank_lt (a b : MAtom) : Prop := (rank a < rank b)%Z.

Lemma insert_sorted_sorted (a : MAtom) (cs : list MAtom) :
  StronglySorted rank_le cs -> StronglySorted rank_le (insert_sorted a cs).
Proof.
  induction 1 as [|x rest Hs IH Hall]; simpl.
  - constructor; constructor.
  - destruct (rank a >? rank x)%Z eqn:E.
    + constructor; [exact IH|].
      apply (Permutation_Forall (Permutation_sym (insert_sorted_perm a rest))).
      constructor; [unfold rank_le; lia | exact Hall].
    + constructor; [constructor; assumption|].
      constructor; [unfold rank_le; lia|].
      eapply Forall_impl; [|exact Hall].
      intros y Hy. unfold rank_le in *. lia.
Qed.

Lemma fold_place_carbon_sorted (buffer : list MAtom) (x0 : MAtom) :
  forall cs : list MAtom,
    StronglySorted rank_le cs ->
    exists cs' : list MAtom,
      fold_left place_carbon buffer (x0 :: cs) = x0 :: cs'
      /\ StronglySorted rank_le cs'.
Proof.
  induction buffer as [|a rest IH]; intros cs Hs; simpl.
  - exists cs. split; [reflexivity | exact Hs].
  - rewrite place_carbon_cons. destruct (is_C a).
    + apply IH. apply insert_sorted_sorted. exact Hs.
    + apply IH. exact Hs.
Qed.

(** X9.  With an oxygen in the cycle, [ringMembers] returns the first oxygen at
    position 0 and behind it the carbons in ascending order of rank (after
    any further oxygens, if these are in ascending order). *)
Theorem ringMembers_sorted (lookup : list MAtom -> string -> MODE -> Z)
    (mm : list MAtom) (o : MAtom) (os : list MAtom) :
  filter is_O (ring_cycle lookup mm) = o :: os ->
  StronglySorted rank_le os ->
  exists cs : list MAtom,
    ringMembers lookup mm = o :: cs
    /\ StronglySorted rank_le cs
    /\ Permutation cs (os ++ filter is_C (ring_cycle lookup mm)).
Proof.
  intros Ho Hos. rewrite ringMembers_canonical.
  pose proof (fold_place_carbon_perm (ring_cycle lookup mm)
                (filter is_O (ring_cycle lookup mm))) as Hp.
  unfold canonical_order. fold is_O.
  rewrite Ho in Hp |- *.
  destruct (fold_place_carbon_sorted (ring_cycle lookup mm) o os Hos) as (cs & Hcs & Hs).
  exists cs. rewrite Hcs in Hp |- *.
  split; [reflexivity|]. split; [exact Hs|].
  simpl in Hp. apply Permutation_cons_inv in Hp. exact Hp.
Qed.

Lemma ringMembers_sorted_witness :
  exists cs : list MAtom,
    ringMembers lookup_sample sample_pyranose = atom_xy "O5" "O" 1.4 0 :: cs
    /\ StronglySorted rank_le cs
    /\ Permutation cs ([] ++ filter is_C (ring_cycle lookup_sample sample_pyranose)).
Proof.
  apply (ringMembers_sorted lookup_sample sample_pyranose (atom_xy "O5" "O" 1.4 0) []).
  - vm_compute. reflexivity.
  - constructor.
Defined.

(** *** Reordering a ring that is in order already *)

Lemma insert_sorted_last (c : MAtom) (pre : list MAtom) :
  Forall (fun x => rank_lt x c) pre -> insert_sorted c pre = (pre ++ [c])%list.
Proof.
  induction 1 as [|x rest Hx _ IH]; simpl; [reflexivity|].
  unfold rank_lt in Hx.
  destruct (rank c >? rank x)%Z eqn:E; [f_equal; exact IH | lia].
Qed.

Lemma fold_place_carbon_ascending (o : MAtom) (cs : list MAtom) :
  forall pre : list MAtom,
    Forall (fun x => Forall (rank_lt x) cs) pre ->
    StronglySorted rank_lt cs ->
    forallb is_C cs = true ->
    fold_left place_carbon cs (o :: pre) = (o :: pre ++ cs)%list.
Proof.
  induction cs as [|c rest IH]; intros pre Hpre Hs Hc; simpl.
  - rewrite app_nil_r. reflexivity.
  - simpl in Hc. apply andb_true_iff in Hc. destruct Hc as [Hc Hrest].
    rewrite place_carbon_cons, Hc.
    rewrite insert_sorted_last.
    + rewrite IH.
      * rewrite <- app_assoc. reflexivity.
      * apply Forall_app. split.
        -- eapply Forall_impl; [|exact Hpre].
           intros x Hx. inversion Hx; assumption.
        -- constructor; [|constructor]. inversion Hs; assumption.
      * inversion Hs; assumption.
      * exact Hrest.
    + eapply Forall_impl; [|exact Hpre].
      intros x Hx. inversion Hx; assumption.
Qed.

(** A ring in canonical order (an oxygen, then carbons of strictly
    ascending rank) comes out of the reordering unchanged. *)
Lemma canonical_order_fixpoint (o : MAtom) (cs : list MAtom) :
  is_O o = true -> forallb is_C cs = true -> StronglySorted rank_lt cs ->
  canonical_order (o :: cs) = o :: cs.
Proof.
  intros Ho Hc Hs. unfold canonical_order. fold is_O.
  assert (HfO : filter is_O cs = []).
  { clear Hs. induction cs as [|c rest IH]; simpl; [reflexivity|].
    simpl in Hc. apply andb_true_iff in Hc. destruct Hc as [Hc Hrest].
    unfold is_C in Hc. apply String.eqb_eq in Hc.
    unfold is_O at 1. rewrite Hc. simpl. apply IH. exact Hrest. }
  cbn [filter fold_left]. rewrite Ho, HfO.
  rewrite place_carbon_cons.
  assert (HoC : is_C o = false).
  { unfold is_O in Ho. apply String.eqb_eq in Ho. unfold is_C. rewrite Ho. reflexivity. }
  rewrite HoC.
  apply (fold_place_carbon_ascending o cs []); [constructor | exact Hs | exact Hc].
Qed.

Lemma sorted_nodup_strict (cs : list MAtom) :
  StronglySorted rank_le cs -> NoDup (map rank cs) -> StronglySorted rank_lt cs.
Proof.
  induction 1 as [|x rest Hs IH Hall]; intros Hnd; [constructor|].
  simpl in Hnd. inversion Hnd as [|r rs Hnotin Hnd']; subst.
  constructor; [apply IH; exact Hnd'|].
  apply Forall_forall. intros y Hy.
  rewrite Forall_forall in Hall. specialize (Hall y Hy).
  unfold rank_le in Hall. unfold rank_lt.
  assert (rank x <> rank y).
  { intros Heq. apply Hnotin. rewrite Heq. apply in_map. exact Hy. }
  lia.
Qed.

(** X10.  Reordering is idempotent on a cycle with one oxygen whose carbons have
    pairwise different ranks. *)
Theorem canonical_order_idempotent (buffer : list MAtom) (o : MAtom) :
  filter is_O buffer = [o] ->
  NoDup (map rank (filter is_C buffer)) ->
  canonical_order (canonical_order buffer) = canonical_order buffer.
Proof.
  intros Ho Hnd.
  pose proof (fold_place_carbon_perm buffer (filter is_O buffer)) as Hp.
  destruct (fold_place_carbon_sorted buffer o [] (SSorted_nil rank_le)) as (cs & Hcs & Hs).
  assert (Hcan : canonical_order buffer = o :: cs).
  { unfold canonical_order. fold is_O. rewrite Ho. exact Hcs. }
  rewrite Ho, Hcs in Hp. simpl in Hp. apply Permutation_cons_inv in Hp.
  rewrite Hcan. apply canonical_order_fixpoint.
  - assert (Hin : In o (filter is_O buffer)) by (rewrite Ho; left; reflexivity).
    apply filter_In in Hin. apply Hin.
  - apply forallb_forall. intros c Hcin.
    apply (Permutation_in _ Hp) in Hcin. apply filter_In in Hcin. apply Hcin.
  - apply sorted_nodup_strict; [exact Hs|].
    apply (Permutation_NoDup (Permutation_sym (Permutation_map rank Hp))). exact Hnd.
Qed.

(** The path [findPath] returns for [sample_pyranose], without its first
    atom: C5, C4, C3, C2, C1, O5. *)
Lemma canonical_order_idempotent_witness :
  canonical_order (canonical_order (ring_cycle lookup_sample sample_pyranose))
  = canonical_order (ring_cycle lookup_sample sample_pyranose).
Proof.
  apply (canonical_order_idempotent (ring_cycle lookup_sample sample_pyranose)
           (atom_xy "O5" "O" 1.4 0)).
  - vm_compute. reflexivity.
  - assert (E : map rank (filter is_C (ring_cycle lookup_sample sample_pyranose))
                = [5; 4; 3; 2; 1]%Z) by (vm_compute; reflexivity).
    rewrite E. repeat (constructor; [simpl; intuition discriminate|]). constructor.
Defined.

(** ** Further properties of the constructor *)

Section ConstructorOutcomes.

Variable lookup : list MAtom -> string -> MODE -> Z.
Variable ringMembers' : list MAtom -> list MAtom.
Variable cremerPople_furanose : list MAtom -> cremer_pople.
Variable cremerPople_pyranose : list MAtom -> cremer_pople.
Variable ring_bond_rmsd : list MAtom -> Q.
Variable ring_angle_rmsd : list MAtom -> Q.
Variable sugar_database : list sugar_database_entry.

Let analyse := analyse_ring cremerPople_furanose cremerPople_pyranose
                 ring_bond_rmsd ring_angle_rmsd sugar_database.
Let new := MSugar_new lookup ringMembers' cremerPople_furanose cremerPople_pyranose
             ring_bond_rmsd ring_angle_rmsd sugar_database.

(** The loop over the ring template stops at the first name it cannot find:
    a template with a missing atom never runs to its end. *)
Lemma template_ring_missing (mm : list MAtom) (buffer : list string) :
  forall (confcode : string) (ring : list MAtom),
    (exists b : string, In b buffer /\ lookup mm b ANY = (-1)%Z) ->
    fst (fst (template_ring lookup mm buffer confcode ring)) = false.
Proof.
  induction buffer as [|b0 rest IH]; intros confcode ring (b & Hin & Hb).
  - contradiction.
  - simpl template_ring.
    destruct (lookup mm b0 ANY =? -1)%Z eqn:E0; [reflexivity|].
    assert (Hrest : exists b : string, In b rest /\ lookup mm b ANY = (-1)%Z).
    { destruct Hin as [Hin|Hin]; [|exists b; auto].
      subst b0. rewrite Hb in E0. discriminate E0. }
    destruct (Qltb _ 1.0); [|apply IH; exact Hrest].
    destruct (negb _); [|apply IH; exact Hrest].
    destruct (lookup mm (b0 ++ " :A") UNIQUE =? -1)%Z.
    + destruct (lookup mm (b0 ++ " :B") UNIQUE =? -1)%Z; [reflexivity|].
      apply IH; exact Hrest.
    + destruct (lookup mm (b0 ++ " :A") UNIQUE =? -1)%Z; [reflexivity|].
      apply IH; exact Hrest.
Qed.

(** X11.  A sugar of the database with a ring-template atom missing from the
    monomer is left unsupported at the first [return]: the denomination is
    the sentinel, anomer and handedness are "X", and neither the
    conformation nor the diagnostic flags are written. *)
Theorem missing_template_atom_unsupported (mm : list MAtom) (type_ : string)
    (i : nat) (b : string) :
  lookup_database sugar_database type_ = Some i ->
  In b (ring_atoms (nth i sugar_database entry_null)) ->
  lookup mm b ANY = (-1)%Z ->
  sugar_supported (new mm type_) = false
  /\ sugar_sane (new mm type_) = false
  /\ sugar_denomination (new mm type_) = unsupported_denomination
  /\ sugar_anomer (new mm type_) = "X"
  /\ sugar_handedness (new mm type_) = "X"
  /\ sugar_conformation (new mm type_) = None
  /\ sugar_diag (new mm type_) = None.
Proof.
  intros Hdb Hin Hb.
  pose proof (MSugar_new_cases lookup ringMembers' cremerPople_furanose
                cremerPople_pyranose ring_bond_rmsd ring_angle_rmsd
                sugar_database mm type_) as Hc.
  fold new in Hc. rewrite Hdb in Hc. cbv zeta in Hc.
  pose proof (template_ring_missing mm (ring_atoms (nth i sugar_database entry_null))
                " " [] (ex_intro _ b (conj Hin Hb))) as Hf.
  destruct (template_ring lookup mm _ " " []) as [[ok confcode] ring].
  simpl in Hf. subst ok. rewrite Hc. repeat split; reflexivity.
Qed.

(** The fields the ring size decides. *)
Lemma analyse_ring_supported (found_db : bool) (idx : option nat) (confcode : string)
    (ring : list MAtom) :
  let s := analyse found_db idx confcode ring in
  (List.length ring = 5%nat ->
     sugar_supported s = true
     /\ sugar_anomer s = cp_anomer (cremerPople_furanose ring)
     /\ sugar_handedness s = cp_handedness (cremerPople_furanose ring)
     /\ sugar_conformation s
        = Some (conformationFuranose (nth 2 (cp_params (cremerPople_furanose ring)) 0)))
  /\ (List.length ring = 6%nat ->
        sugar_supported s = true
        /\ sugar_anomer s = cp_anomer (cremerPople_pyranose ring)
        /\ sugar_handedness s = cp_handedness (cremerPople_pyranose ring)
        /\ sugar_conformation s
           = Some (conformationPyranose
                     (nth 1 (cp_params (cremerPople_pyranose ring)) 0)
                     (nth 2 (cp_params (cremerPople_pyranose ring)) 0))).
Proof.
  unfold analyse, analyse_ring. split; intros H; rewrite H;
    cbn [Nat.eqb]; cbv beta iota zeta;
    match goal with
    | |- context [sanity_check ?a ?b ?c ?d ?e ?f ?g ?h] =>
        destruct (sanity_check a b c d e f g h) as [sane diag]
    end; simpl; repeat split; reflexivity.
Qed.

(** X12.  [sugar_sane] is out of reach of everything the constructor gives up on:
    a sane sugar was found in the database, has a ring of 5 or 6 atoms that
    closes, is marked supported and has anomer "alpha" or "beta". *)
Theorem sane_implies_supported (mm : list MAtom) (type_ : string) :
  sugar_sane (new mm type_) = true ->
  sugar_found_db (new mm type_) = true
  /\ sugar_supported (new mm type_) = true
  /\ (List.length (sugar_ring_elements (new mm type_)) = 5%nat
      \/ List.length (sugar_ring_elements (new mm type_)) = 6%nat)
  /\ ring_closes (sugar_ring_elements (new mm type_)) = true
  /\ (sugar_anomer (new mm type_) = "alpha" \/ sugar_anomer (new mm type_) = "beta").
Proof.
  intros Hsane.
  pose proof (MSugar_new_cases lookup ringMembers' cremerPople_furanose
                cremerPople_pyranose ring_bond_rmsd ring_angle_rmsd
                sugar_database mm type_) as Hc.
  fold new analyse in Hc.
  destruct (lookup_database sugar_database type_) as [i|].
  - cbv zeta in Hc.
    destruct (template_ring lookup mm _ " " []) as [[ok confcode] ring].
    destruct ok; [|rewrite Hc in Hsane; discriminate Hsane].
    rewrite Hc in *.
    destruct (analyse_ring_fields cremerPople_furanose cremerPople_pyranose
                ring_bond_rmsd ring_angle_rmsd sugar_database true (Some i) confcode ring)
      as (Hfound & _ & _ & Hring & Hs & _).
    fold analyse in Hfound, Hring, Hs.
    rewrite Hs in Hsane.
    match type of Hsane with
    | fst (sanity_check true ?b ?c ?d ?e ?f ?g ?h) = true =>
        destruct (sanity_check_found b c d e f g h) as (Hr & _ & Ha & _ & _ & Hall)
    end.
    rewrite Hall in Hsane. rewrite !andb_true_iff in Hsane.
    destruct Hsane as ((((_ & _) & Hanom) & _) & Hclose).
    rewrite Ha in Hanom. apply diag_anomer_iff in Hanom.
    rewrite Hr in Hclose.
    assert (Hsize : List.length ring = 5%nat \/ List.length ring = 6%nat).
    { destruct (Nat.eq_dec (List.length ring) 5) as [H5|H5]; [left; exact H5|].
      destruct (Nat.eq_dec (List.length ring) 6) as [H6|H6]; [right; exact H6|].
      exfalso.
      destruct (analyse_ring_unsupported cremerPople_furanose cremerPople_pyranose
                  ring_bond_rmsd ring_angle_rmsd sugar_database true (Some i)
                  confcode ring H5 H6) as (_ & HX & _).
      fold analyse in HX. rewrite HX in Hanom.
      destruct Hanom as [[H _]|[H _]]; discriminate H. }
    rewrite Hring. split; [exact Hfound|]. split.
    + destruct (analyse_ring_supported true (Some i) confcode ring) as [H5 H6].
      destruct Hsize as [H|H]; [apply H5 | apply H6]; exact H.
    + split; [exact Hsize|]. split; [exact Hclose|].
      destruct Hanom as [[H _]|[H _]]; auto.
  - rewrite Hc in Hsane.
    destruct (analyse_ring_fields cremerPople_furanose cremerPople_pyranose
                ring_bond_rmsd ring_angle_rmsd sugar_database false None " "
                (ringMembers' mm)) as (_ & _ & _ & _ & Hs & _).
    fold analyse in Hs. rewrite Hs in Hsane.
    match type of Hsane with
    | fst (sanity_check false ?b ?c ?d ?e ?f ?g ?h) = true =>
        destruct (sanity_check_not_found b c d e f g h) as (Hf & _)
    end.
    rewrite Hf in Hsane. discriminate Hsane.
Qed.

(** X13.  For a sugar found in the database the chirality flag is false exactly
    when computed and reference handedness are "D" and "L" the opposite way
    round; every other pair, "N" or an unspecified reference included,
    passes. *)
Theorem chirality_flag_found (mm : list MAtom) (type_ : string) (i : nat) (d : diagnostics) :
  lookup_database sugar_database type_ = Some i ->
  sugar_diag (new mm type_) = Some d ->
  (sugar_diag_chirality d = false <->
     (sugar_handedness (new mm type_) = "D"
      /\ db_handedness (nth i sugar_database entry_null) = "L")
     \/ (sugar_handedness (new mm type_) = "L"
         /\ db_handedness (nth i sugar_database entry_null) = "D")).
Proof.
  intros Hdb Hd.
  destruct (MSugar_new_found lookup ringMembers' cremerPople_furanose
              cremerPople_pyranose ring_bond_rmsd ring_angle_rmsd
              sugar_database mm type_ i d Hdb Hd) as [_ Hd'].
  fold new in Hd'. rewrite Hd'.
  match goal with
  | |- context [sanity_check true ?b ?c ?d ?e ?f ?g ?h] =>
      destruct (sanity_check_found b c d e f g h) as (_ & Hch & _)
  end.
  rewrite Hch. unfold diag_chirality. rewrite if_bool_id.
  set (h := sugar_handedness (new mm type_)).
  set (r := db_handedness (nth i sugar_database entry_null)).
  destruct (String.eqb_spec h "D") as [H1|H1]; destruct (String.eqb_spec r "D") as [H2|H2];
    destruct (String.eqb_spec h "L") as [H3|H3]; destruct (String.eqb_spec r "L") as [H4|H4];
    simpl; split; intros H; try discriminate H; try reflexivity; try congruence; auto;
    try (destruct H as [[Ha Hb]|[Ha Hb]]; congruence).
Qed.

(** X14.  A sugar that is not in the database takes its ring from the cycle
    search, and whatever the geometry it is not sane: the chirality, anomer,
    bond and angle flags are false; only the ring-closure flag reports the
    ring. *)
Theorem not_in_database_not_sane (mm : list MAtom) (type_ : string) :
  lookup_database sugar_database type_ = None ->
  sugar_found_db (new mm type_) = false
  /\ sugar_ring_elements (new mm type_) = ringMembers' mm
  /\ sugar_sane (new mm type_) = false
  /\ sugar_diag (new mm type_)
     = Some (mkDiag (ring_closes (ringMembers' mm)) false false false false).
Proof.
  intros Hdb.
  pose proof (MSugar_new_cases lookup ringMembers' cremerPople_furanose
                cremerPople_pyranose ring_bond_rmsd ring_angle_rmsd
                sugar_database mm type_) as Hc.
  fold new analyse in Hc. rewrite Hdb in Hc. rewrite Hc.
  destruct (analyse_ring_fields cremerPople_furanose cremerPople_pyranose
              ring_bond_rmsd ring_angle_rmsd sugar_database false None " "
              (ringMembers' mm)) as (Hf & _ & _ & Hr & Hs & Hd).
  fold analyse in Hf, Hr, Hs, Hd.
  rewrite Hf, Hr, Hs, Hd.
  unfold sanity_check; simpl. rewrite if_bool_id. repeat split; reflexivity.
Qed.

End ConstructorOutcomes.

Lemma missing_template_atom_unsupported_witness :
  sugar_supported (sample_new (fun _ => []) sample_four_ring "GLC") = false
  /\ sugar_sane (sample_new (fun _ => []) sample_four_ring "GLC") = false
  /\ sugar_denomination (sample_new (fun _ => []) sample_four_ring "GLC")
     = unsupported_denomination
  /\ sugar_anomer (sample_new (fun _ => []) sample_four_ring "GLC") = "X"
  /\ sugar_handedness (sample_new (fun _ => []) sample_four_ring "GLC") = "X"
  /\ sugar_conformation (sample_new (fun _ => []) sample_four_ring "GLC") = None
  /\ sugar_diag (sample_new (fun _ => []) sample_four_ring "GLC") = None.
Proof.
  apply (missing_template_atom_unsupported lookup_sample (fun _ => []) sample_cp sample_cp
           (fun _ => 0.03) (fun _ => 3.0) sample_database sample_four_ring "GLC"
           0%nat "O5").
  - reflexivity.
  - simpl. left. reflexivity.
  - vm_compute. reflexivity.
Defined.

Lemma sane_implies_supported_witness :
  sugar_found_db (sample_new (fun _ => []) sample_pyranose "GLC") = true
  /\ sugar_supported (sample_new (fun _ => []) sample_pyranose "GLC") = true
  /\ (List.length (sugar_ring_elements (sample_new (fun _ => []) sample_pyranose "GLC")) = 5%nat
      \/ List.length (sugar_ring_elements (sample_new (fun _ => []) sample_pyranose "GLC")) = 6%nat)
  /\ ring_closes (sugar_ring_elements (sample_new (fun _ => []) sample_pyranose "GLC")) = true
  /\ (sugar_anomer (sample_new (fun _ => []) sample_pyranose "GLC") = "alpha"
      \/ sugar_anomer (sample_new (fun _ => []) sample_pyranose "GLC") = "beta").
Proof.
  apply (sane_implies_supported lookup_sample (fun _ => []) sample_cp sample_cp
           (fun _ => 0.03) (fun _ => 3.0) sample_database sample_pyranose "GLC").
  vm_compute. reflexivity.
Defined.

(** A computed "L" against the reference "D" of "GLC". *)
Lemma chirality_flag_found_witness :
  sugar_diag_chirality
    (flags_of (MSugar_new lookup_sample (fun _ => [])
                 (fun _ => mkCP [0.55; 30; 5] "alpha" "L")
                 (fun _ => mkCP [0.55; 30; 5] "alpha" "L")
                 (fun _ => 0.03) (fun _ => 3.0) sample_database sample_pyranose "GLC"))
  = false.
Proof.
  apply (chirality_flag_found lookup_sample (fun _ => [])
           (fun _ => mkCP [0.55; 30; 5] "alpha" "L")
           (fun _ => mkCP [0.55; 30; 5] "alpha" "L")
           (fun _ => 0.03) (fun _ => 3.0) sample_database sample_pyranose "GLC" 0%nat).
  - vm_compute. reflexivity.
  - vm_compute. reflexivity.
  - right. split; vm_compute; reflexivity.
Defined.

Lemma not_in_database_not_sane_witness :
  sugar_found_db (sample_new (ringMembers lookup_sample) sample_pyranose "XYZ") = false
  /\ sugar_ring_elements (sample_new (ringMembers lookup_sample) sample_pyranose "XYZ")
     = ringMembers lookup_sample sample_pyranose
  /\ sugar_sane (sample_new (ringMembers lookup_sample) sample_pyranose "XYZ") = false
  /\ sugar_diag (sample_new (ringMembers lookup_sample) sample_pyranose "XYZ")
     = Some (mkDiag (ring_closes (ringMembers lookup_sample sample_pyranose))
                    false false false false).
Proof.
  apply (not_in_database_not_sane lookup_sample (ringMembers lookup_sample)
           sample_cp sample_cp (fun _ => 0.03) (fun _ => 3.0) sample_database
           sample_pyranose "XYZ").
  vm_compute. reflexivity.
Defined.

(** ** Neighbours from the non-bond search *)

(** An entry of the list [MAtomNonBond::atoms_near] returns
    ([clipper::MAtomIndexSymmetry]), read through [mmol.atom(...)]: the
    symmetry operator it was found under (0 for the identity) and the atom. *)
Definition neighbour : Set := (Z * MAtom)%type.

Section SymmetryMates.

(** The distance to a symmetry mate: the first atom is moved by the symmetry
    operator and brought to the lattice copy nearest to the second one
    ([Spacegroup::symop], [Coord_frac::lattice_copy_near], [lengthsq] in the
    cell).  Carried as its square, like every distance here. *)
Variable symmetry_distance : Z -> MAtom -> MAtom -> distance_t.

(** The distance [bonded] and [is_stereocentre] compute for a neighbour. *)
Definition neighbour_distance (nb : neighbour) (ma : MAtom) : distance_t :=
  if (fst nb =? 0)%Z then length (coord_orth (snd nb)) (coord_orth ma)
  else symmetry_distance (fst nb) (snd nb) ma.

(** [MSugar::bonded(const MAtomIndexSymmetry&, const MAtom&)]. *)
Definition bonded_symm (ma_one : neighbour) (ma_two : MAtom) : bool :=
  let distance := neighbour_distance ma_one ma_two in
  if atom_element (snd ma_one) =? "C" then
    if atom_element ma_two =? "C" then
      if dist_gt distance 1.18 && dist_lt distance 1.60 then true else false
    else if atom_element ma_two =? "N" then
      if dist_gt distance 1.24 && dist_lt distance 1.52 then true else false
    else if atom_element ma_two =? "O" then
      if dist_gt distance 1.16 && dist_lt distance 1.50 then true else false
    else if atom_element ma_two =? "H" then
      if dist_gt distance 0.96 && dist_lt distance 1.14 then true else false
    else false
  else if atom_element (snd ma_one) =? "N" then
    if atom_element ma_two =? "C" then
      if dist_gt distance 1.24 && dist_lt distance 1.52 then true else false
    else if atom_element ma_two =? "H" then
      if dist_gt distance 0.90 && dist_lt distance 1.10 then true else false
    else false
  else if atom_element (snd ma_one) =? "O" then
    if atom_element ma_two =? "C" then
      if dist_gt distance 1.16 && dist_lt distance 1.50 then true else false
    else if atom_element ma_two =? "H" then
      if dist_gt distance 0.88 && dist_lt distance 1.04 then true else false
    else false
  else if dist_gt distance 1.2 && dist_lt distance 1.8 then true
  else false.

(** The inner loop of [is_stereocentre]: an earlier substituent that is not
    a carbon has the element of the neighbour. *)
Definition element_listed (substituent_list : list MAtom) (nb : MAtom) : bool :=
  existsb (fun s => negb (atom_element s =? "C")
                    && (atom_element s =? atom_element nb)) substituent_list.

(** The test a neighbour passes before the inner loop. *)
Definition counts_as_substituent (ma : MAtom) (nb : neighbour) : bool :=
  dist_lt (neighbour_distance nb ma) 1.8
  && (negb (atom_element (snd nb) =? "H")
      && negb (atom_name (snd nb) =? atom_name ma)
      && Ascii.eqb (get_altconf (snd nb)) (get_altconf ma)).

(** The loop of [is_stereocentre] over the neighbourhood. *)
Fixpoint substituents (ma : MAtom) (ring0_name : string) (neighbourhood : list neighbour)
    (substituent_list : list MAtom) : list MAtom :=
  match neighbourhood with
  | [] => substituent_list
  | nb :: rest =>
      let substituent_list :=
        if counts_as_substituent ma nb then
          if negb (element_listed substituent_list (snd nb))
             || (atom_name (snd nb) =? ring0_name)
          then (substituent_list ++ [snd nb])%list
          else substituent_list
        else substituent_list in
      substituents ma ring0_name rest substituent_list
  end.

(** [MSugar::is_stereocentre], for the atom [ma], the ring [ring_atoms] and
    the atoms [neighbourhood] the non-bond search returns around [ma]. *)
Definition is_stereocentre (ma : MAtom) (ring_atoms : list MAtom)
    (neighbourhood : list neighbour) : bool :=
  if negb (atom_element ma =? "C") then false
  else
    let substituent_list :=
      substituents ma (atom_name (at_index ring_atoms 0)) neighbourhood [] in
    if (2 <? List.length substituent_list)%nat then true else false.

(** For an atom of the same asymmetric unit the two overloads of [bonded]
    give the same answer: their tables of distance windows agree. *)
Theorem bonded_symm_identity (ma_one ma_two : MAtom) :
  bonded_symm (0%Z, ma_one) ma_two = bonded ma_one ma_two.
Proof. reflexivity. Qed.

Lemma element_listed_app (l1 l2 : list MAtom) (nb : MAtom) :
  element_listed (l1 ++ l2)%list nb = element_listed l1 nb || element_listed l2 nb.
Proof. unfold element_listed. apply existsb_app. Qed.

Lemma substituents_length (ma : MAtom) (ring0_name : string)
    (neighbourhood : list neighbour) :
  forall substituent_list : list MAtom,
    (List.length (substituents ma ring0_name neighbourhood substituent_list)
     <= List.length substituent_list
        + List.length (filter (counts_as_substituent ma) neighbourhood))%nat.
Proof.
  induction neighbourhood as [|nb rest IH]; intros sl; simpl; [lia|].
  destruct (counts_as_substituent ma nb); simpl.
  - destruct (negb (element_listed sl (snd nb)) || (atom_name (snd nb) =? ring0_name)).
    + specialize (IH (sl ++ [snd nb])%list). rewrite length_app in IH. simpl in IH. lia.
    + specialize (IH sl). lia.
  - apply IH.
Qed.

(** X15.  Only a carbon is a stereocentre, and only with at least three
    neighbours that count: closer than 1.8 A, not hydrogen, not of its own
    name, and of its own alternate conformation. *)
Theorem is_stereocentre_needs_three (ma : MAtom) (ring_atoms : list MAtom)
    (neighbourhood : list neighbour) :
  is_stereocentre ma ring_atoms neighbourhood = true ->
  atom_element ma = "C"
  /\ (3 <= List.length (filter (counts_as_substituent ma) neighbourhood))%nat.
Proof.
  unfold is_stereocentre.
  destruct (String.eqb_spec (atom_element ma) "C") as [E|E]; simpl;
    [|intros H; discriminate H].
  destruct (Nat.ltb_spec 2 (List.length
              (substituents ma (atom_name (at_index ring_atoms 0)) neighbourhood [])))
    as [H|H]; [|intros H'; discriminate H'].
  intros _. split; [exact E|].
  pose proof (substituents_length ma (atom_name (at_index ring_atoms 0))
                neighbourhood []) as Hl.
  simpl in Hl. lia.
Qed.

(** In the list of substituents a non-carbon element is repeated only by an
    atom with the name of the ring atom at position 0: two oxygens (or two
    nitrogens) on one carbon count once. *)
Definition no_repeated_element (ring0_name : string) (l : list MAtom) : Prop :=
  forall (pre post : list MAtom) (s : MAtom),
    l = (pre ++ s :: post)%list ->
    element_listed pre s = true -> atom_name s = ring0_name.

Lemma substituents_no_repeat (ma : MAtom) (ring0_name : string)
    (neighbourhood : list neighbour) :
  forall substituent_list : list MAtom,
    no_repeated_element ring0_name substituent_list ->
    no_repeated_element ring0_name
      (substituents ma ring0_name neighbourhood substituent_list).
Proof.
  induction neighbourhood as [|nb rest IH]; intros sl Hsl; simpl; [exact Hsl|].
  apply IH.
  destruct (counts_as_substituent ma nb); [|exact Hsl].
  destruct (element_listed sl (snd nb)) eqn:El; simpl.
  - destruct (String.eqb_spec (atom_name (snd nb)) ring0_name) as [En|En]; [|exact Hsl].
    intros pre post s Heq Hlisted.
    destruct post as [|p post'] using rev_ind.
    + apply app_inj_tail in Heq. destruct Heq as [_ Heq]. subst s. exact En.
    + rewrite app_comm_cons, app_assoc in Heq.
      apply app_inj_tail in Heq. destruct Heq as [Heq _].
      apply (Hsl pre post' s Heq Hlisted).
  - intros pre post s Heq Hlisted.
    destruct post as [|p post'] using rev_ind.
    + apply app_inj_tail in Heq. destruct Heq as [Hpre Heq]. subst s pre.
      rewrite El in Hlisted. discriminate Hlisted.
    + rewrite app_comm_cons, app_assoc in Heq.
      apply app_inj_tail in Heq. destruct Heq as [Heq _].
      apply (Hsl pre post' s Heq Hlisted).
Qed.

(** X16.  In the list [is_stereocentre] counts, an atom whose element (other than
    carbon) is in the list already is entered only if it has the name of
    ring atom 0: two hydroxyl oxygens on one carbon count as one
    substituent. *)
Theorem is_stereocentre_counts_elements_once (ma : MAtom) (ring_atoms : list MAtom)
    (neighbourhood : list neighbour) :
  no_repeated_element (atom_name (at_index ring_atoms 0))
    (substituents ma (atom_name (at_index ring_atoms 0)) neighbourhood []).
Proof.
  apply substituents_no_repeat.
  intros pre post s Heq _. destruct pre; discriminate Heq.
Qed.

End SymmetryMates.

(** A carbon with an oxygen, a nitrogen and a carbon around it. *)
Lemma is_stereocentre_needs_three_witness :
  atom_element sample_C1 = "C"
  /\ (3 <= List.length
             (filter (counts_as_substituent (fun _ _ _ => 0%Q) sample_C1)
                     [ (0%Z, atom_xy "O5" "O" 1.4 0); (0%Z, atom_xy "N2" "N" 0 1.4);
                       (0%Z, atom_xy "C2" "C" (-1.4) 0) ]))%nat.
Proof.
  apply (is_stereocentre_needs_three (fun _ _ _ => 0%Q) sample_C1 sample_pyranose).
  vm_compute. reflexivity.
Defined.

(** ** Stereochemistry Locator *)

Module Locator.

(** [MSugar::is_part_of_ring]: by name. *)
Fixpoint is_part_of_ring (ma : MAtom) (ring_atoms : list MAtom) : bool :=
  match ring_atoms with
  | [] => false
  | r :: rest =>
      if atom_name r =? atom_name ma then true else is_part_of_ring ma rest
  end.

(** A fresh atom after [set_id("XXX")]: the "not found" sentinel. *)
Definition MAtom_XXX : MAtom := mkAtom "XXX" "XXX" "" 0 (mkCoord 0 0 0).

(** [clipper::String::trim]: without leading and trailing blanks. *)
Fixpoint trim_left (s : string) : string :=
  match s with
  | String c rest => if Ascii.eqb c " " then trim_left rest else s
  | EmptyString => EmptyString
  end.

Fixpoint trim_right (s : string) : string :=
  match s with
  | String c rest =>
      match trim_right rest with
      | EmptyString => if Ascii.eqb c " " then EmptyString else String c EmptyString
      | t => String c t
      end
  | EmptyString => EmptyString
  end.

Definition trim (s : string) : string := trim_right (trim_left s).

(** "Don't grab a carbon as substituent unless there's really no other
    option": the choice both branches of the alternate-conformation test
    make for the anomeric substituent. *)
Definition grab (substituent nb : MAtom) : MAtom :=
  if negb (atom_element nb =? "C") then nb
  else if atom_name substituent =? "XXX" then nb
  else substituent.

Section Stereochemistry.

Variable symmetry_distance : Z -> MAtom -> MAtom -> distance_t.

(** [sugar_parent_molecule_nonbond->atoms_near(coord, 1.2)], each entry with
    the atom [mmol.atom(...)] gives for it. *)
Variable atoms_near : Coord_orth -> list neighbour.


(** The loop over the neighbours of the anomeric carbon. *)
Fixpoint anomeric_loop (ring_atoms : list MAtom) (anomeric_carbon : MAtom)
    (neighbourhood : list neighbour) (anomeric_substituent : MAtom) : MAtom :=
  match neighbourhood with
  | [] => anomeric_substituent
  | nb :: rest =>
      let anomeric_substituent :=
        if negb (atom_element (snd nb) =? "H")
           && negb (atom_name (snd nb) =? atom_name anomeric_carbon)
        then
          if bonded_symm symmetry_distance nb (at_index ring_atoms 1) then
            if negb (is_part_of_ring (snd nb) ring_atoms) then
              if Ascii.eqb (get_altconf (snd nb)) (get_altconf (at_index ring_atoms 1))
              then grab anomeric_substituent (snd nb)
              else grab anomeric_substituent (snd nb)
            else anomeric_substituent
          else anomeric_substituent
        else anomeric_substituent in
      anomeric_loop ring_atoms anomeric_carbon rest anomeric_substituent
  end.

(** The substituent of the in-ring configurational carbon [ring_atoms[i]]:
    the loop over its neighbours. *)
Fixpoint ring_substituent_loop (ring_atoms : list MAtom) (i : nat)
    (anomeric_carbon configurational_carbon : MAtom)
    (neighbourhood : list neighbour) (configurational_substituent : MAtom) : MAtom :=
  match neighbourhood with
  | [] => configurational_substituent
  | nb :: rest =>
      let configurational_substituent :=
        if negb (is_part_of_ring (snd nb) ring_atoms)
           && negb (atom_element (snd nb) =? "H")
           && Ascii.eqb (get_altconf (snd nb)) (get_altconf anomeric_carbon)
        then
          if dist_lt (length (coord_orth (snd nb)) (coord_orth configurational_carbon)) 1.8
          then
            if negb (atom_name (snd nb) =? atom_name (at_index ring_atoms (i - 1)))
               && negb (atom_name (snd nb) =? atom_name (at_index ring_atoms 0))
               && negb (atom_name (snd nb) =? atom_name configurational_carbon)
            then snd nb
            else configurational_substituent
          else configurational_substituent
        else configurational_substituent in
      ring_substituent_loop ring_atoms i anomeric_carbon configurational_carbon
                            rest configurational_substituent
  end.

(** The loop over the ring positions [i = 2 ..]: every in-ring carbon that
    is a stereocentre replaces the configurational carbon. *)
Fixpoint ring_stereocentres (ring_atoms : list MAtom) (positions : list nat)
    (anomeric_carbon : MAtom) (configurational : MAtom * MAtom) : MAtom * MAtom :=
  match positions with
  | [] => configurational
  | i :: rest =>
      let configurational :=
        if atom_element (at_index ring_atoms i) =? "C" then
          if is_stereocentre symmetry_distance (at_index ring_atoms i) ring_atoms
               (atoms_near (coord_orth (at_index ring_atoms i)))
          then
            let configurational_carbon := at_index ring_atoms i in
            (configurational_carbon,
             ring_substituent_loop ring_atoms i anomeric_carbon configurational_carbon
               (atoms_near (coord_orth configurational_carbon)) (snd configurational))
          else configurational
        else configurational in
      ring_stereocentres ring_atoms rest anomeric_carbon configurational
  end.

(** One turn of the [while] loop that walks away from the ring: the loop
    over the neighbours of the new configurational carbon, on the pair
    (next carbon, configurational substituent). *)
Fixpoint chain_loop (ring_atoms : list MAtom) (configurational_carbon : MAtom)
    (neighbourhood : list neighbour) (state : MAtom * MAtom) : MAtom * MAtom :=
  match neighbourhood with
  | [] => state
  | nb :: rest =>
      let last := at_index ring_atoms (List.length ring_atoms - 1) in
      let state :=
        if negb (is_part_of_ring (snd nb) ring_atoms)
           && negb (atom_element (snd nb) =? "H")
           && Ascii.eqb (get_altconf (snd nb)) (get_altconf configurational_carbon)
        then
          if dist_lt (length (coord_orth (snd nb)) (coord_orth configurational_carbon)) 1.8
          then
            if atom_element (snd nb) =? "C" then
              if Qgtb (length (coord_orth (snd nb)) (coord_orth last))
                      (length (coord_orth configurational_carbon) (coord_orth last))
              then (snd nb, snd state)
              else state
            else (fst state, snd nb)
          else state
        else state in
      chain_loop ring_atoms configurational_carbon rest state
  end.

(** The [while] loop; [None] when [fuel] turns are not enough. *)
Fixpoint chain_walk (fuel : nat) (ring_atoms : list MAtom)
    (configurational_carbon configurational_substituent next_carbon : MAtom)
  : option (MAtom * MAtom) :=
  if is_stereocentre symmetry_distance next_carbon ring_atoms
       (atoms_near (coord_orth next_carbon))
     && negb (trim (atom_id next_carbon) =? atom_name configurational_carbon)
  then
    match fuel with
    | O => None
    | S fuel' =>
        let configurational_carbon := next_carbon in
        let '(next_carbon, configurational_substituent) :=
          chain_loop ring_atoms configurational_carbon
                     (atoms_near (coord_orth configurational_carbon))
                     (next_carbon, configurational_substituent) in
        chain_walk fuel' ring_atoms configurational_carbon configurational_substituent
                   next_carbon
    end
  else Some (configurational_carbon, configurational_substituent).

(** [MSugar::get_stereochemistry]: the anomeric pair and the configurational
    pair, each a carbon and its substituent. *)
Definition get_stereochemistry (fuel : nat) (ring_atoms : list MAtom)
  : option ((MAtom * MAtom) * (MAtom * MAtom)) :=
  let anomeric :=
    if negb (is_empty ring_atoms) then
      if atom_element (at_index ring_atoms 1) =? "C" then
        let anomeric_carbon := at_index ring_atoms 1 in
        (anomeric_carbon,
         anomeric_loop ring_atoms anomeric_carbon
                       (atoms_near (coord_orth (at_index ring_atoms 1))) MAtom_XXX)
      else (MAtom_XXX, MAtom_XXX)
    else (MAtom_XXX, MAtom_XXX) in
  let in_ring :=
    ring_stereocentres ring_atoms (seq 2 (List.length ring_atoms - 2)) (fst anomeric)
                       (MAtom_XXX, MAtom_XXX) in
  match chain_walk fuel ring_atoms (fst in_ring) (snd in_ring) (snd in_ring) with
  | Some configurational => Some (anomeric, configurational)
  | None => None
  end.



Lemma ring_stereocentres_none (ring_atoms : list MAtom) (anomeric_carbon : MAtom)
    (positions : list nat) :
  forall configurational : MAtom * MAtom,
    (forall i : nat, In i positions ->
       atom_element (at_index ring_atoms i) = "C" ->
       is_stereocentre symmetry_distance (at_index ring_atoms i) ring_atoms
         (atoms_near (coord_orth (at_index ring_atoms i))) = false) ->
    ring_stereocentres ring_atoms positions anomeric_carbon configurational
    = configurational.
Proof.
  induction positions as [|i rest IH]; intros configurational H; simpl; [reflexivity|].
  destruct (String.eqb_spec (atom_element (at_index ring_atoms i)) "C") as [E|E].
  - rewrite (H i (or_introl eq_refl) E). apply IH.
    intros j Hj. apply H. right. exact Hj.
  - apply IH. intros j Hj. apply H. right. exact Hj.
Qed.

(** X18.  If no ring carbon from position 2 on is a stereocentre, the search
    returns, whatever the fuel, and the configurational pair is the sentinel
    "XXX" twice: "not found" comes out as data. *)
Theorem no_stereocentre_sentinel (fuel : nat) (ring_atoms : list MAtom) :
  (forall i : nat, (2 <= i < List.length ring_atoms)%nat ->
     atom_element (at_index ring_atoms i) = "C" ->
     is_stereocentre symmetry_distance (at_index ring_atoms i) ring_atoms
       (atoms_near (coord_orth (at_index ring_atoms i))) = false) ->
  exists anomeric : MAtom * MAtom,
    get_stereochemistry fuel ring_atoms = Some (anomeric, (MAtom_XXX, MAtom_XXX)).
Proof.
  intros H. unfold get_stereochemistry. cbv zeta.
  rewrite ring_stereocentres_none.
  - cbn [fst snd].
    assert (Hw : chain_walk fuel ring_atoms MAtom_XXX MAtom_XXX MAtom_XXX
                 = Some (MAtom_XXX, MAtom_XXX)).
    { destruct fuel; reflexivity. }
    rewrite Hw. eexists. reflexivity.
  - intros i Hi. apply in_seq in Hi. apply H. lia.
Qed.

End Stereochemistry.


Lemma no_stereocentre_sentinel_witness :
  exists anomeric : MAtom * MAtom,
    get_stereochemistry (fun _ _ _ => 0%Q) (fun _ => []) 0 sample_pyranose
    = Some (anomeric, (MAtom_XXX, MAtom_XXX)).
Proof.
  apply no_stereocentre_sentinel.
  intros i _ _. unfold is_stereocentre. simpl substituents.
  destruct (negb (atom_element (at_index sample_pyranose i) =? "C")); reflexivity.
Defined.

End Locator.

(** ** Cremer-Pople Analyzer *)

(** The analysis calls [sqrt], [sin], [cos], [acos] and [atan]: this part of
    the embedding is over the real numbers, the values the C++ doubles
    approximate. *)

Open Scope R_scope.

(** [clipper::Vec3<ftype>] and [clipper::Coord_orth]. *)
Record Vec3 : Set := mkVec { vx : R; vy : R; vz : R }.

Definition vnull : Vec3 := mkVec 0 0 0.

Definition vadd (a b : Vec3) : Vec3 := mkVec (vx a + vx b) (vy a + vy b) (vz a + vz b).
Definition vsub (a b : Vec3) : Vec3 := mkVec (vx a - vx b) (vy a - vy b) (vz a - vz b).
Definition vneg (a : Vec3) : Vec3 := mkVec (- vx a) (- vy a) (- vz a).
Definition vscale (a : Vec3) (s : R) : Vec3 := mkVec (vx a * s) (vy a * s) (vz a * s).

Definition dot (a b : Vec3) : R := vx a * vx b + vy a * vy b + vz a * vz b.

Definition cross (a b : Vec3) : Vec3 :=
  mkVec (vy a * vz b - vz a * vy b)
        (vz a * vx b - vx a * vz b)
        (vx a * vy b - vy a * vx b).

(** [Vec3::unit()]: the vector times [1.0 / sqrt(v*v)]. *)
Definition unit (v : Vec3) : Vec3 := vscale v (1 / sqrt (dot v v)).

(** [Coord_orth::length(a, b)]. *)
Definition vlength (a b : Vec3) : R := sqrt (dot (vsub a b) (vsub a b)).

(** [clipper::Mat33<>], row by row. *)
Record Mat33 : Set := mkMat {
  m00 : R; m01 : R; m02 : R;
  m10 : R; m11 : R; m12 : R;
  m20 : R; m21 : R; m22 : R
}.

Definition mat_vec (m : Mat33) (v : Vec3) : Vec3 :=
  mkVec (m00 m * vx v + m01 m * vy v + m02 m * vz v)
        (m10 m * vx v + m11 m * vy v + m12 m * vz v)
        (m20 m * vx v + m21 m * vy v + m22 m * vz v).

Definition det (m : Mat33) : R :=
  m00 m * (m11 m * m22 m - m12 m * m21 m)
  - m01 m * (m10 m * m22 m - m12 m * m20 m)
  + m02 m * (m10 m * m21 m - m11 m * m20 m).

(** A rigid rotation: the columns are orthonormal and the determinant is 1. *)
Definition is_rotation (m : Mat33) : Prop :=
  m00 m * m00 m + m10 m * m10 m + m20 m * m20 m = 1
  /\ m01 m * m01 m + m11 m * m11 m + m21 m * m21 m = 1
  /\ m02 m * m02 m + m12 m * m12 m + m22 m * m22 m = 1
  /\ m00 m * m01 m + m10 m * m11 m + m20 m * m21 m = 0
  /\ m00 m * m02 m + m10 m * m12 m + m20 m * m22 m = 0
  /\ m01 m * m02 m + m11 m * m12 m + m21 m * m22 m = 0
  /\ det m = 1.

(** An atom with real coordinates: [ratom_name] is [name().trim()],
    [ratom_element] is [element().trim()]. *)
Record MAtomR : Set := mkAtomR {
  ratom_name : string;
  ratom_element : string;
  ratom_occupancy : R;
  ratom_coord : Vec3
}.

(** The atom the searches start from: [set_id("XXX")] on a fresh atom. *)
Definition MAtomR_XXX : MAtomR := mkAtomR "XXX" "" 0 vnull.

(** [clipper::RTop_orth(rot, trn)] applied to an atom. *)
Definition transform (rot : Mat33) (trn : Vec3) (a : MAtomR) : MAtomR :=
  mkAtomR (ratom_name a) (ratom_element a) (ratom_occupancy a)
          (vadd (mat_vec rot (ratom_coord a)) trn).

Definition mat_identity : Mat33 := mkMat 1 0 0 0 1 0 0 0 1.

(** [mm[mm.lookup(name, clipper::MM::ANY)].coord_orth()]: the coordinates of
    the first atom of the monomer with that name. *)
Fixpoint coord_of (mm : list MAtomR) (name : string) : Vec3 :=
  match mm with
  | [] => vnull
  | a :: rest =>
      if (ratom_name a =? name)%string then ratom_coord a else coord_of rest name
  end.

(** [MSugar::is_part_of_ring]: by name. *)
Fixpoint is_part_of_ring (ma : MAtomR) (ring_atoms : list MAtomR) : bool :=
  match ring_atoms with
  | [] => false
  | r :: rest =>
      if (ratom_name r =? ratom_name ma)%string then true
      else is_part_of_ring ma rest
  end.

Definition Rltb (a b : R) : bool := if Rlt_dec a b then true else false.
Definition Rgtb (a b : R) : bool := if Rlt_dec b a then true else false.
Definition Reqb (a b : R) : bool := if Req_dec_T a b then true else false.

Definition ring_at (ring_atoms : list MAtomR) (k : nat) : MAtomR :=
  nth k ring_atoms MAtomR_XXX.

(** The name [nz(k+1)] of the ring atom at position [k]. *)
Definition nz (ring_atoms : list MAtomR) (k : nat) : string :=
  ratom_name (ring_at ring_atoms k).

(** The stereochemistry pairs [get_stereochemistry] returns: anomeric carbon
    and substituent, configurational carbon and substituent. *)
Definition stereochemistry_pairs : Set := ((MAtomR * MAtomR) * (MAtomR * MAtomR))%type.

(** What a Cremer-Pople routine computes. *)
Record pucker : Set := mkPucker {
  totalPuckering : R;
  phi2 : R;
  theta : R;
  q2 : R;
  q3 : R;
  anomer : string;
  handedness : string
}.

(** The choice of the substituent of the ring-closing carbon [rc]: the loop
    over the atoms the non-bond search returned.  [same_occupancy] is the
    extra test of the pyranose routine. *)
Fixpoint ring_closing_substituent (same_occupancy : bool) (rc : MAtomR)
    (ring_atoms : list MAtomR) (neighbourhood : list MAtomR) (subst : MAtomR) : MAtomR :=
  match neighbourhood with
  | [] => subst
  | nb :: rest =>
      let subst :=
        if negb (ratom_element nb =? "H")%string
           && negb (ratom_name nb =? ratom_name rc)%string
        then
          if Rltb (vlength (ratom_coord nb) (ratom_coord rc)) 1.8 then
            if negb (is_part_of_ring nb ring_atoms)
               && (if same_occupancy
                   then Reqb (ratom_occupancy rc) (ratom_occupancy nb) else true)
            then
              if negb (ratom_element nb =? "C")%string then nb
              else if (ratom_name subst =? "XXX")%string then nb
              else subst
            else subst
          else subst
        else subst in
      ring_closing_substituent same_occupancy rc ring_atoms rest subst
  end.

(** The anomer from the four projections and [lurd_reverse]. *)
Definition anomer_of (lurd_reverse : bool)
    (z_anomeric_carbon z_anomeric_substituent
     z_configurational_carbon z_configurational_substituent : R) : string :=
  if (Rgtb z_anomeric_substituent z_anomeric_carbon
      && Rgtb z_configurational_substituent z_configurational_carbon)
     || (Rltb z_anomeric_substituent z_anomeric_carbon
         && Rltb z_configurational_substituent z_configurational_carbon)
  then (if lurd_reverse then "beta" else "alpha")
  else (if lurd_reverse then "alpha" else "beta").

(** [lurd_reverse]: the configurational carbon is the ring-closing atom or
    lies outside the ring. *)
Definition lurd_reverse_of (ring_atoms : list MAtomR) (last : nat)
    (configurational_carbon : MAtomR) : bool :=
  if negb (ratom_name configurational_carbon =? "XXX")%string then
    if (nz ring_atoms last =? ratom_name configurational_carbon)%string
       || negb (is_part_of_ring configurational_carbon ring_atoms)
    then true else false
  else false.

(** The last statement of both routines. *)
Definition handedness_of (ring_atoms : list MAtomR) (subst : MAtomR)
    (z_ring_close z_substituent : R) : string :=
  if is_part_of_ring subst ring_atoms || (ratom_name subst =? "XXX")%string then "N"
  else if Rltb (z_ring_close - z_substituent) 0 then "D"
  else "L".

(** *** Six-membered rings *)

(** The geometrical centre of the six ring atoms, looked up by name. *)
Definition ring_centre_pyranose (mm ring_atoms : list MAtomR) : Vec3 :=
  let p k := coord_of mm (nz ring_atoms k) in
  let centre_x := 0 + vx (p 0%nat) + vx (p 1%nat) + vx (p 2%nat)
                  + vx (p 3%nat) + vx (p 4%nat) + vx (p 5%nat) in
  let centre_y := 0 + vy (p 0%nat) + vy (p 1%nat) + vy (p 2%nat)
                  + vy (p 3%nat) + vy (p 4%nat) + vy (p 5%nat) in
  let centre_z := 0 + vz (p 0%nat) + vz (p 1%nat) + vz (p 2%nat)
                  + vz (p 3%nat) + vz (p 4%nat) + vz (p 5%nat) in
  mkVec (centre_x / 6) (centre_y / 6) (centre_z / 6).

(** [mm.transform(shift)] with [shift = RTop_orth(identity, -centre)]. *)
Definition recentre (centre : Vec3) (mm : list MAtomR) : list MAtomR :=
  map (transform mat_identity (vneg centre)) mm.

(** The unit normal of the mean plane, from the recentred monomer [mm]. *)
Definition mean_plane_normal_pyranose (mm ring_atoms : list MAtomR) : Vec3 :=
  let p k := coord_of mm (nz ring_atoms k) in
  let rPrime :=
    vadd (vadd (vadd (vadd (vadd (vadd vnull
      (vscale (p 0%nat) (sin 0.0)))
      (vscale (p 1%nat) (sin ((2.0 * PI) / 6.0))))
      (vscale (p 2%nat) (sin ((2.0 * PI * 2) / 6.0))))
      (vscale (p 3%nat) (sin ((2.0 * PI * 3) / 6.0))))
      (vscale (p 4%nat) (sin ((2.0 * PI * 4) / 6.0))))
      (vscale (p 5%nat) (sin ((2.0 * PI * 5) / 6.0))) in
  let r2Prime :=
    vadd (vadd (vadd (vadd (vadd (vadd vnull
      (vscale (p 0%nat) (cos 0.0)))
      (vscale (p 1%nat) (cos ((2.0 * PI) / 6.0))))
      (vscale (p 2%nat) (cos ((2.0 * PI * 2) / 6.0))))
      (vscale (p 3%nat) (cos ((2.0 * PI * 3) / 6.0))))
      (vscale (p 4%nat) (cos ((2.0 * PI * 4) / 6.0))))
      (vscale (p 5%nat) (cos ((2.0 * PI * 5) / 6.0))) in
  unit (cross rPrime r2Prime).

(** [z(k+1)]: the projection of ring atom [k] onto the normal, after the
    monomer has been moved to its ring centre. *)
Definition z_pyranose (mm ring_atoms : list MAtomR) (k : nat) : R :=
  let mm' := recentre (ring_centre_pyranose mm ring_atoms) mm in
  dot (coord_of mm' (nz ring_atoms k)) (mean_plane_normal_pyranose mm' ring_atoms).

Section CremerPople.

(** [float(a) == float(b)]: equality after rounding to single precision. *)
Variable float_eq : R -> R -> bool.

(** [MSugar::cremerPople_pyranose], for the monomer [mm], the ring
    [ring_atoms], the pairs [stereo] found by [get_stereochemistry] and the
    atoms [neighbourhood] the non-bond search returns around the
    ring-closing carbon. *)
Definition cremerPople_pyranose (mm ring_atoms : list MAtomR)
    (stereo : stereochemistry_pairs) (neighbourhood : list MAtomR) : pucker :=
  let lurd_reverse := lurd_reverse_of ring_atoms 5 (fst (snd stereo)) in
  let centre := ring_centre_pyranose mm ring_atoms in
  let shift := transform mat_identity (vneg centre) in
  let mm' := recentre centre mm in
  let anomeric_carbon := shift (fst (fst stereo)) in
  let anomeric_substituent := shift (snd (fst stereo)) in
  let configurational_carbon := shift (fst (snd stereo)) in
  let configurational_substituent := shift (snd (snd stereo)) in
  let n := mean_plane_normal_pyranose mm' ring_atoms in
  let z1 := z_pyranose mm ring_atoms 0 in
  let z2 := z_pyranose mm ring_atoms 1 in
  let z3 := z_pyranose mm ring_atoms 2 in
  let z4 := z_pyranose mm ring_atoms 3 in
  let z5 := z_pyranose mm ring_atoms 4 in
  let z6 := z_pyranose mm ring_atoms 5 in
  (* handedness *)
  let nz6_substituent :=
    ring_closing_substituent true (ring_at ring_atoms 5) ring_atoms
                             neighbourhood MAtomR_XXX in
  let z6_substituent := dot (ratom_coord (shift nz6_substituent)) n in
  (* stereochemistry *)
  let z_anomeric_carbon := dot (ratom_coord anomeric_carbon) n in
  let z_anomeric_substituent := dot (ratom_coord anomeric_substituent) n in
  let z_configurational_carbon := dot (ratom_coord configurational_carbon) n in
  let z_configurational_substituent := dot (ratom_coord configurational_substituent) n in
  let totalPuckering := sqrt (z1 ^ 2 + z2 ^ 2 + z3 ^ 2 + z4 ^ 2 + z5 ^ 2 + z6 ^ 2) in
  let q3 := sqrt (1.0 / 6.0) * (z3 + z5 + z1 - z2 - z4 - z6) in
  let theta := acos (q3 / totalPuckering) in
  let q2 := totalPuckering * sin theta in
  let theta := theta * (180.0 / PI) in
  let angleCos :=
    acos (sqrt (1.0 / 3.0)
          * (z1 + z2 * cos (4.0 * PI / 6.0) + z3 * cos (8.0 * PI / 6.0)
             + z4 * cos (12.0 * PI / 6.0) + z5 * cos (16.0 * PI / 6.0)
             + z6 * cos (20.0 * PI / 6.0)) / q2) in
  let argASin :=
    - sqrt (1.0 / 3.0)
    * (z2 * sin (4.0 * PI / 6.0) + z3 * sin (8.0 * PI / 6.0)
       + z4 * sin (12.0 * PI / 6.0) + z5 * sin (16.0 * PI / 6.0)
       + z6 * sin (20.0 * PI / 6.0)) in
  let phi2 :=
    if float_eq (q2 * sin angleCos) argASin then angleCos
    else 2 * PI - angleCos in
  let phi2 := phi2 * (180.0 / PI) in
  mkPucker totalPuckering phi2 theta q2 q3
    (anomer_of lurd_reverse z_anomeric_carbon z_anomeric_substituent
               z_configurational_carbon z_configurational_substituent)
    (handedness_of ring_atoms nz6_substituent z6 z6_substituent).

End CremerPople.

(** *** Five-membered rings *)

Definition ring_centre_furanose (mm ring_atoms : list MAtomR) : Vec3 :=
  let p k := coord_of mm (nz ring_atoms k) in
  let centre_x := 0 + vx (p 0%nat) + vx (p 1%nat) + vx (p 2%nat)
                  + vx (p 3%nat) + vx (p 4%nat) in
  let centre_y := 0 + vy (p 0%nat) + vy (p 1%nat) + vy (p 2%nat)
                  + vy (p 3%nat) + vy (p 4%nat) in
  let centre_z := 0 + vz (p 0%nat) + vz (p 1%nat) + vz (p 2%nat)
                  + vz (p 3%nat) + vz (p 4%nat) in
  mkVec (centre_x / 5) (centre_y / 5) (centre_z / 5).

Definition mean_plane_normal_furanose (mm ring_atoms : list MAtomR) : Vec3 :=
  let p k := coord_of mm (nz ring_atoms k) in
  let rPrime :=
    vadd (vadd (vadd (vadd (vadd vnull
      (vscale (p 0%nat) (sin 0.0)))
      (vscale (p 1%nat) (sin ((2.0 * PI) / 5.0))))
      (vscale (p 2%nat) (sin ((2.0 * PI * 2) / 5.0))))
      (vscale (p 3%nat) (sin ((2.0 * PI * 3) / 5.0))))
      (vscale (p 4%nat) (sin ((2.0 * PI * 4) / 5.0))) in
  let r2Prime :=
    vadd (vadd (vadd (vadd (vadd vnull
      (vscale (p 0%nat) (cos 0.0)))
      (vscale (p 1%nat) (cos ((2.0 * PI) / 5.0))))
      (vscale (p 2%nat) (cos ((2.0 * PI * 2) / 5.0))))
      (vscale (p 3%nat) (cos ((2.0 * PI * 3) / 5.0))))
      (vscale (p 4%nat) (cos ((2.0 * PI * 4) / 5.0))) in
  unit (cross rPrime r2Prime).

Definition z_furanose (mm ring_atoms : list MAtomR) (k : nat) : R :=
  let mm' := recentre (ring_centre_furanose mm ring_atoms) mm in
  dot (coord_of mm' (nz ring_atoms k)) (mean_plane_normal_furanose mm' ring_atoms).

(** [MSugar::cremerPople_furanose]: one phase angle, no [theta] and no [q3]
    (both -1); the ring-closing carbon is ring atom 4. *)
Definition cremerPople_furanose (mm ring_atoms : list MAtomR)
    (stereo : stereochemistry_pairs) (neighbourhood : list MAtomR) : pucker :=
  let lurd_reverse := lurd_reverse_of ring_atoms 4 (fst (snd stereo)) in
  let centre := ring_centre_furanose mm ring_atoms in
  let shift := transform mat_identity (vneg centre) in
  let mm' := recentre centre mm in
  let anomeric_carbon := shift (fst (fst stereo)) in
  let anomeric_substituent := shift (snd (fst stereo)) in
  let configurational_carbon := shift (fst (snd stereo)) in
  let configurational_substituent := shift (snd (snd stereo)) in
  let n := mean_plane_normal_furanose mm' ring_atoms in
  let z1 := z_furanose mm ring_atoms 0 in
  let z2 := z_furanose mm ring_atoms 1 in
  let z3 := z_furanose mm ring_atoms 2 in
  let z4 := z_furanose mm ring_atoms 3 in
  let z5 := z_furanose mm ring_atoms 4 in
  let nz5_substituent :=
    ring_closing_substituent false (ring_at ring_atoms 4) ring_atoms
                             neighbourhood MAtomR_XXX in
  let z5_substituent := dot (ratom_coord (shift nz5_substituent)) n in
  let z_anomeric_carbon := dot (ratom_coord anomeric_carbon) n in
  let z_anomeric_substituent := dot (ratom_coord anomeric_substituent) n in
  let z_configurational_carbon := dot (ratom_coord configurational_carbon) n in
  let z_configurational_substituent := dot (ratom_coord configurational_substituent) n in
  let totalPuckering := sqrt (z1 ^ 2 + z2 ^ 2 + z3 ^ 2 + z4 ^ 2 + z5 ^ 2) in
  let argACos :=
    sqrt (1.0 / 3.0)
    * (z1 + z2 * cos (4.0 * PI / 5.0) + z3 * cos (8.0 * PI / 5.0)
       + z4 * cos (12.0 * PI / 5.0) + z5 * cos (16.0 * PI / 5.0)) in
  let argASin :=
    - sqrt (1.0 / 3.0)
    * (z2 * sin (4.0 * PI / 5.0) + z3 * sin (8.0 * PI / 5.0)
       + z4 * sin (12.0 * PI / 5.0) + z5 * sin (16.0 * PI / 5.0)) in
  let phi2 := atan (argASin / argACos) in
  let phi2 := phi2 + PI / 2 in
  let q2 := argACos / cos phi2 in
  let phi2 := phi2 * (180.0 / PI) in
  mkPucker totalPuckering phi2 (-1) q2 (-1)
    (anomer_of lurd_reverse z_anomeric_carbon z_anomeric_substituent
               z_configurational_carbon z_configurational_substituent)
    (handedness_of ring_atoms nz5_substituent z5 z5_substituent).

(** *** Vectors under a rotation *)

Ltac vec_ring :=
  unfold mat_vec, vadd, vsub, vneg, vscale, cross, vnull, mat_identity; simpl;
  f_equal; ring.

Lemma mat_vec_vadd (m : Mat33) (a b : Vec3) :
  mat_vec m (vadd a b) = vadd (mat_vec m a) (mat_vec m b).
Proof. vec_ring. Qed.

Lemma mat_vec_vscale (m : Mat33) (a : Vec3) (s : R) :
  mat_vec m (vscale a s) = vscale (mat_vec m a) s.
Proof. vec_ring. Qed.

Lemma mat_vec_vnull (m : Mat33) : mat_vec m vnull = vnull.
Proof. vec_ring. Qed.

Lemma dot_vscale_r (a b : Vec3) (s : R) : dot a (vscale b s) = s * dot a b.
Proof. unfold dot, vscale; simpl. ring. Qed.

(** A rotation keeps scalar products. *)
Lemma dot_rotation (m : Mat33) (a b : Vec3) :
  is_rotation m -> dot (mat_vec m a) (mat_vec m b) = dot a b.
Proof.
  intros (H00 & H11 & H22 & H01 & H02 & H12 & _).
  unfold dot, mat_vec; simpl.
  replace ((m00 m * vx a + m01 m * vy a + m02 m * vz a)
           * (m00 m * vx b + m01 m * vy b + m02 m * vz b)
           + (m10 m * vx a + m11 m * vy a + m12 m * vz a)
             * (m10 m * vx b + m11 m * vy b + m12 m * vz b)
           + (m20 m * vx a + m21 m * vy a + m22 m * vz a)
             * (m20 m * vx b + m21 m * vy b + m22 m * vz b))
    with ((m00 m * m00 m + m10 m * m10 m + m20 m * m20 m) * (vx a * vx b)
          + (m01 m * m01 m + m11 m * m11 m + m21 m * m21 m) * (vy a * vy b)
          + (m02 m * m02 m + m12 m * m12 m + m22 m * m22 m) * (vz a * vz b)
          + (m00 m * m01 m + m10 m * m11 m + m20 m * m21 m)
            * (vx a * vy b + vy a * vx b)
          + (m00 m * m02 m + m10 m * m12 m + m20 m * m22 m)
            * (vx a * vz b + vz a * vx b)
          + (m01 m * m02 m + m11 m * m12 m + m21 m * m22 m)
            * (vy a * vz b + vz a * vy b))
    by ring.
  rewrite H00, H11, H22, H01, H02, H12. ring.
Qed.

(** The triple product is multiplied by the determinant. *)
Lemma triple_product_mat (m : Mat33) (q a b : Vec3) :
  dot (mat_vec m q) (cross (mat_vec m a) (mat_vec m b))
  = det m * dot q (cross a b).
Proof. unfold dot, cross, mat_vec, det; simpl. ring. Qed.

(** Lagrange's identity. *)
Lemma cross_norm (a b : Vec3) :
  dot (cross a b) (cross a b) = dot a a * dot b b - dot a b * dot a b.
Proof. unfold dot, cross; simpl. ring. Qed.

Lemma cross_norm_rotation (m : Mat33) (a b : Vec3) :
  is_rotation m ->
  dot (cross (mat_vec m a) (mat_vec m b)) (cross (mat_vec m a) (mat_vec m b))
  = dot (cross a b) (cross a b).
Proof.
  intros H. rewrite !cross_norm, !(dot_rotation m) by assumption. reflexivity.
Qed.

(** The projection onto the unit normal of two vectors is the same before
    and after a rotation of all three vectors. *)
Lemma projection_rotation (m : Mat33) (q a b : Vec3) :
  is_rotation m ->
  dot (mat_vec m q) (unit (cross (mat_vec m a) (mat_vec m b)))
  = dot q (unit (cross a b)).
Proof.
  intros H. unfold unit.
  rewrite !dot_vscale_r, triple_product_mat, cross_norm_rotation by assumption.
  destruct H as (_ & _ & _ & _ & _ & _ & Hdet). rewrite Hdet. ring.
Qed.

(** The rotation [m] about the origin, applied to every atom. *)
Definition rotate_atoms (m : Mat33) (atoms : list MAtomR) : list MAtomR :=
  map (transform m vnull) atoms.

Lemma nz_rotate_atoms (m : Mat33) (ring_atoms : list MAtomR) (k : nat) :
  nz (rotate_atoms m ring_atoms) k = nz ring_atoms k.
Proof.
  unfold nz, ring_at, rotate_atoms.
  revert k. induction ring_atoms as [|a rest IH]; intros [|k]; simpl; auto.
Qed.

Lemma coord_of_rotate_atoms (m : Mat33) (mm : list MAtomR) (name : string) :
  coord_of (rotate_atoms m mm) name = mat_vec m (coord_of mm name).
Proof.
  unfold rotate_atoms. induction mm as [|a rest IH]; simpl.
  - symmetry. apply mat_vec_vnull.
  - destruct (ratom_name a =? name)%string; [|exact IH].
    unfold transform; simpl. vec_ring.
Qed.

(** Recentring after the rotation, on the rotated centre, is the rotation of
    the recentred atom. *)
Lemma coord_of_recentre_rotate (m : Mat33) (centre : Vec3) (mm : list MAtomR)
    (name : string) :
  coord_of (recentre (mat_vec m centre) (rotate_atoms m mm)) name
  = mat_vec m (coord_of (recentre centre mm) name).
Proof.
  unfold recentre, rotate_atoms. induction mm as [|a rest IH]; simpl.
  - symmetry. apply mat_vec_vnull.
  - destruct (ratom_name a =? name)%string; [|exact IH].
    unfold transform; simpl. vec_ring.
Qed.

Lemma ring_centre_pyranose_rotate (m : Mat33) (mm ring_atoms : list MAtomR) :
  ring_centre_pyranose (rotate_atoms m mm) (rotate_atoms m ring_atoms)
  = mat_vec m (ring_centre_pyranose mm ring_atoms).
Proof.
  unfold ring_centre_pyranose. cbv zeta.
  rewrite !nz_rotate_atoms, !coord_of_rotate_atoms.
  unfold mat_vec; simpl. f_equal; field.
Qed.

(** Every projection [z(k+1)] of the pyranose routine is unchanged when the
    input coordinates are rotated. *)
Lemma z_pyranose_rotate (m : Mat33) (mm ring_atoms : list MAtomR) (k : nat) :
  is_rotation m ->
  z_pyranose (rotate_atoms m mm) (rotate_atoms m ring_atoms) k
  = z_pyranose mm ring_atoms k.
Proof.
  intros H. unfold z_pyranose, mean_plane_normal_pyranose. cbv zeta.
  rewrite ring_centre_pyranose_rotate.
  rewrite !nz_rotate_atoms, !coord_of_recentre_rotate.
  rewrite <- !mat_vec_vscale.
  rewrite <- (mat_vec_vnull m) at 1 2.
  rewrite <- !mat_vec_vadd.
  apply projection_rotation. assumption.
Qed.

(** The sum of the six squared projections. *)
Definition amplitude_sq_pyranose (mm ring_atoms : list MAtomR) : R :=
  z_pyranose mm ring_atoms 0 ^ 2 + z_pyranose mm ring_atoms 1 ^ 2
  + z_pyranose mm ring_atoms 2 ^ 2 + z_pyranose mm ring_atoms 3 ^ 2
  + z_pyranose mm ring_atoms 4 ^ 2 + z_pyranose mm ring_atoms 5 ^ 2.

Lemma amplitude_sq_pyranose_nonneg (mm ring_atoms : list MAtomR) :
  0 <= amplitude_sq_pyranose mm ring_atoms.
Proof. unfold amplitude_sq_pyranose. nra. Qed.

Lemma totalPuckering_sq (float_eq : R -> R -> bool) (mm ring_atoms : list MAtomR)
    (stereo : stereochemistry_pairs) (neighbourhood : list MAtomR) :
  totalPuckering (cremerPople_pyranose float_eq mm ring_atoms stereo neighbourhood) ^ 2
  = amplitude_sq_pyranose mm ring_atoms.
Proof.
  unfold cremerPople_pyranose; cbv zeta; simpl totalPuckering.
  fold (amplitude_sq_pyranose mm ring_atoms).
  rewrite <- Rsqr_pow2. apply Rsqr_sqrt. apply amplitude_sq_pyranose_nonneg.
Qed.

Definition rotate_stereo (m : Mat33) (stereo : stereochemistry_pairs)
  : stereochemistry_pairs :=
  ((transform m vnull (fst (fst stereo)), transform m vnull (snd (fst stereo))),
   (transform m vnull (fst (snd stereo)), transform m vnull (snd (snd stereo)))).

(** C9.  A rigid rotation of all input coordinates, applied before the
    pyranose routine computes its centre, leaves the sum of the six squared
    projections onto the mean-plane normal, and with it the puckering
    amplitude, unchanged. *)
Theorem amplitude_sq_rotation_invariant (m : Mat33) (float_eq : R -> R -> bool)
    (mm ring_atoms : list MAtomR) (stereo : stereochemistry_pairs)
    (neighbourhood : list MAtomR) :
  is_rotation m ->
  amplitude_sq_pyranose (rotate_atoms m mm) (rotate_atoms m ring_atoms)
  = amplitude_sq_pyranose mm ring_atoms
  /\ totalPuckering (cremerPople_pyranose float_eq (rotate_atoms m mm)
                       (rotate_atoms m ring_atoms) (rotate_stereo m stereo)
                       (rotate_atoms m neighbourhood)) ^ 2
     = totalPuckering (cremerPople_pyranose float_eq mm ring_atoms stereo neighbourhood) ^ 2
  /\ totalPuckering (cremerPople_pyranose float_eq (rotate_atoms m mm)
                       (rotate_atoms m ring_atoms) (rotate_stereo m stereo)
                       (rotate_atoms m neighbourhood))
     = totalPuckering (cremerPople_pyranose float_eq mm ring_atoms stereo neighbourhood).
Proof.
  intros H.
  assert (Hsq : amplitude_sq_pyranose (rotate_atoms m mm) (rotate_atoms m ring_atoms)
                = amplitude_sq_pyranose mm ring_atoms).
  { unfold amplitude_sq_pyranose. rewrite !z_pyranose_rotate by assumption. reflexivity. }
  split; [exact Hsq|]. split.
  - rewrite !totalPuckering_sq. exact Hsq.
  - unfold cremerPople_pyranose; cbv zeta; simpl totalPuckering.
    rewrite !z_pyranose_rotate by assumption. reflexivity.
Qed.

(** A quarter turn about the z axis. *)
Definition quarter_turn_z : Mat33 := mkMat 0 (-1) 0 1 0 0 0 0 1.

Lemma quarter_turn_z_rotation : is_rotation quarter_turn_z.
Proof. unfold is_rotation, det, quarter_turn_z; simpl. repeat split; lra. Qed.

Definition ratom (nm el : string) (x y z : R) : MAtomR :=
  mkAtomR nm el 1 (mkVec x y z).

(** A chair-like six-membered ring: alternate atoms 0.2 A above and below
    the plane z = 0. *)
Definition chair_ring : list MAtomR :=
  [ ratom "O5" "O" 1.4 0 0.2; ratom "C1" "C" 0.7 1.2 (-0.2);
    ratom "C2" "C" (-0.7) 1.2 0.2; ratom "C3" "C" (-1.4) 0 (-0.2);
    ratom "C4" "C" (-0.7) (-1.2) 0.2; ratom "C5" "C" 0.7 (-1.2) (-0.2) ].

(** The ring with its exocyclic atoms: O1 on C1, C6 on C5, O6 on C6. *)
Definition chair_monomer : list MAtomR :=
  chair_ring ++
  [ ratom "O1" "O" 1.2 2.4 (-0.4); ratom "C6" "C" 1.3 (-2.4) 0.4;
    ratom "O6" "O" 2.7 (-2.4) 0.4 ].

Lemma amplitude_sq_rotation_invariant_witness :
  amplitude_sq_pyranose (rotate_atoms quarter_turn_z chair_monomer)
                        (rotate_atoms quarter_turn_z chair_ring)
  = amplitude_sq_pyranose chair_monomer chair_ring.
Proof.
  apply (amplitude_sq_rotation_invariant quarter_turn_z (fun _ _ => true)
           chair_monomer chair_ring
           ((MAtomR_XXX, MAtomR_XXX), (MAtomR_XXX, MAtomR_XXX)) []).
  unfold is_rotation, det, quarter_turn_z; simpl. repeat split; lra.
Defined.

(** *** The pucker parameters of a six-membered ring *)

Lemma degrees_radians (a : R) : a * (180.0 / PI) * (PI / 180.0) = a.
Proof. field. split; [lra | apply PI_neq0]. Qed.

(** C8.  For a six-membered ring the routine returns the puckering amplitude
    [sqrt (z1^2 + ... + z6^2)], [q3 = sqrt(1/6) (z1 + z3 + z5 - z2 - z4 - z6)],
    [theta = acos (q3 / amplitude)] in degrees and
    [q2 = amplitude * sin theta], where [z1 .. z6] are the projections of the
    ring atoms, moved to the ring centre, onto the unit mean-plane normal. *)
Theorem cremerPople_pyranose_parameters (float_eq : R -> R -> bool)
    (mm ring_atoms : list MAtomR) (stereo : stereochemistry_pairs)
    (neighbourhood : list MAtomR) :
  let r := cremerPople_pyranose float_eq mm ring_atoms stereo neighbourhood in
  let centre := ring_centre_pyranose mm ring_atoms in
  let n := mean_plane_normal_pyranose (recentre centre mm) ring_atoms in
  let z k := dot (vsub (coord_of mm (nz ring_atoms k))
                       (if existsb (fun a => (ratom_name a =? nz ring_atoms k)%string) mm
                        then centre else vnull)) n in
  totalPuckering r
  = sqrt (z 0%nat ^ 2 + z 1%nat ^ 2 + z 2%nat ^ 2 + z 3%nat ^ 2 + z 4%nat ^ 2 + z 5%nat ^ 2)
  /\ q3 r = sqrt (1 / 6)
            * (z 0%nat + z 2%nat + z 4%nat - z 1%nat - z 3%nat - z 5%nat)
  /\ theta r = acos (q3 r / totalPuckering r) * (180 / PI)
  /\ q2 r = totalPuckering r * sin (acos (q3 r / totalPuckering r))
  /\ q2 r = totalPuckering r * sin (theta r * (PI / 180)).
Proof.
  cbv beta zeta.
  assert (Hz : forall k,
             dot (vsub (coord_of mm (nz ring_atoms k))
                       (if existsb (fun a => (ratom_name a =? nz ring_atoms k)%string) mm
                        then ring_centre_pyranose mm ring_atoms else vnull))
                 (mean_plane_normal_pyranose
                    (recentre (ring_centre_pyranose mm ring_atoms) mm) ring_atoms)
             = z_pyranose mm ring_atoms k).
  { intros k. unfold z_pyranose. cbv zeta. f_equal.
    generalize (ring_centre_pyranose mm ring_atoms) as c.
    generalize (nz ring_atoms k) as name. intros name c.
    unfold recentre. induction mm as [|a rest IH]; simpl.
    - vec_ring.
    - destruct (ratom_name a =? name)%string; simpl; [|exact IH].
      unfold transform; simpl. vec_ring. }
  rewrite !Hz.
  unfold cremerPople_pyranose; cbv zeta; simpl.
  replace (1.0 / 6.0) with (1 / 6) by lra.
  replace (180.0 / PI) with (180 / PI) by (f_equal; lra).
  repeat split; try reflexivity; try (f_equal; ring).
  pose proof PI_neq0 as HPI.
  f_equal. f_equal. field. exact HPI.
Qed.

(** *** Handedness *)

(** The substituent the pyranose routine chooses for the ring-closing carbon
    (ring atom 5), and the furanose routine for ring atom 4. *)
Definition nz6_substituent (ring_atoms neighbourhood : list MAtomR) : MAtomR :=
  ring_closing_substituent true (ring_at ring_atoms 5) ring_atoms neighbourhood MAtomR_XXX.

Definition nz5_substituent (ring_atoms neighbourhood : list MAtomR) : MAtomR :=
  ring_closing_substituent false (ring_at ring_atoms 4) ring_atoms neighbourhood MAtomR_XXX.

(** [z6 - z6_substituent] and [z5 - z5_substituent]: the displacements along
    the mean-plane normal of the ring-closing carbon and of its substituent,
    both moved to the ring centre. *)
Definition z6_minus_substituent (mm ring_atoms neighbourhood : list MAtomR) : R :=
  let centre := ring_centre_pyranose mm ring_atoms in
  let n := mean_plane_normal_pyranose (recentre centre mm) ring_atoms in
  z_pyranose mm ring_atoms 5
  - dot (ratom_coord (transform mat_identity (vneg centre)
                        (nz6_substituent ring_atoms neighbourhood))) n.

Definition z5_minus_substituent (mm ring_atoms neighbourhood : list MAtomR) : R :=
  let centre := ring_centre_furanose mm ring_atoms in
  let n := mean_plane_normal_furanose (recentre centre mm) ring_atoms in
  z_furanose mm ring_atoms 4
  - dot (ratom_coord (transform mat_identity (vneg centre)
                        (nz5_substituent ring_atoms neighbourhood))) n.

Lemma handedness_of_cases (ring_atoms : list MAtomR) (subst : MAtomR) (zr zs : R) :
  (handedness_of ring_atoms subst zr zs = "N"%string <->
     ratom_name subst = "XXX"%string \/ is_part_of_ring subst ring_atoms = true)
  /\ (handedness_of ring_atoms subst zr zs = "D"%string <->
        ~ (ratom_name subst = "XXX"%string \/ is_part_of_ring subst ring_atoms = true)
        /\ zr - zs < 0)
  /\ (handedness_of ring_atoms subst zr zs = "L"%string <->
        ~ (ratom_name subst = "XXX"%string \/ is_part_of_ring subst ring_atoms = true)
        /\ ~ zr - zs < 0).
Proof.
  set (P := ratom_name subst = "XXX"%string \/ is_part_of_ring subst ring_atoms = true).
  assert (Hb : is_part_of_ring subst ring_atoms || (ratom_name subst =? "XXX")%string = true
               <-> P).
  { unfold P. rewrite orb_true_iff, String.eqb_eq. tauto. }
  unfold handedness_of.
  destruct (is_part_of_ring subst ring_atoms || (ratom_name subst =? "XXX")%string).
  - assert (HP : P) by (apply Hb; reflexivity).
    intuition congruence.
  - assert (HP : ~ P) by (intros HP; apply Hb in HP; discriminate HP).
    unfold Rltb. destruct (Rlt_dec (zr - zs) 0); intuition congruence.
Qed.

(** The decision as the pyranose routine takes it. *)
Lemma handedness_pyranose_cases (float_eq : R -> R -> bool)
    (mm ring_atoms : list MAtomR) (stereo : stereochemistry_pairs)
    (neighbourhood : list MAtomR) :
  let hp := handedness (cremerPople_pyranose float_eq mm ring_atoms stereo neighbourhood) in
  let s6 := nz6_substituent ring_atoms neighbourhood in
  let none6 := ratom_name s6 = "XXX"%string \/ is_part_of_ring s6 ring_atoms = true in
  (hp = "N"%string <-> none6)
  /\ (hp = "D"%string <-> ~ none6 /\ z6_minus_substituent mm ring_atoms neighbourhood < 0)
  /\ (hp = "L"%string <-> ~ none6 /\ ~ z6_minus_substituent mm ring_atoms neighbourhood < 0).
Proof.
  cbv zeta. unfold cremerPople_pyranose; cbv zeta; simpl handedness.
  apply handedness_of_cases.
Qed.

(** The decision as the furanose routine takes it. *)
Lemma handedness_furanose_cases (mm ring_atoms : list MAtomR)
    (stereo : stereochemistry_pairs) (neighbourhood : list MAtomR) :
  let hf := handedness (cremerPople_furanose mm ring_atoms stereo neighbourhood) in
  let s5 := nz5_substituent ring_atoms neighbourhood in
  let none5 := ratom_name s5 = "XXX"%string \/ is_part_of_ring s5 ring_atoms = true in
  (hf = "N"%string <-> none5)
  /\ (hf = "D"%string <-> ~ none5 /\ z5_minus_substituent mm ring_atoms neighbourhood < 0)
  /\ (hf = "L"%string <-> ~ none5 /\ ~ z5_minus_substituent mm ring_atoms neighbourhood < 0).
Proof.
  cbv zeta. unfold cremerPople_furanose; cbv zeta; simpl handedness.
  apply handedness_of_cases.
Qed.

(** C6.  In both routines the handedness is "N" exactly when the chosen
    substituent of the ring-closing carbon is the sentinel "XXX" (none found)
    or is itself part of the ring; otherwise it is "D" when
    [z_ringclose - z_substituent] is negative and "L" when it is not. *)
Theorem handedness_decision (float_eq : R -> R -> bool)
    (mm ring_atoms : list MAtomR) (stereo : stereochemistry_pairs)
    (neighbourhood : list MAtomR) :
  let hp := handedness (cremerPople_pyranose float_eq mm ring_atoms stereo neighbourhood) in
  let hf := handedness (cremerPople_furanose mm ring_atoms stereo neighbourhood) in
  let s6 := nz6_substituent ring_atoms neighbourhood in
  let s5 := nz5_substituent ring_atoms neighbourhood in
  let none6 := ratom_name s6 = "XXX"%string \/ is_part_of_ring s6 ring_atoms = true in
  let none5 := ratom_name s5 = "XXX"%string \/ is_part_of_ring s5 ring_atoms = true in
  ((hp = "N"%string <-> none6)
   /\ (hp = "D"%string <-> ~ none6 /\ z6_minus_substituent mm ring_atoms neighbourhood < 0)
   /\ (hp = "L"%string <-> ~ none6 /\ ~ z6_minus_substituent mm ring_atoms neighbourhood < 0))
  /\ ((hf = "N"%string <-> none5)
      /\ (hf = "D"%string <-> ~ none5 /\ z5_minus_substituent mm ring_atoms neighbourhood < 0)
      /\ (hf = "L"%string <-> ~ none5 /\ ~ z5_minus_substituent mm ring_atoms neighbourhood < 0)).
Proof.
  cbv zeta. split.
  - apply (handedness_pyranose_cases float_eq mm ring_atoms stereo neighbourhood).
  - apply (handedness_furanose_cases mm ring_atoms stereo neighbourhood).
Qed.

(** The loop only ever picks an atom outside the ring: the ring test in the
    handedness decision can only fire on the starting atom. *)
Lemma ring_closing_substituent_outside (same_occupancy : bool) (rc : MAtomR)
    (ring_atoms neighbourhood : list MAtomR) :
  forall subst : MAtomR,
    is_part_of_ring subst ring_atoms = false ->
    is_part_of_ring
      (ring_closing_substituent same_occupancy rc ring_atoms neighbourhood subst)
      ring_atoms = false.
Proof.
  induction neighbourhood as [|nb rest IH]; intros subst Hs; simpl.
  - exact Hs.
  - apply IH.
    destruct (negb (ratom_element nb =? "H")%string
              && negb (ratom_name nb =? ratom_name rc)%string); [|exact Hs].
    destruct (Rltb (vlength (ratom_coord nb) (ratom_coord rc)) 1.8); [|exact Hs].
    destruct (is_part_of_ring nb ring_atoms) eqn:Enb; simpl; [exact Hs|].
    destruct (if same_occupancy
              then Reqb (ratom_occupancy rc) (ratom_occupancy nb) else true);
      [|exact Hs].
    destruct (negb (ratom_element nb =? "C")%string); [exact Enb|].
    destruct (ratom_name subst =? "XXX")%string; [exact Enb | exact Hs].
Qed.

(** With no ring atom called "XXX", a six-membered ring gets handedness "N"
    exactly when no substituent was found. *)
Corollary handedness_N_not_found (float_eq : R -> R -> bool)
    (mm ring_atoms : list MAtomR) (stereo : stereochemistry_pairs)
    (neighbourhood : list MAtomR) :
  is_part_of_ring MAtomR_XXX ring_atoms = false ->
  (handedness (cremerPople_pyranose float_eq mm ring_atoms stereo neighbourhood)
   = "N"%string
   <-> ratom_name (nz6_substituent ring_atoms neighbourhood) = "XXX"%string).
Proof.
  intros Hx.
  destruct (handedness_pyranose_cases float_eq mm ring_atoms stereo neighbourhood)
    as [HN _].
  cbv zeta in HN. rewrite HN.
  pose proof (ring_closing_substituent_outside true (ring_at ring_atoms 5)
                ring_atoms neighbourhood MAtomR_XXX Hx) as Hout.
  fold (nz6_substituent ring_atoms neighbourhood) in Hout.
  rewrite Hout. split; [intros [H|H]; [exact H | discriminate H] | auto].
Qed.

(** *** The routine on a chair *)

(** The sines and cosines of the six angular positions [2 pi j / 6]. *)
Lemma sixfold_angles :
  (sin 0.0 = 0 /\ cos 0.0 = 1)
  /\ (sin ((2.0 * PI) / 6.0) = sqrt 3 / 2 /\ cos ((2.0 * PI) / 6.0) = 1 / 2)
  /\ (sin ((2.0 * PI * 2) / 6.0) = sqrt 3 / 2 /\ cos ((2.0 * PI * 2) / 6.0) = - (1 / 2))
  /\ (sin ((2.0 * PI * 3) / 6.0) = 0 /\ cos ((2.0 * PI * 3) / 6.0) = - 1)
  /\ (sin ((2.0 * PI * 4) / 6.0) = - (sqrt 3 / 2) /\ cos ((2.0 * PI * 4) / 6.0) = - (1 / 2))
  /\ (sin ((2.0 * PI * 5) / 6.0) = - (sqrt 3 / 2) /\ cos ((2.0 * PI * 5) / 6.0) = 1 / 2).
Proof.
  replace 0.0 with 0 by lra.
  replace ((2.0 * PI) / 6.0) with (PI / 3) by lra.
  replace ((2.0 * PI * 2) / 6.0) with (2 * (PI / 3)) by lra.
  replace ((2.0 * PI * 3) / 6.0) with PI by lra.
  replace ((2.0 * PI * 4) / 6.0) with (PI / 3 + PI) by lra.
  replace ((2.0 * PI * 5) / 6.0) with (2 * (PI / 3) + PI) by lra.
  rewrite !neg_sin, !neg_cos.
  rewrite sin_0, cos_0, sin_PI3, cos_PI3, sin_2PI3, cos_2PI3, sin_PI, cos_PI.
  repeat split; lra.
Qed.

Lemma vec_ext (a b : Vec3) :
  vx a = vx b -> vy a = vy b -> vz a = vz b -> a = b.
Proof. destruct a, b; simpl; intros; subst; reflexivity. Qed.

Ltac vec_compute :=
  apply vec_ext;
  unfold cross, vadd, vsub, vscale, vneg, mat_vec, vnull, mat_identity, dot;
  cbn [vx vy vz m00 m01 m02 m10 m11 m12 m20 m21 m22].

(** The unit vector of a vector that points down the z axis. *)
Lemma unit_down (k : R) : 0 < k -> unit (mkVec 0 0 (- k)) = mkVec 0 0 (- 1).
Proof.
  intros Hk. unfold unit, dot. cbn [vx vy vz].
  replace (0 * 0 + 0 * 0 + - k * - k) with (k * k) by ring.
  rewrite sqrt_square by lra.
  vec_compute; field; lra.
Qed.

Ltac chair_atoms :=
  unfold recentre, chair_monomer, chair_ring, nz, ring_at, ratom, transform;
  cbn [map app nth coord_of ratom_name ratom_coord ratom_element ratom_occupancy
       String.eqb Ascii.eqb Bool.eqb].

Lemma chair_ring_centre : ring_centre_pyranose chair_monomer chair_ring = vnull.
Proof.
  unfold ring_centre_pyranose. chair_atoms.
  vec_compute; lra.
Qed.

(** Recentring on the origin moves nothing. *)
Lemma shift_null (v : Vec3) : vadd (mat_vec mat_identity v) (vneg vnull) = v.
Proof.
  destruct v as [x y z]. apply vec_ext;
    unfold vadd, mat_vec, vneg, vnull, mat_identity; cbn; ring.
Qed.

Lemma chair_normal :
  mean_plane_normal_pyranose (recentre vnull chair_monomer) chair_ring = mkVec 0 0 (- 1).
Proof.
  unfold mean_plane_normal_pyranose. cbv zeta.
  destruct sixfold_angles as ((S0 & C0) & (S1 & C1) & (S2 & C2) & (S3 & C3)
                              & (S4 & C4) & (S5 & C5)).
  rewrite S0, C0, S1, C1, S2, C2, S3, C3, S4, C4, S5, C5.
  chair_atoms. rewrite !shift_null.
  match goal with
  | |- unit (cross ?a ?b) = _ =>
      assert (Ha : a = mkVec 0 (2.4 * sqrt 3) 0) by (vec_compute; lra);
      assert (Hb : b = mkVec 4.2 0 0) by (vec_compute; lra);
      rewrite Ha, Hb
  end.
  rewrite <- (unit_down (10.08 * sqrt 3)).
  - f_equal. vec_compute; lra.
  - assert (0 < sqrt 3) by (apply sqrt_lt_R0; lra). lra.
Qed.

(** On [chair_ring] the six projections alternate between -0.2 and 0.2, and
    the squared puckering amplitude is 6 * 0.2^2. *)
Example chair_projections :
  (z_pyranose chair_monomer chair_ring 0 = - 0.2
   /\ z_pyranose chair_monomer chair_ring 1 = 0.2
   /\ z_pyranose chair_monomer chair_ring 2 = - 0.2
   /\ z_pyranose chair_monomer chair_ring 3 = 0.2
   /\ z_pyranose chair_monomer chair_ring 4 = - 0.2
   /\ z_pyranose chair_monomer chair_ring 5 = 0.2)
  /\ amplitude_sq_pyranose chair_monomer chair_ring = 0.24.
Proof.
  assert (Hz : z_pyranose chair_monomer chair_ring 0 = - 0.2
               /\ z_pyranose chair_monomer chair_ring 1 = 0.2
               /\ z_pyranose chair_monomer chair_ring 2 = - 0.2
               /\ z_pyranose chair_monomer chair_ring 3 = 0.2
               /\ z_pyranose chair_monomer chair_ring 4 = - 0.2
               /\ z_pyranose chair_monomer chair_ring 5 = 0.2).
  { unfold z_pyranose. cbv zeta. rewrite chair_ring_centre, chair_normal.
    chair_atoms. rewrite !shift_null.
    unfold dot. cbn [vx vy vz].
    repeat split; lra. }
  split; [exact Hz|].
  unfold amplitude_sq_pyranose.
  destruct Hz as (H0 & H1 & H2 & H3 & H4 & H5).
  rewrite H0, H1, H2, H3, H4, H5. lra.
Qed.

Lemma Rltb_true (a b : R) : a < b -> Rltb a b = true.
Proof. intros H. unfold Rltb. destruct (Rlt_dec a b); [reflexivity | contradiction]. Qed.

Lemma Reqb_refl (a : R) : Reqb a a = true.
Proof. unfold Reqb. destruct (Req_dec_T a a); [reflexivity | congruence]. Qed.

Lemma vlength_lt (a b : Vec3) (c : R) :
  0 < c -> dot (vsub a b) (vsub a b) < c * c -> vlength a b < c.
Proof.
  intros Hc H. unfold vlength.
  rewrite <- (sqrt_square c) by lra.
  apply sqrt_lt_1; [ | nra | exact H].
  unfold dot. nra.
Qed.

(** The atoms around C5 of the chair: its ring neighbour C4 and the
    exocyclic C6. *)
Definition chair_neighbourhood : list MAtomR :=
  [ ratom "C4" "C" (-0.7) (-1.2) 0.2; ratom "C6" "C" 1.3 (-2.4) 0.4 ].

(** On the chair the loop skips the ring atom C4 and picks C6; C5 lies 0.2
    and C6 -0.4 along the normal, the difference 0.6 is not negative, and the
    handedness is "L". *)
Example chair_handedness (float_eq : R -> R -> bool) (stereo : stereochemistry_pairs) :
  ratom_name (nz6_substituent chair_ring chair_neighbourhood) = "C6"%string
  /\ z6_minus_substituent chair_monomer chair_ring chair_neighbourhood = 0.6
  /\ handedness (cremerPople_pyranose float_eq chair_monomer chair_ring stereo
                   chair_neighbourhood) = "L"%string.
Proof.
  assert (Hs : nz6_substituent chair_ring chair_neighbourhood
               = ratom "C6" "C" 1.3 (-2.4) 0.4).
  { unfold nz6_substituent, chair_neighbourhood, chair_ring, ring_at, ratom.
    cbn [ring_closing_substituent nth ratom_name ratom_element ratom_coord
         ratom_occupancy is_part_of_ring String.eqb Ascii.eqb Bool.eqb negb andb].
    rewrite !Rltb_true, Reqb_refl.
    - reflexivity.
    - apply vlength_lt; [lra|]. unfold dot, vsub; cbn [vx vy vz]. lra.
    - apply vlength_lt; [lra|]. unfold dot, vsub; cbn [vx vy vz]. lra. }
  assert (Hd : z6_minus_substituent chair_monomer chair_ring chair_neighbourhood = 0.6).
  { unfold z6_minus_substituent. cbv zeta.
    destruct chair_projections as [(_ & _ & _ & _ & _ & H5) _]. rewrite H5.
    rewrite Hs, chair_ring_centre, chair_normal.
    unfold transform, ratom; cbn [ratom_coord]. rewrite shift_null.
    unfold dot; cbn [vx vy vz]. lra. }
  split; [rewrite Hs; reflexivity|]. split; [exact Hd|].
  destruct (handedness_pyranose_cases float_eq chair_monomer chair_ring stereo
              chair_neighbourhood) as (_ & _ & HL).
  cbv zeta in HL. apply HL. rewrite Hs, Hd. split.
  - intros [H|H]; [discriminate H|].
    unfold chair_ring, ratom in H.
    cbn [is_part_of_ring ratom_name String.eqb Ascii.eqb Bool.eqb] in H.
    discriminate H.
  - lra.
Qed.

(** ** Further properties of the Cremer-Pople routines *)

(** The ring atom at position [k] is an atom of the monomer. *)
Definition ring_atom_found (mm ring_atoms : list MAtomR) (k : nat) : bool :=
  existsb (fun a => (ratom_name a =? nz ring_atoms k)%string) mm.

Lemma coord_of_recentre (centre : Vec3) (mm : list MAtomR) (name : string) :
  coord_of (recentre centre mm) name
  = vsub (coord_of mm name)
         (if existsb (fun a => (ratom_name a =? name)%string) mm then centre else vnull).
Proof.
  unfold recentre. induction mm as [|a rest IH]; simpl.
  - vec_ring.
  - destruct (ratom_name a =? name)%string; simpl; [|exact IH].
    unfold transform; simpl. vec_ring.
Qed.

Lemma dot_vadd_l (a b c : Vec3) : dot (vadd a b) c = dot a c + dot b c.
Proof. unfold dot, vadd; simpl. ring. Qed.

Lemma dot_vscale_l (a b : Vec3) (s : R) : dot (vscale a s) b = s * dot a b.
Proof. unfold dot, vscale; simpl. ring. Qed.

Lemma dot_vnull_l (a : Vec3) : dot vnull a = 0.
Proof. unfold dot, vnull; simpl. ring. Qed.

Lemma dot_cross_l (a b : Vec3) : dot a (cross a b) = 0.
Proof. unfold dot, cross; simpl. ring. Qed.

Lemma dot_cross_r (a b : Vec3) : dot b (cross a b) = 0.
Proof. unfold dot, cross; simpl. ring. Qed.

(** X19.  The mean plane is the plane of Cremer and Pople: the six projections
    [z(k+1)], weighted with the sines of the angular positions [2 pi k / 6],
    sum to zero, and so they do weighted with the cosines. *)
Theorem mean_plane_conditions (mm ring_atoms : list MAtomR) :
  let z := z_pyranose mm ring_atoms in
  z 0%nat * sin 0.0 + z 1%nat * sin ((2.0 * PI) / 6.0)
  + z 2%nat * sin ((2.0 * PI * 2) / 6.0) + z 3%nat * sin ((2.0 * PI * 3) / 6.0)
  + z 4%nat * sin ((2.0 * PI * 4) / 6.0) + z 5%nat * sin ((2.0 * PI * 5) / 6.0) = 0
  /\ z 0%nat * cos 0.0 + z 1%nat * cos ((2.0 * PI) / 6.0)
     + z 2%nat * cos ((2.0 * PI * 2) / 6.0) + z 3%nat * cos ((2.0 * PI * 3) / 6.0)
     + z 4%nat * cos ((2.0 * PI * 4) / 6.0) + z 5%nat * cos ((2.0 * PI * 5) / 6.0) = 0.
Proof.
  cbv zeta. unfold z_pyranose, mean_plane_normal_pyranose. cbv zeta.
  set (mm' := recentre (ring_centre_pyranose mm ring_atoms) mm).
  set (p := fun k => coord_of mm' (nz ring_atoms k)).
  change (coord_of mm' (nz ring_atoms 0)) with (p 0%nat).
  change (coord_of mm' (nz ring_atoms 1)) with (p 1%nat).
  change (coord_of mm' (nz ring_atoms 2)) with (p 2%nat).
  change (coord_of mm' (nz ring_atoms 3)) with (p 3%nat).
  change (coord_of mm' (nz ring_atoms 4)) with (p 4%nat).
  change (coord_of mm' (nz ring_atoms 5)) with (p 5%nat).
  match goal with
  | |- context [unit (cross ?a ?b)] => set (rPrime := a); set (r2Prime := b)
  end.
  unfold unit. rewrite !dot_vscale_r.
  set (n := cross rPrime r2Prime).
  assert (Hs : dot rPrime n = 0) by apply dot_cross_l.
  assert (Hc : dot r2Prime n = 0) by apply dot_cross_r.
  unfold rPrime in Hs. unfold r2Prime in Hc.
  rewrite !dot_vadd_l, !dot_vscale_l, dot_vnull_l in Hs, Hc.
  split.
  - transitivity (1 / sqrt (dot n n) * 0); [|ring]. rewrite <- Hs. ring.
  - transitivity (1 / sqrt (dot n n) * 0); [|ring]. rewrite <- Hc. ring.
Qed.

Lemma recentred_sum (mm ring_atoms : list MAtomR) :
  (forall k : nat, (k < 6)%nat -> ring_atom_found mm ring_atoms k = true) ->
  let p k := coord_of (recentre (ring_centre_pyranose mm ring_atoms) mm)
                      (nz ring_atoms k) in
  vadd (vadd (vadd (vadd (vadd (p 0%nat) (p 1%nat)) (p 2%nat)) (p 3%nat)) (p 4%nat))
       (p 5%nat) = vnull.
Proof.
  intros Hfound. cbv beta zeta. rewrite !coord_of_recentre.
  unfold ring_atom_found in Hfound.
  rewrite !Hfound by lia.
  unfold ring_centre_pyranose. cbv zeta.
  apply vec_ext; unfold vadd, vsub, vnull; cbn [vx vy vz]; field.
Qed.

(** X20.  With the six ring atoms in the monomer, the projections sum to zero:
    the ring centre lies in the mean plane. *)
Theorem projections_sum_zero (mm ring_atoms : list MAtomR) :
  (forall k : nat, (k < 6)%nat -> ring_atom_found mm ring_atoms k = true) ->
  z_pyranose mm ring_atoms 0 + z_pyranose mm ring_atoms 1 + z_pyranose mm ring_atoms 2
  + z_pyranose mm ring_atoms 3 + z_pyranose mm ring_atoms 4 + z_pyranose mm ring_atoms 5
  = 0.
Proof.
  intros Hfound. pose proof (recentred_sum mm ring_atoms Hfound) as Hsum.
  cbv beta zeta in Hsum. unfold z_pyranose. cbv beta zeta.
  rewrite <- !dot_vadd_l. rewrite Hsum. apply dot_vnull_l.
Qed.

Lemma chair_ring_found :
  forall k : nat, (k < 6)%nat -> ring_atom_found chair_monomer chair_ring k = true.
Proof.
  intros k Hk. do 6 (destruct k as [|k]; [reflexivity|]). lia.
Qed.

Lemma projections_sum_zero_witness :
  z_pyranose chair_monomer chair_ring 0 + z_pyranose chair_monomer chair_ring 1
  + z_pyranose chair_monomer chair_ring 2 + z_pyranose chair_monomer chair_ring 3
  + z_pyranose chair_monomer chair_ring 4 + z_pyranose chair_monomer chair_ring 5 = 0.
Proof.
  apply projections_sum_zero.
  intros k Hk. do 6 (destruct k as [|k]; [reflexivity|]). lia.
Defined.

(** The alternating sum of six numbers is bounded by their squares. *)
Lemma alternating_sum_bound (a b c d e f : R) :
  (a + c + e - b - d - f) ^ 2 <= 6 * (a ^ 2 + b ^ 2 + c ^ 2 + d ^ 2 + e ^ 2 + f ^ 2).
Proof.
  assert (H : 6 * (a ^ 2 + b ^ 2 + c ^ 2 + d ^ 2 + e ^ 2 + f ^ 2)
              - (a + c + e - b - d - f) ^ 2
              = (a + b) ^ 2 + (a - c) ^ 2 + (a + d) ^ 2 + (a - e) ^ 2 + (a + f) ^ 2
                + (b + c) ^ 2 + (b - d) ^ 2 + (b + e) ^ 2 + (b - f) ^ 2
                + (c + d) ^ 2 + (c - e) ^ 2 + (c + f) ^ 2
                + (d + e) ^ 2 + (d - f) ^ 2 + (e + f) ^ 2) by ring.
  pose proof (pow2_ge_0 (a + b)). pose proof (pow2_ge_0 (a - c)).
  pose proof (pow2_ge_0 (a + d)). pose proof (pow2_ge_0 (a - e)).
  pose proof (pow2_ge_0 (a + f)). pose proof (pow2_ge_0 (b + c)).
  pose proof (pow2_ge_0 (b - d)). pose proof (pow2_ge_0 (b + e)).
  pose proof (pow2_ge_0 (b - f)). pose proof (pow2_ge_0 (c + d)).
  pose proof (pow2_ge_0 (c - e)). pose proof (pow2_ge_0 (c + f)).
  pose proof (pow2_ge_0 (d + e)). pose proof (pow2_ge_0 (d - f)).
  pose proof (pow2_ge_0 (e + f)). lra.
Qed.

Lemma sqrt_pow2 (x : R) : 0 <= x -> sqrt x ^ 2 = x.
Proof. intros Hx. rewrite <- Rsqr_pow2. apply Rsqr_sqrt. exact Hx. Qed.

Lemma pyranose_theta_q2 (float_eq : R -> R -> bool)
    (mm ring_atoms : list MAtomR) (stereo : stereochemistry_pairs)
    (neighbourhood : list MAtomR) :
  theta (cremerPople_pyranose float_eq mm ring_atoms stereo neighbourhood)
  = acos (q3 (cremerPople_pyranose float_eq mm ring_atoms stereo neighbourhood)
          / totalPuckering (cremerPople_pyranose float_eq mm ring_atoms stereo
                              neighbourhood)) * (180 / PI)
  /\ q2 (cremerPople_pyranose float_eq mm ring_atoms stereo neighbourhood)
     = totalPuckering (cremerPople_pyranose float_eq mm ring_atoms stereo neighbourhood)
       * sin (acos (q3 (cremerPople_pyranose float_eq mm ring_atoms stereo neighbourhood)
                    / totalPuckering (cremerPople_pyranose float_eq mm ring_atoms stereo
                                        neighbourhood))).
Proof.
  unfold cremerPople_pyranose; cbv zeta; simpl.
  replace (180.0 / PI) with (180 / PI) by (f_equal; lra).
  split; reflexivity.
Qed.

(** X21.  On a ring that is not planar (the amplitude is not zero) the two
    amplitudes split the total one, [q2^2 + q3^2 = Q^2]; [q3] lies between
    [-Q] and [Q], [q2] is not negative and [theta] lies between 0 and 180
    degrees. *)
Theorem pyranose_amplitudes (float_eq : R -> R -> bool)
    (mm ring_atoms : list MAtomR) (stereo : stereochemistry_pairs)
    (neighbourhood : list MAtomR) :
  let r := cremerPople_pyranose float_eq mm ring_atoms stereo neighbourhood in
  totalPuckering r <> 0 ->
  q2 r ^ 2 + q3 r ^ 2 = totalPuckering r ^ 2
  /\ - totalPuckering r <= q3 r <= totalPuckering r
  /\ 0 <= q2 r
  /\ 0 <= theta r <= 180.
Proof.
  cbv zeta. intros HQ.
  destruct (pyranose_theta_q2 float_eq mm ring_atoms stereo neighbourhood)
    as (Htheta & Hq2).
  pose proof (totalPuckering_sq float_eq mm ring_atoms stereo neighbourhood) as HQ2.
  set (r := cremerPople_pyranose float_eq mm ring_atoms stereo neighbourhood) in *.
  assert (Hq3 : q3 r ^ 2 <= totalPuckering r ^ 2).
  { rewrite HQ2. unfold r, cremerPople_pyranose; cbv zeta; simpl q3.
    unfold amplitude_sq_pyranose.
    rewrite Rpow_mult_distr, sqrt_pow2 by lra.
    pose proof (alternating_sum_bound
                  (z_pyranose mm ring_atoms 0) (z_pyranose mm ring_atoms 1)
                  (z_pyranose mm ring_atoms 2) (z_pyranose mm ring_atoms 3)
                  (z_pyranose mm ring_atoms 4) (z_pyranose mm ring_atoms 5)) as Hb.
    replace (z_pyranose mm ring_atoms 2 + z_pyranose mm ring_atoms 4
             + z_pyranose mm ring_atoms 0 - z_pyranose mm ring_atoms 1
             - z_pyranose mm ring_atoms 3 - z_pyranose mm ring_atoms 5)
      with (z_pyranose mm ring_atoms 0 + z_pyranose mm ring_atoms 2
            + z_pyranose mm ring_atoms 4 - z_pyranose mm ring_atoms 1
            - z_pyranose mm ring_atoms 3 - z_pyranose mm ring_atoms 5) by ring.
    lra. }
  assert (HQpos : 0 < totalPuckering r).
  { assert (0 <= totalPuckering r) by (unfold r, cremerPople_pyranose; cbv zeta;
                                        simpl totalPuckering; apply sqrt_pos).
    lra. }
  assert (Hrange : - totalPuckering r <= q3 r <= totalPuckering r) by nra.
  set (x := q3 r / totalPuckering r) in *.
  assert (Hx : q3 r = x * totalPuckering r) by (unfold x; field; exact HQ).
  assert (Hx1 : -1 <= x <= 1).
  { split.
    - apply Rmult_le_reg_r with (totalPuckering r); [exact HQpos|]. lra.
    - apply Rmult_le_reg_r with (totalPuckering r); [exact HQpos|]. lra. }
  pose proof (sin_acos x Hx1) as Hsin.
  assert (Hx2 : 0 <= 1 - x²) by (unfold Rsqr; nra).
  pose proof (sqrt_pos (1 - x²)) as Hs0.
  pose proof (sqrt_pow2 (1 - x²) Hx2) as Hs2.
  rewrite Hsin in Hq2.
  split; [|split; [exact Hrange|split]].
  - rewrite Hq2, Hx, !Rpow_mult_distr, Hs2. unfold Rsqr. ring.
  - rewrite Hq2. apply Rmult_le_pos; [lra | exact Hs0].
  - rewrite Htheta. pose proof (acos_bound x) as Hacos. pose proof PI_RGT_0 as Hpi.
    assert (Hk : 0 < 180 / PI) by (apply Rdiv_lt_0_compat; lra).
    split.
    + apply Rmult_le_pos; lra.
    + replace 180 with (PI * (180 / PI)) at 2 by (field; apply PI_neq0).
      apply Rmult_le_compat_r; lra.
Qed.

Lemma pyranose_amplitudes_witness :
  let r := cremerPople_pyranose Reqb chair_monomer chair_ring
             ((MAtomR_XXX, MAtomR_XXX), (MAtomR_XXX, MAtomR_XXX)) chair_neighbourhood in
  q2 r ^ 2 + q3 r ^ 2 = totalPuckering r ^ 2
  /\ - totalPuckering r <= q3 r <= totalPuckering r
  /\ 0 <= q2 r
  /\ 0 <= theta r <= 180.
Proof.
  apply pyranose_amplitudes.
  intros H0.
  pose proof (totalPuckering_sq Reqb chair_monomer chair_ring
                ((MAtomR_XXX, MAtomR_XXX), (MAtomR_XXX, MAtomR_XXX))
                chair_neighbourhood) as H.
  rewrite H0 in H. destruct chair_projections as [_ Ha]. rewrite Ha in H. lra.
Defined.

(** *** Translations *)

(** The monomer moved by the vector [t]. *)
Definition translate_atoms (t : Vec3) (mm : list MAtomR) : list MAtomR :=
  map (transform mat_identity t) mm.

Lemma nz_translate (t : Vec3) (ring_atoms : list MAtomR) (k : nat) :
  nz (translate_atoms t ring_atoms) k = nz ring_atoms k.
Proof.
  unfold nz, ring_at, translate_atoms.
  revert k. induction ring_atoms as [|a rest IH]; intros [|k]; simpl;
    try reflexivity.
  apply IH.
Qed.

Lemma found_translate (t : Vec3) (mm : list MAtomR) (name : string) :
  existsb (fun a => (ratom_name a =? name)%string) (translate_atoms t mm)
  = existsb (fun a => (ratom_name a =? name)%string) mm.
Proof.
  unfold translate_atoms. induction mm as [|a rest IH]; simpl; [reflexivity|].
  rewrite IH. reflexivity.
Qed.

Lemma coord_of_translate (t : Vec3) (mm : list MAtomR) (name : string) :
  coord_of (translate_atoms t mm) name
  = vadd (coord_of mm name)
         (if existsb (fun a => (ratom_name a =? name)%string) mm then t else vnull).
Proof.
  unfold translate_atoms. induction mm as [|a rest IH]; simpl.
  - vec_ring.
  - destruct (ratom_name a =? name)%string; simpl; [|exact IH].
    vec_ring.
Qed.

Lemma ring_centre_translate (t : Vec3) (mm ring_atoms : list MAtomR) :
  (forall k : nat, (k < 6)%nat -> ring_atom_found mm ring_atoms k = true) ->
  ring_centre_pyranose (translate_atoms t mm) (translate_atoms t ring_atoms)
  = vadd (ring_centre_pyranose mm ring_atoms) t.
Proof.
  intros Hfound. unfold ring_atom_found in Hfound.
  unfold ring_centre_pyranose. cbv beta zeta.
  rewrite !nz_translate, !coord_of_translate, !Hfound by lia.
  apply vec_ext; unfold vadd; cbn [vx vy vz]; field.
Qed.

Lemma recentred_translate (t : Vec3) (mm ring_atoms : list MAtomR) (k : nat) :
  (forall k : nat, (k < 6)%nat -> ring_atom_found mm ring_atoms k = true) ->
  coord_of (recentre (ring_centre_pyranose (translate_atoms t mm)
                                           (translate_atoms t ring_atoms))
                     (translate_atoms t mm))
           (nz (translate_atoms t ring_atoms) k)
  = coord_of (recentre (ring_centre_pyranose mm ring_atoms) mm) (nz ring_atoms k).
Proof.
  intros Hfound. rewrite ring_centre_translate by exact Hfound.
  rewrite nz_translate, !coord_of_recentre, coord_of_translate, found_translate.
  destruct (existsb _ mm); apply vec_ext; unfold vadd, vsub, vnull;
    cbn [vx vy vz]; ring.
Qed.

Lemma normal_translate (t : Vec3) (mm ring_atoms : list MAtomR) :
  (forall k : nat, (k < 6)%nat -> ring_atom_found mm ring_atoms k = true) ->
  mean_plane_normal_pyranose
    (recentre (ring_centre_pyranose (translate_atoms t mm)
                                    (translate_atoms t ring_atoms))
              (translate_atoms t mm))
    (translate_atoms t ring_atoms)
  = mean_plane_normal_pyranose
      (recentre (ring_centre_pyranose mm ring_atoms) mm) ring_atoms.
Proof.
  intros Hfound. unfold mean_plane_normal_pyranose. cbv beta zeta.
  rewrite !(recentred_translate t mm ring_atoms) by exact Hfound.
  reflexivity.
Qed.

(** X22.  Moving the whole monomer leaves the projections of the ring atoms, and
    with them the puckering amplitude, unchanged, when the six ring atoms
    are atoms of the monomer. *)
Theorem projections_translation_invariant (t : Vec3) (mm ring_atoms : list MAtomR) :
  (forall k : nat, (k < 6)%nat -> ring_atom_found mm ring_atoms k = true) ->
  (forall k : nat,
      z_pyranose (translate_atoms t mm) (translate_atoms t ring_atoms) k
      = z_pyranose mm ring_atoms k)
  /\ amplitude_sq_pyranose (translate_atoms t mm) (translate_atoms t ring_atoms)
     = amplitude_sq_pyranose mm ring_atoms.
Proof.
  intros Hfound.
  assert (Hz : forall k : nat,
             z_pyranose (translate_atoms t mm) (translate_atoms t ring_atoms) k
             = z_pyranose mm ring_atoms k).
  { intros k. unfold z_pyranose. cbv zeta.
    rewrite normal_translate, recentred_translate by exact Hfound. reflexivity. }
  split; [exact Hz|].
  unfold amplitude_sq_pyranose. rewrite !Hz. reflexivity.
Qed.

Lemma projections_translation_invariant_witness :
  (forall k : nat,
      z_pyranose (translate_atoms (mkVec 10 (-4) 2.5) chair_monomer)
                 (translate_atoms (mkVec 10 (-4) 2.5) chair_ring) k
      = z_pyranose chair_monomer chair_ring k)
  /\ amplitude_sq_pyranose (translate_atoms (mkVec 10 (-4) 2.5) chair_monomer)
                           (translate_atoms (mkVec 10 (-4) 2.5) chair_ring)
     = amplitude_sq_pyranose chair_monomer chair_ring.
Proof.
  apply projections_translation_invariant. exact chair_ring_found.
Defined.

(** *** The substituent of the ring-closing carbon *)

(** The tests an atom of the neighbourhood passes to be looked at: not a
    hydrogen, not the ring-closing carbon itself, closer than 1.8 A, not a
    ring atom and (six-membered rings) of the same occupancy. *)
Definition substituent_candidate (same_occupancy : bool) (rc : MAtomR)
    (ring_atoms : list MAtomR) (nb : MAtomR) : bool :=
  negb (ratom_element nb =? "H")%string
  && negb (ratom_name nb =? ratom_name rc)%string
  && Rltb (vlength (ratom_coord nb) (ratom_coord rc)) 1.8
  && negb (is_part_of_ring nb ring_atoms)
  && (if same_occupancy then Reqb (ratom_occupancy rc) (ratom_occupancy nb) else true).

Definition substituent_heteroatom (same_occupancy : bool) (rc : MAtomR)
    (ring_atoms : list MAtomR) (nb : MAtomR) : bool :=
  substituent_candidate same_occupancy rc ring_atoms nb
  && negb (ratom_element nb =? "C")%string.

(** The last candidate that is not a carbon, else the first candidate, else
    the placeholder. *)
Definition preferred_substituent (same_occupancy : bool) (rc : MAtomR)
    (ring_atoms neighbourhood : list MAtomR) : MAtomR :=
  match filter (substituent_heteroatom same_occupancy rc ring_atoms) neighbourhood with
  | [] => hd MAtomR_XXX
             (filter (substituent_candidate same_occupancy rc ring_atoms) neighbourhood)
  | h :: hs => last (h :: hs) MAtomR_XXX
  end.

Lemma ring_closing_substituent_step (same_occupancy : bool) (rc : MAtomR)
    (ring_atoms : list MAtomR) (nb : MAtomR) (rest : list MAtomR) (subst : MAtomR) :
  ring_closing_substituent same_occupancy rc ring_atoms (nb :: rest) subst
  = ring_closing_substituent same_occupancy rc ring_atoms rest
      (if substituent_candidate same_occupancy rc ring_atoms nb
       then if negb (ratom_element nb =? "C")%string then nb
            else if (ratom_name subst =? "XXX")%string then nb else subst
       else subst).
Proof.
  cbn [ring_closing_substituent]. unfold substituent_candidate.
  destruct (negb (ratom_element nb =? "H")%string);
    destruct (negb (ratom_name nb =? ratom_name rc)%string);
    destruct (Rltb (vlength (ratom_coord nb) (ratom_coord rc)) 1.8);
    destruct (negb (is_part_of_ring nb ring_atoms));
    destruct (if same_occupancy then Reqb (ratom_occupancy rc) (ratom_occupancy nb)
              else true);
    reflexivity.
Qed.

Lemma last_default (A : Type) (l : list A) (a d d' : A) :
  last (a :: l) d = last (a :: l) d'.
Proof.
  revert a. induction l as [|b l IH]; intros a; [reflexivity|].
  change (last (b :: l) d = last (b :: l) d'). apply IH.
Qed.

(** Once an atom has been chosen, only a later candidate that is not a
    carbon replaces it. *)
Lemma ring_closing_substituent_chosen (same_occupancy : bool) (rc : MAtomR)
    (ring_atoms neighbourhood : list MAtomR) (subst : MAtomR) :
  Forall (fun nb => ratom_name nb <> "XXX"%string) neighbourhood ->
  ratom_name subst <> "XXX"%string ->
  ring_closing_substituent same_occupancy rc ring_atoms neighbourhood subst
  = last (filter (substituent_heteroatom same_occupancy rc ring_atoms) neighbourhood)
         subst.
Proof.
  intros Hnames. revert subst.
  induction Hnames as [|nb rest Hnb Hrest IH]; intros subst Hsubst; [reflexivity|].
  rewrite ring_closing_substituent_step. cbn [filter].
  unfold substituent_heteroatom at 1.
  apply String.eqb_neq in Hsubst. rewrite Hsubst.
  destruct (substituent_candidate same_occupancy rc ring_atoms nb);
    cbn [andb]; [|apply IH; apply String.eqb_neq; exact Hsubst].
  destruct (negb (ratom_element nb =? "C")%string).
  - rewrite IH by exact Hnb.
    destruct (filter (substituent_heteroatom same_occupancy rc ring_atoms) rest)
      as [|h hs]; [reflexivity|].
    change (last (h :: hs) nb = last (h :: hs) subst). apply last_default.
  - apply IH. apply String.eqb_neq; exact Hsubst.
Qed.

(** X23.  Which atom the loop over the neighbourhood ends with, when no atom of
    the neighbourhood carries the placeholder name: the last candidate that
    is not a carbon; without one, the first candidate; without any, the
    placeholder "XXX". *)
Theorem ring_closing_substituent_preference (same_occupancy : bool) (rc : MAtomR)
    (ring_atoms neighbourhood : list MAtomR) :
  Forall (fun nb => ratom_name nb <> "XXX"%string) neighbourhood ->
  ring_closing_substituent same_occupancy rc ring_atoms neighbourhood MAtomR_XXX
  = preferred_substituent same_occupancy rc ring_atoms neighbourhood.
Proof.
  unfold preferred_substituent.
  induction 1 as [|nb rest Hnb Hrest IH]; [reflexivity|].
  rewrite ring_closing_substituent_step. cbn [filter].
  unfold substituent_heteroatom at 1.
  destruct (substituent_candidate same_occupancy rc ring_atoms nb) eqn:Hc;
    cbn [andb]; [|exact IH].
  change (ratom_name MAtomR_XXX =? "XXX")%string with true. cbv iota.
  destruct (negb (ratom_element nb =? "C")%string);
    rewrite ring_closing_substituent_chosen by assumption;
    (destruct (filter (substituent_heteroatom same_occupancy rc ring_atoms) rest)
       as [|h hs]; [reflexivity|]);
    exact (last_default _ hs h nb MAtomR_XXX).
Qed.

Lemma ring_closing_substituent_preference_witness :
  ring_closing_substituent true (ring_at chair_ring 5) chair_ring chair_neighbourhood
                           MAtomR_XXX
  = preferred_substituent true (ring_at chair_ring 5) chair_ring chair_neighbourhood.
Proof.
  apply ring_closing_substituent_preference.
  repeat constructor; discriminate.
Defined.

(** *** The two descriptors and the direction of the normal *)

Lemma Rltb_opp (a b : R) : Rltb (- a) (- b) = Rgtb a b.
Proof.
  unfold Rltb, Rgtb. destruct (Rlt_dec (- a) (- b)), (Rlt_dec b a);
    try reflexivity; exfalso; lra.
Qed.

Lemma Rgtb_opp (a b : R) : Rgtb (- a) (- b) = Rltb a b.
Proof.
  unfold Rltb, Rgtb. destruct (Rlt_dec (- b) (- a)), (Rlt_dec a b);
    try reflexivity; exfalso; lra.
Qed.

(** X24.  Turning the normal of the mean plane round negates every projection.
    The anomer does not change; a handedness "D" becomes "L", a handedness
    "L" becomes "D" unless the two projections are equal, and "N" stays. *)
Theorem normal_reversal (lurd_reverse : bool) (ring_atoms : list MAtomR)
    (subst : MAtomR) (zac zas zcc zcs z_ring_close z_substituent : R) :
  anomer_of lurd_reverse (- zac) (- zas) (- zcc) (- zcs)
  = anomer_of lurd_reverse zac zas zcc zcs
  /\ (handedness_of ring_atoms subst z_ring_close z_substituent = "N"%string
      <-> handedness_of ring_atoms subst (- z_ring_close) (- z_substituent)
          = "N"%string)
  /\ (handedness_of ring_atoms subst z_ring_close z_substituent = "D"%string
      -> handedness_of ring_atoms subst (- z_ring_close) (- z_substituent)
         = "L"%string)
  /\ (handedness_of ring_atoms subst z_ring_close z_substituent = "L"%string
      -> z_ring_close <> z_substituent
      -> handedness_of ring_atoms subst (- z_ring_close) (- z_substituent)
         = "D"%string).
Proof.
  split.
  - unfold anomer_of. rewrite !Rltb_opp, !Rgtb_opp.
    destruct (Rgtb zas zac), (Rgtb zcs zcc), (Rltb zas zac), (Rltb zcs zcc);
      reflexivity.
  - unfold handedness_of.
    destruct (is_part_of_ring subst ring_atoms || (ratom_name subst =? "XXX")%string).
    + repeat split; intros; try reflexivity; discriminate.
    + unfold Rltb.
      destruct (Rlt_dec (z_ring_close - z_substituent) 0),
               (Rlt_dec (- z_ring_close - - z_substituent) 0);
        repeat split; intros; try reflexivity; try discriminate; exfalso; lra.
Qed.

(** ** Ring geometry *)

(** [MSugar::examine_ring]: the bond lengths and bond angles of the ring and
    their deviations from the ideal values.  The torsions it also collects
    enter neither the deviations nor the returned value. *)

Section ExamineRing.

(** [clipper::Util::rad2d]. *)
Variable rad2d : R -> R.

(** The angle at [centre] between the directions to [a] and to [b]. *)
Definition bond_angle (a centre b : Vec3) : R :=
  let vec_a := vsub a centre in
  let vec_b := vsub b centre in
  let norm_a := sqrt (vx vec_a ^ 2 + vy vec_a ^ 2 + vz vec_a ^ 2) in
  let norm_b := sqrt (vx vec_b ^ 2 + vy vec_b ^ 2 + vz vec_b ^ 2) in
  rad2d (acos (dot vec_a vec_b / (norm_a * norm_b))).

(** The value of the loop counter [i] after the loop over the inner ring
    atoms. *)
Definition last_index (sugar_ring_elements : list MAtomR) : nat :=
  Nat.max 1 (List.length sugar_ring_elements - 1).

Definition sugar_ring_bonds (sugar_ring_elements : list MAtomR) : list R :=
  let n := List.length sugar_ring_elements in
  let at_ k := ratom_coord (ring_at sugar_ring_elements k) in
  let i := last_index sugar_ring_elements in
  ([vlength (at_ (n - 1)%nat) (at_ 0%nat)]
   ++ map (fun i => vlength (at_ (i + 1)%nat) (at_ i)) (seq 1 (n - 2))
   ++ [vlength (at_ 0%nat) (at_ i)])%list.

Definition sugar_ring_angles (sugar_ring_elements : list MAtomR) : list R :=
  let n := List.length sugar_ring_elements in
  let at_ k := ratom_coord (ring_at sugar_ring_elements k) in
  let i := last_index sugar_ring_elements in
  ([bond_angle (at_ (n - 1)%nat) (at_ 0%nat) (at_ 1%nat)]
   ++ map (fun i => bond_angle (at_ (i - 1)%nat) (at_ i) (at_ (i + 1)%nat))
          (seq 1 (n - 2))
   ++ [bond_angle (at_ (i - 1)%nat) (at_ i) (at_ 0%nat)])%list.

(** The loop that adds the squared deviations up: the entries at the first
    position and at the last position [size - 1] are compared with
    [first_last], the others with [other]; [count] entries are visited. *)
Definition squared_deviations (values : list R) (count size : nat)
    (first_last other : R) : R :=
  fold_left
    (fun rmsd j =>
       if (j =? 0)%nat || (j =? size - 1)%nat
       then rmsd + (nth j values 0 - first_last) ^ 2
       else rmsd + (nth j values 0 - other) ^ 2)
    (seq 0 count) 0.0.

Definition sugar_ring_bond_rmsd (sugar_ring_elements : list MAtomR) : R :=
  let bonds := sugar_ring_bonds sugar_ring_elements in
  sqrt (squared_deviations bonds (List.length bonds) (List.length bonds) 1.430 1.530
        / INR (List.length bonds)).

Definition sugar_ring_angle_rmsd (sugar_ring_elements : list MAtomR) : R :=
  let bonds := sugar_ring_bonds sugar_ring_elements in
  let angles := sugar_ring_angles sugar_ring_elements in
  sqrt (squared_deviations angles (List.length bonds) (List.length angles) 112.0 109.0
        / INR (List.length angles)).

End ExamineRing.

Lemma vlength_sym (a b : Vec3) : vlength a b = vlength b a.
Proof. unfold vlength. f_equal. unfold dot, vsub; simpl. ring. Qed.

Lemma sugar_ring_bonds_length (sugar_ring_elements : list MAtomR) :
  (2 <= List.length sugar_ring_elements)%nat ->
  List.length (sugar_ring_bonds sugar_ring_elements) = List.length sugar_ring_elements.
Proof.
  intros Hn. unfold sugar_ring_bonds. cbv zeta.
  rewrite !length_app, length_map, length_seq. cbn [List.length]. lia.
Qed.

Lemma sugar_ring_bonds_nth (sugar_ring_elements : list MAtomR) (j : nat) :
  (2 <= List.length sugar_ring_elements)%nat ->
  nth j (sugar_ring_bonds sugar_ring_elements) 0
  = if (j =? 0)%nat
    then vlength (ratom_coord (ring_at sugar_ring_elements
                                       (List.length sugar_ring_elements - 1)))
                 (ratom_coord (ring_at sugar_ring_elements 0))
    else if (j <? List.length sugar_ring_elements - 1)%nat
    then vlength (ratom_coord (ring_at sugar_ring_elements (j + 1)))
                 (ratom_coord (ring_at sugar_ring_elements j))
    else if (j =? List.length sugar_ring_elements - 1)%nat
    then vlength (ratom_coord (ring_at sugar_ring_elements 0))
                 (ratom_coord (ring_at sugar_ring_elements
                                       (List.length sugar_ring_elements - 1)))
    else 0.
Proof.
  intros Hn. unfold sugar_ring_bonds, last_index. cbv zeta.
  set (n := List.length sugar_ring_elements) in *.
  set (d := fun i : nat =>
              vlength (ratom_coord (ring_at sugar_ring_elements (i + 1)))
                      (ratom_coord (ring_at sugar_ring_elements i))).
  destruct j as [|j]; [reflexivity|].
  change (S j =? 0)%nat with false. cbv iota. cbn [app nth].
  destruct (Nat.ltb_spec (S j) (n - 1)) as [Hlt|Hge].
  - rewrite app_nth1 by (rewrite length_map, length_seq; lia).
    rewrite (nth_indep _ 0 (d 0%nat)) by (rewrite length_map, length_seq; lia).
    fold d. rewrite (map_nth d).
    rewrite seq_nth by lia. reflexivity.
  - rewrite app_nth2 by (rewrite length_map, length_seq; lia).
    rewrite length_map, length_seq.
    destruct (Nat.eqb_spec (S j) (n - 1)) as [Heq|Hne].
    + replace (j - (n - 2))%nat with 0%nat by lia.
      replace (Nat.max 1 (n - 1)) with (n - 1)%nat by lia. reflexivity.
    + destruct (j - (n - 2))%nat as [|k] eqn:Hk; [lia|].
      destruct k; reflexivity.
Qed.

(** X25.  The ring bonds that are measured, for a ring of [n >= 2] atoms: [n]
    lengths; the entries [1 .. n-2] are the bonds from ring atom [j] to ring
    atom [j+1]; the first and the last entry are both the closing bond
    between the last ring atom and ring atom 0, so that the two are equal
    and the bond between ring atoms 0 and 1 is not in the list. *)
Theorem sugar_ring_bonds_layout (sugar_ring_elements : list MAtomR) :
  (2 <= List.length sugar_ring_elements)%nat ->
  let n := List.length sugar_ring_elements in
  let bonds := sugar_ring_bonds sugar_ring_elements in
  let at_ k := ratom_coord (ring_at sugar_ring_elements k) in
  List.length bonds = n
  /\ nth 0 bonds 0 = vlength (at_ (n - 1)%nat) (at_ 0%nat)
  /\ nth (n - 1) bonds 0 = nth 0 bonds 0
  /\ forall j : nat, (1 <= j <= n - 2)%nat ->
       nth j bonds 0 = vlength (at_ (j + 1)%nat) (at_ j).
Proof.
  intros Hn. cbv zeta.
  split; [apply sugar_ring_bonds_length; exact Hn|].
  split; [rewrite sugar_ring_bonds_nth by exact Hn; reflexivity|].
  split.
  - rewrite !sugar_ring_bonds_nth by exact Hn.
    destruct (Nat.eqb_spec (List.length sugar_ring_elements - 1) 0) as [H0|H0]; [lia|].
    rewrite Nat.ltb_irrefl, Nat.eqb_refl. cbn [Nat.eqb]. apply vlength_sym.
  - intros j Hj. rewrite sugar_ring_bonds_nth by exact Hn.
    destruct (Nat.eqb_spec j 0) as [H0|H0]; [lia|].
    destruct (Nat.ltb_spec j (List.length sugar_ring_elements - 1)); [reflexivity|lia].
Qed.

Lemma sugar_ring_bonds_layout_witness :
  let n := List.length chair_ring in
  let bonds := sugar_ring_bonds chair_ring in
  let at_ k := ratom_coord (ring_at chair_ring k) in
  List.length bonds = n
  /\ nth 0 bonds 0 = vlength (at_ (n - 1)%nat) (at_ 0%nat)
  /\ nth (n - 1) bonds 0 = nth 0 bonds 0
  /\ forall j : nat, (1 <= j <= n - 2)%nat ->
       nth j bonds 0 = vlength (at_ (j + 1)%nat) (at_ j).
Proof.
  apply sugar_ring_bonds_layout. simpl. lia.
Defined.

(** A sum of squares built up from a value that is not negative. *)
Lemma fold_squares (f : nat -> R) (l : list nat) (a : R) :
  0 <= a ->
  0 <= fold_left (fun rmsd j => rmsd + f j ^ 2) l a
  /\ (fold_left (fun rmsd j => rmsd + f j ^ 2) l a = 0
      <-> a = 0 /\ forall j, In j l -> f j = 0).
Proof.
  revert a. induction l as [|x l IH]; intros a Ha; cbn [fold_left].
  - split; [exact Ha|]. split; [intros H; split; [exact H | intros j []]|tauto].
  - pose proof (pow2_ge_0 (f x)) as Hx.
    destruct (IH (a + f x ^ 2)) as [Hpos Hiff]; [lra|].
    split; [exact Hpos|]. rewrite Hiff. split.
    + intros [Hs Hall].
      assert (Hfx : f x = 0) by nra.
      split; [nra|]. intros j [<-|Hj]; [exact Hfx | apply Hall; exact Hj].
    + intros [Ha0 Hall]. split.
      * rewrite Ha0, (Hall x) by (left; reflexivity). ring.
      * intros j Hj. apply Hall. right; exact Hj.
Qed.

Lemma squared_deviations_squares (values : list R) (count size : nat)
    (first_last other : R) :
  squared_deviations values count size first_last other
  = fold_left
      (fun rmsd j =>
         rmsd + (nth j values 0
                 - (if (j =? 0)%nat || (j =? size - 1)%nat then first_last else other))
                ^ 2)
      (seq 0 count) 0.
Proof.
  unfold squared_deviations. replace 0.0 with 0 by lra.
  assert (H : forall (l : list nat) (a : R),
             fold_left
               (fun rmsd j =>
                  if (j =? 0)%nat || (j =? size - 1)%nat
                  then rmsd + (nth j values 0 - first_last) ^ 2
                  else rmsd + (nth j values 0 - other) ^ 2) l a
             = fold_left
                 (fun rmsd j =>
                    rmsd + (nth j values 0
                            - (if (j =? 0)%nat || (j =? size - 1)%nat
                               then first_last else other)) ^ 2) l a).
  { induction l as [|x l IH]; intros a; cbn [fold_left]; [reflexivity|].
    rewrite IH. destruct ((x =? 0)%nat || (x =? size - 1)%nat); reflexivity. }
  apply H.
Qed.

(** X26.  The bond deviation of a ring of [n >= 2] atoms is not negative, and it
    is zero exactly when the closing bond measures 1.430 A and the bonds
    from ring atom [j] to ring atom [j+1], for [j] from 1 to [n-2], measure
    1.530 A: the bond between ring atoms 0 and 1 has no part in it. *)
Theorem sugar_ring_bond_rmsd_zero (sugar_ring_elements : list MAtomR) :
  (2 <= List.length sugar_ring_elements)%nat ->
  let n := List.length sugar_ring_elements in
  let at_ k := ratom_coord (ring_at sugar_ring_elements k) in
  0 <= sugar_ring_bond_rmsd sugar_ring_elements
  /\ (sugar_ring_bond_rmsd sugar_ring_elements = 0
      <-> vlength (at_ (n - 1)%nat) (at_ 0%nat) = 1.430
          /\ forall j : nat, (1 <= j <= n - 2)%nat ->
               vlength (at_ (j + 1)%nat) (at_ j) = 1.530).
Proof.
  intros Hn. cbv zeta.
  split; [apply sqrt_pos|].
  unfold sugar_ring_bond_rmsd. cbv zeta.
  rewrite sugar_ring_bonds_length by exact Hn.
  set (n := List.length sugar_ring_elements) in *.
  rewrite squared_deviations_squares.
  set (f := fun j : nat =>
              nth j (sugar_ring_bonds sugar_ring_elements) 0
              - (if (j =? 0)%nat || (j =? n - 1)%nat then 1.430 else 1.530)).
  destruct (fold_squares f (seq 0 n) 0 (Rle_refl 0)) as [Hpos Hiff].
  fold f.
  set (s := fold_left (fun rmsd j => rmsd + f j ^ 2) (seq 0 n) 0) in *.
  assert (HnR : 0 < INR n) by (apply lt_0_INR; lia).
  assert (Hzero : sqrt (s / INR n) = 0 <-> s = 0).
  { split.
    - intros H. apply sqrt_eq_0 in H.
      + apply Rmult_eq_compat_r with (r := INR n) in H.
        unfold Rdiv in H. rewrite Rmult_assoc, Rinv_l, Rmult_1_r, Rmult_0_l in H by lra.
        exact H.
      + apply Rmult_le_pos; [exact Hpos|]. left. apply Rinv_0_lt_compat. exact HnR.
    - intros ->. unfold Rdiv. rewrite Rmult_0_l. apply sqrt_0. }
  match goal with
  | |- sqrt ?x = 0 <-> _ => change x with (s / INR n)
  end.
  rewrite Hzero, Hiff.
  assert (H0 : nth 0 (sugar_ring_bonds sugar_ring_elements) 0
               = vlength (ratom_coord (ring_at sugar_ring_elements (n - 1)))
                         (ratom_coord (ring_at sugar_ring_elements 0)))
    by (rewrite sugar_ring_bonds_nth by exact Hn; reflexivity).
  assert (Hlast : nth (n - 1) (sugar_ring_bonds sugar_ring_elements) 0
                  = nth 0 (sugar_ring_bonds sugar_ring_elements) 0).
  { rewrite !sugar_ring_bonds_nth by exact Hn. fold n.
    destruct (Nat.eqb_spec (n - 1) 0) as [E|_]; [lia|].
    rewrite Nat.ltb_irrefl, Nat.eqb_refl. cbn [Nat.eqb]. apply vlength_sym. }
  assert (Hmid : forall j : nat, (1 <= j <= n - 2)%nat ->
                   nth j (sugar_ring_bonds sugar_ring_elements) 0
                   = vlength (ratom_coord (ring_at sugar_ring_elements (j + 1)))
                             (ratom_coord (ring_at sugar_ring_elements j))).
  { intros j Hj. rewrite sugar_ring_bonds_nth by exact Hn. fold n.
    destruct (Nat.eqb_spec j 0) as [E|_]; [lia|].
    destruct (Nat.ltb_spec j (n - 1)); [reflexivity|lia]. }
  split.
  - intros [_ Hall]. split.
    + assert (Hf : f 0%nat = 0) by (apply Hall; apply in_seq; lia).
      unfold f in Hf. cbn [Nat.eqb orb] in Hf. rewrite H0 in Hf. lra.
    + intros j Hj.
      assert (Hf : f j = 0) by (apply Hall; apply in_seq; lia).
      unfold f in Hf.
      destruct (Nat.eqb_spec j 0) as [E|_]; [lia|].
      destruct (Nat.eqb_spec j (n - 1)) as [E|_]; [lia|].
      cbn [orb] in Hf. rewrite Hmid in Hf by exact Hj. lra.
  - intros [Hclose Hall]. split; [reflexivity|].
    intros j Hj. apply in_seq in Hj. unfold f.
    destruct (Nat.eqb_spec j 0) as [E|Hj0].
    + subst j. cbn [orb]. rewrite H0. lra.
    + destruct (Nat.eqb_spec j (n - 1)) as [E|Hj1]; cbn [orb].
      * subst j. rewrite Hlast, H0. lra.
      * rewrite Hmid by lia. rewrite Hall by lia. lra.
Qed.

Lemma sugar_ring_bond_rmsd_zero_witness :
  let n := List.length chair_ring in
  let at_ k := ratom_coord (ring_at chair_ring k) in
  0 <= sugar_ring_bond_rmsd chair_ring
  /\ (sugar_ring_bond_rmsd chair_ring = 0
      <-> vlength (at_ (n - 1)%nat) (at_ 0%nat) = 1.430
          /\ forall j : nat, (1 <= j <= n - 2)%nat ->
               vlength (at_ (j + 1)%nat) (at_ j) = 1.530).
Proof.
  apply sugar_ring_bond_rmsd_zero. simpl. lia.
Defined.

(** ** Rotations and the five-membered ring *)

(** X27.  With the projections, every puckering parameter of a six-membered ring
    is unchanged when the input coordinates are rotated: total amplitude,
    [phi2], [theta], [q2] and [q3]. *)
Theorem pyranose_parameters_rotation_invariant (float_eq : R -> R -> bool)
    (m : Mat33) (mm ring_atoms : list MAtomR)
    (stereo stereo' : stereochemistry_pairs) (neighbourhood neighbourhood' : list MAtomR) :
  is_rotation m ->
  let r := cremerPople_pyranose float_eq mm ring_atoms stereo neighbourhood in
  let r' := cremerPople_pyranose float_eq (rotate_atoms m mm) (rotate_atoms m ring_atoms)
              stereo' neighbourhood' in
  totalPuckering r' = totalPuckering r /\ phi2 r' = phi2 r /\ theta r' = theta r
  /\ q2 r' = q2 r /\ q3 r' = q3 r.
Proof.
  intros H. cbv zeta. unfold cremerPople_pyranose. cbv zeta.
  cbn [totalPuckering phi2 theta q2 q3].
  rewrite !z_pyranose_rotate by exact H.
  repeat split; reflexivity.
Qed.

Lemma pyranose_parameters_rotation_invariant_witness :
  let stereo := ((MAtomR_XXX, MAtomR_XXX), (MAtomR_XXX, MAtomR_XXX)) in
  let r := cremerPople_pyranose Reqb chair_monomer chair_ring stereo chair_neighbourhood in
  let r' := cremerPople_pyranose Reqb (rotate_atoms quarter_turn_z chair_monomer)
              (rotate_atoms quarter_turn_z chair_ring) stereo
              (rotate_atoms quarter_turn_z chair_neighbourhood) in
  totalPuckering r' = totalPuckering r /\ phi2 r' = phi2 r /\ theta r' = theta r
  /\ q2 r' = q2 r /\ q3 r' = q3 r.
Proof.
  apply pyranose_parameters_rotation_invariant. exact quarter_turn_z_rotation.
Defined.

Lemma ring_centre_furanose_rotate (m : Mat33) (mm ring_atoms : list MAtomR) :
  ring_centre_furanose (rotate_atoms m mm) (rotate_atoms m ring_atoms)
  = mat_vec m (ring_centre_furanose mm ring_atoms).
Proof.
  unfold ring_centre_furanose. cbv zeta.
  rewrite !nz_rotate_atoms, !coord_of_rotate_atoms.
  unfold mat_vec; simpl. f_equal; field.
Qed.

Lemma z_furanose_rotate (m : Mat33) (mm ring_atoms : list MAtomR) (k : nat) :
  is_rotation m ->
  z_furanose (rotate_atoms m mm) (rotate_atoms m ring_atoms) k
  = z_furanose mm ring_atoms k.
Proof.
  intros H. unfold z_furanose, mean_plane_normal_furanose. cbv zeta.
  rewrite ring_centre_furanose_rotate.
  rewrite !nz_rotate_atoms, !coord_of_recentre_rotate.
  rewrite <- !mat_vec_vscale.
  rewrite <- (mat_vec_vnull m) at 1 2.
  rewrite <- !mat_vec_vadd.
  apply projection_rotation. assumption.
Qed.

(** X28.  The puckering parameters of a five-membered ring are unchanged when the
    input coordinates are rotated: total amplitude, [phi2] and [q2]. *)
Theorem furanose_parameters_rotation_invariant
    (m : Mat33) (mm ring_atoms : list MAtomR)
    (stereo stereo' : stereochemistry_pairs) (neighbourhood neighbourhood' : list MAtomR) :
  is_rotation m ->
  let r := cremerPople_furanose mm ring_atoms stereo neighbourhood in
  let r' := cremerPople_furanose (rotate_atoms m mm) (rotate_atoms m ring_atoms)
              stereo' neighbourhood' in
  totalPuckering r' = totalPuckering r /\ phi2 r' = phi2 r /\ q2 r' = q2 r.
Proof.
  intros H. cbv zeta. unfold cremerPople_furanose. cbv zeta.
  cbn [totalPuckering phi2 q2].
  rewrite !z_furanose_rotate by exact H.
  repeat split; reflexivity.
Qed.

(** A five-membered ring with one atom out of the plane of the others. *)
Definition envelope_ring : list MAtomR :=
  [ ratom "O4" "O" 1.2 0 0.3; ratom "C1" "C" 0.4 1.1 0;
    ratom "C2" "C" (-1.0) 0.7 0; ratom "C3" "C" (-1.0) (-0.7) 0;
    ratom "C4" "C" 0.4 (-1.1) 0 ].

Lemma furanose_parameters_rotation_invariant_witness :
  let stereo := ((MAtomR_XXX, MAtomR_XXX), (MAtomR_XXX, MAtomR_XXX)) in
  let r := cremerPople_furanose envelope_ring envelope_ring stereo [] in
  let r' := cremerPople_furanose (rotate_atoms quarter_turn_z envelope_ring)
              (rotate_atoms quarter_turn_z envelope_ring) stereo [] in
  totalPuckering r' = totalPuckering r /\ phi2 r' = phi2 r /\ q2 r' = q2 r.
Proof.
  apply furanose_parameters_rotation_invariant. exact quarter_turn_z_rotation.
Defined.

(** X29.  The projections of a five-membered ring satisfy the mean-plane
    conditions as well: weighted with the sines of [2 pi k / 5] they sum to
    zero, and so they do weighted with the cosines. *)
Theorem furanose_mean_plane_conditions (mm ring_atoms : list MAtomR) :
  let z := z_furanose mm ring_atoms in
  z 0%nat * sin 0.0 + z 1%nat * sin ((2.0 * PI) / 5.0)
  + z 2%nat * sin ((2.0 * PI * 2) / 5.0) + z 3%nat * sin ((2.0 * PI * 3) / 5.0)
  + z 4%nat * sin ((2.0 * PI * 4) / 5.0) = 0
  /\ z 0%nat * cos 0.0 + z 1%nat * cos ((2.0 * PI) / 5.0)
     + z 2%nat * cos ((2.0 * PI * 2) / 5.0) + z 3%nat * cos ((2.0 * PI * 3) / 5.0)
     + z 4%nat * cos ((2.0 * PI * 4) / 5.0) = 0.
Proof.
  cbv zeta. unfold z_furanose, mean_plane_normal_furanose. cbv zeta.
  set (mm' := recentre (ring_centre_furanose mm ring_atoms) mm).
  match goal with
  | |- context [unit (cross ?a ?b)] => set (rPrime := a); set (r2Prime := b)
  end.
  unfold unit. rewrite !dot_vscale_r.
  set (n := cross rPrime r2Prime).
  assert (Hs : dot rPrime n = 0) by apply dot_cross_l.
  assert (Hc : dot r2Prime n = 0) by apply dot_cross_r.
  unfold rPrime in Hs. unfold r2Prime in Hc.
  rewrite !dot_vadd_l, !dot_vscale_l, dot_vnull_l in Hs, Hc.
  split.
  - transitivity (1 / sqrt (dot n n) * 0); [|ring]. rewrite <- Hs. ring.
  - transitivity (1 / sqrt (dot n n) * 0); [|ring]. rewrite <- Hc. ring.
Qed.
